(** * customGit: the object store and the repository state machine

    A shallow embedding of the current revision of the program: object
    serialisation and hashing, the staging and permanent partitions, the
    tree builder, the commit engine, the ref manager and the tree differ.

    Conventions of the model.
    - Text is a Rocq [string] holding the UTF-8 bytes of the JavaScript
      string: [String.length] is the byte length and [js_length] the
      number of UTF-16 code units, which is what JavaScript's [.length]
      returns on a string. A file of the working directory holds any
      bytes; the text the program makes of such a [Buffer] is [toString]
      of the bytes, with U+FFFD in place of every ill-formed sequence.
      The files of [.customGit] are written by the program from strings;
      they hold valid UTF-8 and are read as they are.
    - The directory [.customGit] is the record [repo]: [HEAD], the branch
      files, which lie directly in [refs/heads], and the two object
      partitions. The working directory is an argument of the operations
      that walk it, and holds what the walk finds: every entry that
      [statSync] and [readFileSync] can read, [.customGit] too where no
      ignore pattern keeps the walk out of it.
    - A directory of the working tree is given by its entries in the
      order in which [writeTreeObject] appends them to the tree body.
      The program starts one callback per name of [readdirSync] and
      appends an entry when its callback completes, in an order it does
      not fix: the list of a [Dir] is the listing in that order of
      completion, a permutation of what [readdirSync] returned.
    - Paths use the separator of POSIX. The path of a branch or of the ref
      in [HEAD] is resolved as [path.join] does, lexically, inside
      [.customGit]; a path that leaves [.customGit] or leads into an
      object partition, and a write that would add a directory to
      [refs/heads], answer [Unmodelled].
    - An object lies under the first two characters of its name and the
      rest, as the program cuts it; the two parts are path segments for
      every digest, which is what the program stores objects under.
    - [zlib] is an abstract lossless codec: a stored buffer is represented
      by the text it inflates to.
    - [crypto.createHash("sha1")] is SHA-1 itself, written out below.
    - A message on [console.error] followed by [return] is the failure it
      names; the operations return the hash they print. *)

From Stdlib Require Import NArith String Ascii List Lia Bool Permutation DecimalString.
From stdpp Require Import base option gmap strings list fin_maps.

#[global] Arguments String.append !_ _ / : simpl nomatch.

(** ** SHA-1 (FIPS 180-4) on 32-bit words held in [N] *)

Module SHA1.

Definition mask32 : N := 4294967295.

Definition add32 (a b : N) : N := N.land (a + b) mask32.

Definition rotl (n x : N) : N :=
  N.land (N.lor (N.shiftl x n) (N.shiftr x (32 - n))) mask32.

Definition not32 (x : N) : N := N.lxor (N.land x mask32) mask32.

Definition f (t : nat) (b c d : N) : N :=
  if (t <? 20)%nat then N.lor (N.land b c) (N.land (not32 b) d)
  else if (t <? 40)%nat then N.lxor (N.lxor b c) d
  else if (t <? 60)%nat then
    N.lor (N.lor (N.land b c) (N.land b d)) (N.land c d)
  else N.lxor (N.lxor b c) d.

Definition k (t : nat) : N :=
  if (t <? 20)%nat then 1518500249
  else if (t <? 40)%nat then 1859775393
  else if (t <? 60)%nat then 2400959708
  else 3395469782.

(** Big-endian bytes of the 64-bit bit length. *)
Definition be64 (n : N) : list N :=
  map (fun i => N.land (N.shiftr n (8 * i)) 255) [7; 6; 5; 4; 3; 2; 1; 0]%N.

Definition pad (msg : list N) : list N :=
  let len := List.length msg in
  let zeros := ((119 - len mod 64) mod 64)%nat in
  msg ++ [128%N] ++ repeat 0%N zeros ++ be64 (8 * N.of_nat len).

Fixpoint words (n : nat) (bs : list N) : list N :=
  match n, bs with
  | S n', b0 :: b1 :: b2 :: b3 :: rest =>
      N.lor (N.shiftl b0 24) (N.lor (N.shiftl b1 16) (N.lor (N.shiftl b2 8) b3))
        :: words n' rest
  | _, _ => []
  end.

Fixpoint blocks (n : nat) (bs : list N) : list (list N) :=
  match n with
  | O => []
  | S n' => words 16 (firstn 64 bs) :: blocks n' (skipn 64 bs)
  end.

Definition state : Type := N * N * N * N * N.

Definition init : state :=
  (1732584193, 4023233417, 2562383102, 271733878, 3285377520)%N.

(** One round: [w] is the sliding window [W(t) .. W(t+15)]. *)
Definition round (t : nat) (sw : state * list N) : state * list N :=
  let '((a, b, c, d, e), w) := sw in
  let wt := nth 0 w 0%N in
  let next :=
    rotl 1 (N.lxor (N.lxor (nth 13 w 0) (nth 8 w 0)) (N.lxor (nth 2 w 0) wt))%N in
  let temp := add32 (add32 (add32 (add32 (rotl 5 a) (f t b c d)) e) (k t)) wt in
  ((temp, a, rotl 30 b, c, d), tl w ++ [next]).

Definition compress (h : state) (block : list N) : state :=
  let '(h0, h1, h2, h3, h4) := h in
  let '((a, b, c, d, e), _) :=
    fold_left (fun sw t => round t sw) (seq 0 80) (h, block) in
  (add32 h0 a, add32 h1 b, add32 h2 c, add32 h3 d, add32 h4 e).

Definition hexdigit (n : N) : ascii :=
  match n with
  | 0 => "0" | 1 => "1" | 2 => "2" | 3 => "3" | 4 => "4" | 5 => "5"
  | 6 => "6" | 7 => "7" | 8 => "8" | 9 => "9" | 10 => "a" | 11 => "b"
  | 12 => "c" | 13 => "d" | 14 => "e" | _ => "f"
  end%N%char.

Definition nibble (w i : N) : ascii := hexdigit (N.land (N.shiftr w (4 * i)) 15).

Definition hex8 (w : N) (rest : string) : string :=
  String (nibble w 7) (String (nibble w 6) (String (nibble w 5)
  (String (nibble w 4) (String (nibble w 3) (String (nibble w 2)
  (String (nibble w 1) (String (nibble w 0) rest))))))).

Definition hex (h : state) : string :=
  let '(h0, h1, h2, h3, h4) := h in
  hex8 h0 (hex8 h1 (hex8 h2 (hex8 h3 (hex8 h4 EmptyString)))).

Definition digest (msg : list N) : state :=
  let p := pad msg in
  fold_left compress (blocks (List.length p / 64) p) init.

Definition hexdigest (s : string) : string :=
  hex (digest (map N_of_ascii (list_ascii_of_string s))).

End SHA1.

(** ** JavaScript string primitives on UTF-8 text *)

Definition NUL : string := String "000"%char EmptyString.
Definition LF : string := String "010"%char EmptyString.

(** Template-literal rendering of a non-negative integer. *)
Definition dec (n : nat) : string := NilZero.string_of_uint (Nat.to_uint n).

(** [s.length]: UTF-16 code units of the text whose UTF-8 bytes are [s]:
    a continuation byte adds nothing, the lead byte of a four-byte
    sequence adds a surrogate pair. *)
Fixpoint js_length (s : string) : nat :=
  match s with
  | EmptyString => 0
  | String c r =>
      let n := N_of_ascii c in
      ((if (n <? 128)%N then 1 else if (n <? 192)%N then 0
        else if (n <? 240)%N then 1 else 2) + js_length r)%nat
  end.

Definition startsWith (p s : string) : bool := String.prefix p s.

(** [s.slice(0, n)] and [s.slice(n)] on ASCII text. *)
Fixpoint slice_to (n : nat) (s : string) : string :=
  match n, s with
  | S n', String c r => String c (slice_to n' r)
  | _, _ => EmptyString
  end.

Fixpoint slice_from (n : nat) (s : string) : string :=
  match n, s with
  | S n', String _ r => slice_from n' r
  | _, _ => s
  end.

(** [s.split(sep)] for a one-character separator: never empty. *)
Fixpoint split (sep : ascii) (s : string) : list string :=
  match s with
  | EmptyString => [EmptyString]
  | String c r =>
      if Ascii.eqb c sep then EmptyString :: split sep r
      else match split sep r with
           | w :: ws => String c w :: ws
           | [] => [String c EmptyString]
           end
  end.

(** ECMAScript WhiteSpace and LineTerminator code points, as UTF-8. *)
Definition ws1 (c : ascii) : bool :=
  let n := N_of_ascii c in ((9 <=? n) && (n <=? 13) || (n =? 32))%N.

Definition ws2 (c0 c1 : ascii) : bool :=
  ((N_of_ascii c0 =? 194) && (N_of_ascii c1 =? 160))%N.

Definition ws3 (c0 c1 c2 : ascii) : bool :=
  let '(a, b, c) := (N_of_ascii c0, N_of_ascii c1, N_of_ascii c2) in
  ((a =? 225) && (b =? 154) && (c =? 128)
   || (a =? 226) && (b =? 128)
      && ((128 <=? c) && (c <=? 138) || (c =? 168) || (c =? 169) || (c =? 175))
   || (a =? 226) && (b =? 129) && (c =? 159)
   || (a =? 227) && (b =? 128) && (c =? 128)
   || (a =? 239) && (b =? 187) && (c =? 191))%N.

(** Drops leading white space; with [back] the text is read backwards, so
    the bytes of a code point arrive last byte first. *)
Fixpoint strip (back : bool) (s : string) : string :=
  match s with
  | EmptyString => s
  | String c0 r0 =>
      if ws1 c0 then strip back r0
      else match r0 with
           | String c1 r1 =>
               if (if back then ws2 c1 c0 else ws2 c0 c1) then strip back r1
               else match r1 with
                    | String c2 r2 =>
                        if (if back then ws3 c2 c1 c0 else ws3 c0 c1 c2)
                        then strip back r2 else s
                    | EmptyString => s
                    end
           | EmptyString => s
           end
  end.

Fixpoint rev_append (s acc : string) : string :=
  match s with
  | EmptyString => acc
  | String c r => rev_append r (String c acc)
  end.

Definition reverse (s : string) : string := rev_append s EmptyString.

(** [s.trim()]. *)
Definition trim (s : string) : string :=
  reverse (strip true (reverse (strip false s))).

(** [buffer.toString()], on the bytes of the [Buffer] and as UTF-8 bytes
    of the string: the decoder of the Encoding Standard, which V8 follows.
    A lead byte opens a sequence of [need] more bytes, the next of them
    between [lo] and [hi]; a byte that does not fit ends the sequence with
    U+FFFD and is read again as the start of the next one. *)
Definition REPLACEMENT : string :=
  String "239"%char (String "191"%char (String "189"%char EmptyString)).

Inductive lead : Type :=
| Single
| Lead (need : nat) (lo hi : N)
| Stray.

Definition classify (b : N) : lead :=
  (if b <? 128 then Single
   else if (194 <=? b) && (b <=? 223) then Lead 0 128 191
   else if (224 <=? b) && (b <=? 239)
   then Lead 1 (if b =? 224 then 160 else 128) (if b =? 237 then 159 else 191)
   else if (240 <=? b) && (b <=? 244)
   then Lead 2 (if b =? 240 then 144 else 128) (if b =? 244 then 143 else 191)
   else Stray)%N.

(** [pending] is [None] between sequences and [Some (need, lo, hi, seen)]
    inside one: [need] bytes follow the next one, [seen] are its bytes
    so far. *)
Fixpoint decode (pending : option (nat * N * N * string)) (s : string) : string :=
  match s with
  | EmptyString =>
      match pending with
      | None => EmptyString
      | Some _ => REPLACEMENT
      end
  | String c r =>
      let b := N_of_ascii c in
      let start :=
        match classify b with
        | Single => String c (decode None r)
        | Lead need lo hi => decode (Some (need, lo, hi, String c EmptyString)) r
        | Stray => REPLACEMENT +:+ decode None r
        end in
      match pending with
      | None => start
      | Some (need, lo, hi, seen) =>
          if ((lo <=? b) && (b <=? hi))%N
          then match need with
               | O => seen +:+ String c (decode None r)
               | S need' =>
                   decode (Some (need', 128, 191, seen +:+ String c EmptyString)%N) r
               end
          else REPLACEMENT +:+ start
      end
  end.

Definition toString (buffer : string) : string := decode None buffer.

(** ** Hashing and compression *)

(** [createShaHash(data)[1]]: the hexadecimal SHA-1 digest. *)
Definition createShaHash (uncompressedData : string) : string :=
  SHA1.hexdigest uncompressedData.

(** A zlib stream, represented by what it inflates to. *)
Inductive buffer : Type := Deflated (raw : string).

Definition deflateSync (s : string) : buffer := Deflated s.
Definition inflateSync (b : buffer) : string := let 'Deflated s := b in s.

#[global] Instance buffer_eq_dec : EqDecision buffer.
Proof. solve_decision. Defined.

(** ** Repository state *)

Inductive partition : Type := Permanent | Staging.

(** The calls of [fs.writeFileSync] under [.customGit], newest first. *)
Inductive event : Type :=
| WriteObject (p : partition) (hash : string) (b : buffer)
| WriteHead (content : string)
| WriteBranch (name : string) (content : string).

(** [objects] and [staging] map a shard (two characters of the hash) to the
    files of that directory; [heads] is [refs/heads]. *)
Record repo : Type := mkRepo {
  HEAD : option string;
  heads : gmap string string;
  objects : gmap string (gmap string buffer);
  staging : gmap string (gmap string buffer);
  written : list event
}.

Inductive error : Type :=
| NothingToCommit | BranchExists | BranchNotFound | UnresolvableHead
| RepositoryAlreadyExists
| ENOENT | EISDIR | ENOTDIR | EEXIST | EIO | TypeError
| Unmodelled.

Inductive outcome (A : Type) : Type :=
| Ok (a : A)
| Err (e : error).
Arguments Ok {A} a.
Arguments Err {A} e.

(** State and exceptions: a thrown error keeps the writes made so far. *)
Definition M (A : Type) : Type := repo -> outcome A * repo.

Definition ret {A} (a : A) : M A := fun r => (Ok a, r).
Definition throw {A} (e : error) : M A := fun r => (Err e, r).
Definition bind {A B} (m : M A) (k : A -> M B) : M B :=
  fun r => match m r with
           | (Ok a, r') => k a r'
           | (Err e, r') => (Err e, r')
           end.
Definition lift {A} (o : outcome A) : M A := fun r => (o, r).
Definition get : M repo := fun r => (Ok r, r).
Definition modify (f : repo -> repo) : M unit := fun r => (Ok tt, f r).

Notation "'let!' x := m 'in' k" := (bind m (fun x => k))
  (at level 10, x name, m at level 200, k at level 200, only parsing).
Notation "m >> k" := (bind m (fun _ => k))
  (at level 65, right associativity, only parsing).

Section FoldM.
Context {A B : Type} (f : B -> A -> M B).
(** A [forEach] whose body updates a local accumulator. *)
Fixpoint foldM (acc : B) (l : list A) : M B :=
  match l with
  | [] => ret acc
  | x :: l' => let! acc' := f acc x in foldM acc' l'
  end.
End FoldM.

(** ** Object store *)

Definition part (p : partition) (r : repo) : gmap string (gmap string buffer) :=
  match p with Permanent => objects r | Staging => staging r end.

(** [mkdirSync(dir, recursive)] then [writeFileSync(dir/name, buffer)],
    for a name whose two parts are path segments: the file [name] in the
    directory [dir] of the partition. *)
Definition put (hash : string) (b : buffer) (m : gmap string (gmap string buffer))
  : gmap string (gmap string buffer) :=
  <[slice_to 2 hash := <[slice_from 2 hash := b]> (default ∅ (m !! slice_to 2 hash))]> m.

(** The file [hash.slice(2)] in the directory [hash.slice(0, 2)] of a
    partition, for a name whose two parts are path segments, as they are
    for every digest; any other name [path.join] leads elsewhere. *)
Definition lookup_object (m : gmap string (gmap string buffer)) (hash : string)
  : option buffer :=
  m !! slice_to 2 hash ≫= fun d => d !! slice_from 2 hash.

Definition writeObject (hash : string) (b : buffer) : M string :=
  modify (fun r => mkRepo (HEAD r) (heads r) (put hash b (objects r)) (staging r)
                     (WriteObject Permanent hash b :: written r)) >>
  ret hash.

Definition stageTreeObject (hash : string) (b : buffer) : M string :=
  modify (fun r => mkRepo (HEAD r) (heads r) (objects r) (put hash b (staging r))
                     (WriteObject Staging hash b :: written r)) >>
  ret hash.

(** [fs.readFileSync] of an object file. *)
Definition readObject (p : partition) (hash : string) : M buffer :=
  let! r := get in
  match lookup_object (part p r) hash with
  | Some b => ret b
  | None => throw ENOENT
  end.

(** ** Working directory *)

(** What [fs.statSync] finds at a path: a regular file with its mode bits
    and bytes, a directory, or something else (a socket, a FIFO). The
    list of a directory is what [readdirSync] returns, in the order in
    which the callbacks of [writeTreeObject] complete and append their
    entries. Symbolic links are followed by [statSync] and appear as
    their target. A path at which [statSync] or [readFileSync] throws (a
    link to nothing, a file that may not be read) has no node: a working
    directory that holds one is outside the model. *)
#[warnings="-register-all"]
Inductive node : Type :=
| File (mode : N) (data : string)
| Dir (entries : list (string * node))
| Other.

Record Stats : Type := mkStats {
  isDirectory : bool;
  isFile : bool;
  isSymbolicLink : bool;
  st_mode : N
}.

Definition statSync (n : node) : Stats :=
  match n with
  | File m _ => mkStats false true false m
  | Dir _ => mkStats true false false 16384
  | Other => mkStats false false false 0
  end.

Definition getGitMode (stats : Stats) : string :=
  if isDirectory stats then "40000"
  else if isSymbolicLink stats then "120000"
  else if (N.land (st_mode stats) 64 =? 0)%N then "100644" else "100755".

Fixpoint entry (name : string) (l : list (string * node)) : option node :=
  match l with
  | [] => None
  | (n, x) :: l' => if String.eqb n name then Some x else entry name l'
  end.

Definition readFileSync (n : option node) : outcome string :=
  match n with
  | Some (File _ data) => Ok data
  | Some (Dir _) => Err EISDIR
  | Some Other => Err EIO
  | None => Err ENOENT
  end.

(** Paths below the working directory are held relative to it, so that
    [path.relative(process.cwd(), p)] is [p]. *)
Definition pathJoin (directory file : string) : string :=
  match directory with
  | EmptyString => file
  | _ => directory +:+ "/" +:+ file
  end.

Definition getIgnoredPatterns (cwd : list (string * node)) : outcome (list string) :=
  match entry ".customIgnore" cwd with
  | Some n =>
      match readFileSync (Some n) with
      | Ok fileData =>
          let content := toString fileData in
          Ok (List.filter (fun line => negb (String.eqb (trim line) ""))
                (split "010"%char content))
      | Err e => Err e
      end
  | None => Ok [".customGit"; ".git"]
  end.

Definition shouldIgnore (cwd : list (string * node)) (filePath : string)
  : outcome bool :=
  match getIgnoredPatterns cwd with
  | Ok patterns =>
      Ok (existsb (fun pattern =>
                     String.eqb filePath pattern
                     || startsWith (pattern +:+ "/") filePath) patterns)
  | Err e => Err e
  end.

(** ** Tree builder *)

(** [`blob ${fileData.length}\x00${fileData}`]: the length is that of
    the [Buffer], the bytes; the template makes text of the [Buffer]. *)
Definition blobText (fileData : string) : string :=
  "blob " +:+ dec (String.length fileData) +:+ NUL +:+ toString fileData.

Definition treeText (treeEntries : string) : string :=
  "tree " +:+ dec (js_length treeEntries) +:+ NUL +:+ treeEntries.

Definition entryText (mode name hash : string) : string :=
  mode +:+ " " +:+ name +:+ NUL +:+ hash.

Definition writeBlobObject (file : node) : M string :=
  let! fileData := lift (readFileSync (Some file)) in
  let uncompressedBlob := blobText fileData in
  let hashHex := createShaHash uncompressedBlob in
  writeObject hashHex (deflateSync uncompressedBlob).

(** [writeTreeObject(directory)], where [n] is what lies at [directory].
    The entries are taken in the order in which their callbacks complete,
    each appended to [treeEntries] at that moment; the writes of one
    callback are listed before those of the next, which leaves the same
    files as any interleaving of them. *)
Fixpoint writeTreeObject (cwd : list (string * node)) (directory : string)
    (n : node) {struct n} : M string :=
  match n with
  | Dir files =>
      let! treeEntries :=
        foldM (fun treeEntries '(file, child) =>
                 let currentPath := pathJoin directory file in
                 let! ignored := lift (shouldIgnore cwd currentPath) in
                 if ignored : bool then ret treeEntries
                 else
                   let stats := statSync child in
                   if isDirectory stats then
                     let mode := getGitMode stats in
                     let! treeHash := writeTreeObject cwd currentPath child in
                     ret (treeEntries +:+ entryText mode file treeHash)
                   else if isFile stats then
                     let! fileHash := writeBlobObject child in
                     let mode := getGitMode stats in
                     ret (treeEntries +:+ entryText mode file fileHash)
                   else ret treeEntries)
          EmptyString files in
      let treeObject := treeText treeEntries in
      let hashHex := createShaHash treeObject in
      stageTreeObject hashHex (deflateSync treeObject)
  | _ => throw ENOTDIR
  end.

#[global] Arguments writeTreeObject : simpl never.
#[global] Arguments createShaHash : simpl never.

Definition shift {A} (l : list A) : list A := tl l.
Definition pop {A} (l : list A) : list A := removelast l.

(** [readTreeObject]: the names it prints, [None] for [undefined]. *)
Definition readTreeObject (hash : string) (staged : bool)
  : M (list (option string)) :=
  let! file := readObject (if staged then Staging else Permanent) hash in
  let entries := pop (shift (split "000"%char (inflateSync file))) in
  ret (map (fun e => nth_error (split " "%char e) 1) entries).

Definition stageWorkingTree (cwd : list (string * node)) : M string :=
  let! treeHash := writeTreeObject cwd EmptyString (Dir cwd) in
  readTreeObject treeHash true >>
  ret treeHash.

(** ** Ref manager *)

Inductive head : Type :=
| HeadBranch (ref : option string)
| HeadCommit (hash : string).

Definition getHeadReference : M head :=
  let! r := get in
  match HEAD r with
  | None => throw ENOENT
  | Some content =>
      let headContent := trim content in
      if startsWith "ref:" headContent
      then ret (HeadBranch (nth_error (split " "%char headContent) 1))
      else ret (HeadCommit headContent)
  end.

Definition writeHead (content : string) : M unit :=
  modify (fun r => mkRepo (Some content) (heads r) (objects r) (staging r)
                     (WriteHead content :: written r)).

Definition writeBranch (name content : string) : M unit :=
  modify (fun r => mkRepo (HEAD r) (<[name := content]> (heads r)) (objects r)
                     (staging r) (WriteBranch name content :: written r)).

Definition updateHeadToBranch (branchName : string) : M unit :=
  writeHead ("ref: refs/heads/" +:+ branchName +:+ LF).

Definition updateHeadToCommit (commitHash : string) : M unit :=
  writeHead (commitHash +:+ LF).

Fixpoint has_char (c : ascii) (s : string) : bool :=
  match s with
  | EmptyString => false
  | String c' r => Ascii.eqb c c' || has_char c r
  end.

(** A single path segment: a name that [path.join] leaves as it is, one
    level below the directory it is joined to. *)
Definition segment (name : string) : bool :=
  negb (String.eqb name "") && negb (String.eqb name ".")
  && negb (String.eqb name "..") && negb (has_char "/"%char name).

(** [path.normalize] on the segments of a path inside [.customGit]: an
    empty segment and [.] go, [..] takes the segment before it with it.
    [stack] holds the segments read so far, the last one first; [None]
    is a path that leaves [.customGit]. *)
Fixpoint normalize (stack segs : list string) : option (list string) :=
  match segs with
  | [] => Some (rev stack)
  | s :: rest =>
      if String.eqb s "" || String.eqb s "." then normalize stack rest
      else if String.eqb s ".." then
        match stack with
        | [] => None
        | _ :: stack' => normalize stack' rest
        end
      else normalize (s :: stack) rest
  end.

(** A path ends with a separator, which [path.join] keeps. *)
Fixpoint endsWithSlash (p : string) : bool :=
  match p with
  | EmptyString => false
  | String c EmptyString => Ascii.eqb c "/"
  | String _ r => endsWithSlash r
  end.

(** The files of [.customGit] a ref path can name. *)
Inductive gitFile : Type :=
| HeadFile
| BranchFile (name : string).

Definition readGitFile (f : gitFile) (r : repo) : option string :=
  match f with
  | HeadFile => HEAD r
  | BranchFile name => heads r !! name
  end.

(** What a path inside [.customGit] leads to: a directory that every
    repository has ([.customGit], [refs], [refs/heads]); the place of
    [HEAD] or of a branch file, which may exist or not; a path that goes
    on behind such a place, by [depth] segments or ([depth] 0) by a
    closing separator only; a place that holds nothing and is none for a
    branch; a path into an object partition or out of [.customGit]. *)
Inductive place : Type :=
| Folder
| GitFile (f : gitFile)
| Below (f : gitFile) (depth : nat)
| Nowhere
| Outside.

Definition below (f : gitFile) (slash : bool) (rest : list string) : place :=
  match rest with
  | [] => if slash then Below f 0 else GitFile f
  | _ :: _ => Below f (List.length rest)
  end.

Definition locate (segs : list string) (slash : bool) : place :=
  match segs with
  | [] => Folder
  | top :: rest =>
      if String.eqb top "HEAD" then below HeadFile slash rest
      else if String.eqb top "refs" then
        match rest with
        | [] => Folder
        | sub :: rest' =>
            if String.eqb sub "heads" then
              match rest' with
              | [] => Folder
              | name :: rest'' => below (BranchFile name) slash rest''
              end
            else Nowhere
        end
      else if String.eqb top "objects" || String.eqb top "staging" then Outside
      else Nowhere
  end.

(** [path.join(process.cwd(), '.customGit', ...parts)]. *)
Definition resolve (parts : list string) : place :=
  match normalize [] (flat_map (split "/"%char) parts) with
  | Some segs => locate segs (endsWithSlash (List.last parts EmptyString))
  | None => Outside
  end.

(** [fs.existsSync]: [false] also where a file stands in the way. *)
Definition existsSync (p : place) : M bool :=
  let! r := get in
  match p with
  | Folder => ret true
  | GitFile f => ret (match readGitFile f r with Some _ => true | None => false end)
  | Below _ _ | Nowhere => ret false
  | Outside => throw Unmodelled
  end.

(** [fs.readFileSync(p, 'utf-8')] inside [.customGit]. *)
Definition readFileGit (p : place) : M string :=
  let! r := get in
  match p with
  | Folder => throw EISDIR
  | GitFile f =>
      match readGitFile f r with
      | Some content => ret content
      | None => throw ENOENT
      end
  | Below f _ =>
      match readGitFile f r with
      | Some _ => throw ENOTDIR
      | None => throw ENOENT
      end
  | Nowhere => throw ENOENT
  | Outside => throw Unmodelled
  end.

(** [fs.mkdirSync(path.dirname(p), { recursive: true })] followed by
    [fs.writeFileSync(p, content)], at a path [p] where nothing exists.
    Behind a file [mkdirSync] throws: [EEXIST] where the file is the
    directory asked for, [ENOTDIR] where it lies further up (as
    [writeFileSync] does behind a closing separator). The branch map is
    keyed by the name as it is given: a new branch under another
    spelling of its path, one in a new directory below [refs/heads], and
    a new file anywhere else are outside the model. *)
Definition writeNewFile (p : place) (spelling content : string) : M unit :=
  let! r := get in
  match p with
  | Folder => throw EISDIR
  | GitFile HeadFile => writeHead content
  | GitFile (BranchFile name) =>
      if String.eqb name spelling then writeBranch name content
      else throw Unmodelled
  | Below f depth =>
      match readGitFile f r with
      | Some _ => throw (match depth with 1 => EEXIST | _ => ENOTDIR end)
      | None => throw Unmodelled
      end
  | Nowhere | Outside => throw Unmodelled
  end.

Definition createBranch (branchName : string) : M string :=
  let branchPath := resolve ["refs"; "heads"; branchName] in
  let! found := existsSync branchPath in
  if found : bool then throw BranchExists
  else
    let! head := getHeadReference in
    let! commitHash :=
      match head with
      | HeadCommit hash => ret hash
      | HeadBranch None => throw TypeError
      | HeadBranch (Some ref) =>
          let branchFile := resolve [ref] in
          let! found := existsSync branchFile in
          if found : bool
          then let! content := readFileGit branchFile in ret (trim content)
          else throw UnresolvableHead
      end in
    writeNewFile branchPath branchName (commitHash +:+ LF) >>
    ret commitHash.

(** The second declaration of [checkoutBranch], which is the one in
    force: [HEAD] is rewritten before the branch file is read. *)
Definition checkoutBranch (branchName : string) : M unit :=
  let branchPath := resolve ["refs"; "heads"; branchName] in
  let! found := existsSync branchPath in
  if negb found then throw BranchNotFound
  else
    updateHeadToBranch branchName >>
    let! content := readFileGit branchPath in
    let commitHash := trim content in
    ret tt.

(** ** Commit engine *)

Definition truthy (v : option string) : bool :=
  match v with
  | Some s => negb (String.eqb s "")
  | None => false
  end.

Definition commitText (treeHash : string) (parentHash : option string)
    (commitMessage : string) : string :=
  ("tree " +:+ treeHash +:+ LF)
  +:+ (if truthy parentHash then "parent " +:+ default "" parentHash +:+ LF else "")
  +:+ (LF +:+ commitMessage +:+ LF).

Definition writeCommitObject (treeHash : string) (parentHash : option string)
    (commitMessage : string) : M string :=
  let commitObject := commitText treeHash parentHash commitMessage in
  let hashHex := createShaHash commitObject in
  writeObject hashHex (deflateSync commitObject).

(** [moveDirectory(source, destination)] for one shard of the staging
    directory, followed by [rmdirSync(source)]. *)
Definition moveDirectory (shard : string) (source : gmap string buffer)
    (r : repo) : repo :=
  let destination := default ∅ (objects r !! shard) in
  let moved := map_fold (fun file b dst => <[file := b]> dst) destination source in
  mkRepo (HEAD r) (heads r) (<[shard := moved]> (objects r))
    (delete shard (staging r)) (written r).

Definition commitStagedFiles (cwd : list (string * node)) (commitMessage : string)
  : M string :=
  let! r := get in
  if decide (size (staging r) = 0) then throw NothingToCommit
  else
    modify (fun r => map_fold moveDirectory r (staging r)) >>
    let! head := getHeadReference in
    let! treeHash := writeTreeObject cwd EmptyString (Dir cwd) in
    modify (fun r => mkRepo (HEAD r) (heads r) (objects r) ∅ (written r)) >>
    let! commitHash :=
      writeCommitObject treeHash
        (match head with HeadCommit hash => Some hash | HeadBranch _ => None end)
        commitMessage in
    updateHeadToCommit commitHash >>
    ret commitHash.

(** ** Repository initialisation *)

Definition emptyRepo : repo := mkRepo None ∅ ∅ ∅ [].

Definition initialise : M unit :=
  let emptyTree := "tree 0" +:+ NUL in
  let emptyTreeHash := createShaHash emptyTree in
  writeObject emptyTreeHash (deflateSync emptyTree) >>
  let initialCommitMessage := "Initial commit" in
  let commitObject :=
    "tree " +:+ emptyTreeHash +:+ LF +:+ LF +:+ initialCommitMessage +:+ LF in
  let initialCommitHash := createShaHash commitObject in
  writeObject initialCommitHash (deflateSync commitObject) >>
  writeBranch "main" (initialCommitHash +:+ LF) >>
  writeHead ("ref: refs/heads/main" +:+ LF).

(** [disk] is [None] where no [.customGit] exists yet. *)
Definition initRepository (disk : option repo) : outcome unit * option repo :=
  match disk with
  | Some r => (Err RepositoryAlreadyExists, Some r)
  | None => let '(o, r) := initialise emptyRepo in (o, Some r)
  end.

(** ** Tree differ *)

(** A JavaScript [Map] from names to strings, in insertion order; the key
    [None] is [undefined]. *)
Fixpoint map_set (k : option string) (v : string)
    (m : list (option string * string)) : list (option string * string) :=
  match m with
  | [] => [(k, v)]
  | (k', v') :: m' =>
      if decide (k = k') then (k, v) :: m' else (k', v') :: map_set k v m'
  end.

Fixpoint map_get (k : option string) (m : list (option string * string))
  : option string :=
  match m with
  | [] => None
  | (k', v') :: m' => if decide (k = k') then Some v' else map_get k m'
  end.

Definition map_has (k : option string) (m : list (option string * string)) : bool :=
  match map_get k m with Some _ => true | None => false end.

Definition keys (m : list (option string * string)) : list (option string) :=
  map fst m.

(** [new Set(l)]: first occurrences, in order. *)
Definition new_Set (l : list (option string)) : list (option string) :=
  fold_left (fun s x => if decide (x ∈ s) then s else s ++ [x]) l [].

Definition parseTreeObject (staged : bool) (hash : string)
  : M (list (option string * string)) :=
  let! file := readObject (if staged then Staging else Permanent) hash in
  let entries := pop (shift (split "000"%char (inflateSync file))) in
  ret (fold_left
         (fun fileMap e =>
            let parts := split " "%char e in
            map_set (nth_error parts 1) (nth 0 parts EmptyString) fileMap)
         entries []).

Inductive status : Type := added | deleted | modified.

(** The lines [compareTreeObjects] prints, as status and name. *)
Definition compareTreeObjects (hash1 hash2 : string) (staged : bool)
  : M (list (status * option string)) :=
  let! tree1 := parseTreeObject staged hash1 in
  let! tree2 := parseTreeObject staged hash2 in
  let allFiles := new_Set (keys tree1 ++ keys tree2) in
  ret (flat_map
         (fun file =>
            if negb (map_has file tree1) then [(added, file)]
            else if negb (map_has file tree2) then [(deleted, file)]
            else if negb (bool_decide (map_get file tree1 = map_get file tree2))
            then [(modified, file)]
            else [])
         allFiles).

(** ** Vocabulary of the statements *)

Definition is_hex (c : ascii) : bool :=
  let n := N_of_ascii c in
  ((48 <=? n) && (n <=? 57) || (97 <=? n) && (n <=? 102))%N.

Fixpoint all_hex (s : string) : bool :=
  match s with
  | EmptyString => true
  | String c r => is_hex c && all_hex r
  end.

Fixpoint ascii_only (s : string) : bool :=
  match s with
  | EmptyString => true
  | String c r => (N_of_ascii c <? 128)%N && ascii_only r
  end.

(** Well-formed UTF-8, by the table of the Unicode Standard (3-7):
    [pending] is [None] between sequences and holds, inside one, how many
    bytes follow the next one and the range of the next one. *)
Fixpoint wellFormed (pending : option (nat * N * N)) (s : string) : bool :=
  match s with
  | EmptyString =>
      match pending with
      | None => true
      | Some _ => false
      end
  | String c r =>
      let b := N_of_ascii c in
      match pending with
      | None =>
          match classify b with
          | Single => wellFormed None r
          | Lead need lo hi => wellFormed (Some (need, lo, hi)) r
          | Stray => false
          end
      | Some (need, lo, hi) =>
          ((lo <=? b) && (b <=? hi))%N
          && match need with
             | O => wellFormed None r
             | S need' => wellFormed (Some (need', 128, 191)%N) r
             end
      end
  end.

Definition utf8 (s : string) : bool := wellFormed None s.

(** An ASCII character that is not white space: no byte of a white-space
    code point. *)
Definition solid (c : ascii) : bool := (N_of_ascii c <? 128)%N && negb (ws1 c).

(** [m] only takes steps of [R], also when it throws. *)
Definition within {A} (R : repo -> repo -> Prop) (m : M A) : Prop :=
  forall r o r', m r = (o, r') -> R r r'.

(** The value [m] returns does not depend on the repository. *)
Definition indep {A} (m : M A) : Prop := forall r1 r2, fst (m r1) = fst (m r2).

(** The callback [writeTreeObject] maps over the listing. *)
Definition entryStep (cwd : list (string * node)) (directory : string)
    (treeEntries : string) (e : string * node) : M string :=
  let '(file, child) := e in
  let currentPath := pathJoin directory file in
  let! ignored := lift (shouldIgnore cwd currentPath) in
  if ignored : bool then ret treeEntries
  else
    let stats := statSync child in
    if isDirectory stats then
      let mode := getGitMode stats in
      let! treeHash := writeTreeObject cwd currentPath child in
      ret (treeEntries +:+ entryText mode file treeHash)
    else if isFile stats then
      let! fileHash := writeBlobObject child in
      let mode := getGitMode stats in
      ret (treeEntries +:+ entryText mode file fileHash)
    else ret treeEntries.

(** The writes of a walk, one at a time: Blob objects go through
    [writeObject], Tree objects through [stageTreeObject]. *)
Inductive staged_from (r : repo) : repo -> Prop :=
| sf_refl : staged_from r r
| sf_blob fileData r' :
    staged_from r r' ->
    staged_from r
      (snd (writeObject (createShaHash (blobText fileData))
              (deflateSync (blobText fileData)) r'))
| sf_tree treeEntries r' :
    staged_from r r' ->
    staged_from r
      (snd (stageTreeObject (createShaHash (treeText treeEntries))
              (deflateSync (treeText treeEntries)) r')).

(** A Blob lies under [h] in the permanent partition; a Tree lies under
    [h] in the staging partition. *)
Definition holds_blob (r : repo) (h : string) : Prop :=
  exists fileData,
    h = createShaHash (blobText fileData)
    /\ lookup_object (objects r) h = Some (deflateSync (blobText fileData)).

Definition holds_tree (r : repo) (h : string) : Prop :=
  exists treeEntries,
    h = createShaHash (treeText treeEntries)
    /\ lookup_object (staging r) h = Some (deflateSync (treeText treeEntries)).

(** What a walk may write: a Blob to the permanent partition, a Tree to
    the staging partition; [r] is the repository after the walk. *)
Definition stage_write (r : repo) (e : event) : Prop :=
  (exists fileData,
      e = WriteObject Permanent (createShaHash (blobText fileData))
            (deflateSync (blobText fileData))
      /\ holds_blob r (createShaHash (blobText fileData)))
  \/ (exists treeEntries,
         e = WriteObject Staging (createShaHash (treeText treeEntries))
               (deflateSync (treeText treeEntries))
         /\ holds_tree r (createShaHash (treeText treeEntries))).

(** The hash of the object a directory entry stands for: of the Blob of a
    file, of the Tree of a subdirectory. *)
Definition object_hash (cwd : list (string * node)) (path : string) (child : node)
  : outcome string :=
  match child with
  | File _ fileData => Ok (createShaHash (blobText fileData))
  | _ => fst (writeTreeObject cwd path child emptyRepo)
  end.

(** The entries of the Tree object of a directory, as the data model has
    them: mode, name and child hash of every entry that is a file or a
    directory and is not ignored, in the order in which the program
    appends them, that of the list of the [Dir]. *)
Fixpoint tree_entries (cwd : list (string * node)) (directory : string)
    (files : list (string * node)) : outcome (list (string * string * string)) :=
  match files with
  | [] => Ok []
  | (file, child) :: rest =>
      match shouldIgnore cwd (pathJoin directory file) with
      | Err e => Err e
      | Ok true => tree_entries cwd directory rest
      | Ok false =>
          match child with
          | Other => tree_entries cwd directory rest
          | _ =>
              match object_hash cwd (pathJoin directory file) child with
              | Err e => Err e
              | Ok h =>
                  match tree_entries cwd directory rest with
                  | Ok es => Ok ((getGitMode (statSync child), file, h) :: es)
                  | Err e => Err e
                  end
              end
          end
      end
  end.

(** The body of a Tree object: its entries, encoded and concatenated. *)
Definition tree_body (es : list (string * string * string)) : string :=
  fold_right (fun '(mode, name, h) body => entryText mode name h +:+ body)
    EmptyString es.

(** The promotion loop of [commitStagedFiles]. *)
Definition promote (r : repo) : repo := map_fold moveDirectory r (staging r).

(** The parent [commitStagedFiles] passes on, from the content of [HEAD]. *)
Definition parent_of (content : string) : option string :=
  if startsWith "ref:" (trim content) then None else Some (trim content).

(** A write of an object file, to either partition. *)
Definition object_write (e : event) : Prop := exists p k b, e = WriteObject p k b.

(** ** Sample repositories *)

(** The repository [init] creates. *)
Definition fresh : repo := snd (initialise emptyRepo).

(** A working directory with one file, before and after an edit. There
    is no ignore file, so the default patterns apply. *)
Definition work1 : list (string * node) := [("a.txt", File 33188 "1")].
Definition work2 : list (string * node) := [("a.txt", File 33188 "2")].

(** [fresh] after [stage] in [work1]. *)
Definition staged1 : repo := snd (stageWorkingTree work1 fresh).

(** [staged1] after the commit "first", and that after an edit and a
    second [stage]. *)
Definition committed1 : repo := snd (commitStagedFiles work1 "first" staged1).
Definition staged2 : repo := snd (stageWorkingTree work2 committed1).

(** [staged1] after an edit of [a.txt] and a second [stage]: both trees
    lie in staging. *)
Definition staged12 : repo := snd (stageWorkingTree work2 staged1).

(** Two directories with the same entries: one also holds an ignored
    [.git], and its file has other permission bits of the same git mode. *)
Definition sameA : list (string * node) := [("a", File 33188 "x")].
Definition sameB : list (string * node) := [(".git", Dir []); ("a", File 33060 "x")].

(** The same two files, appended in the two orders. *)
Definition orderAB : list (string * node) :=
  [("a", File 33188 "x"); ("b", File 33188 "y")].
Definition orderBA : list (string * node) :=
  [("b", File 33188 "y"); ("a", File 33188 "x")].

(** [staged1] without the file of the branch that [HEAD] names. *)
Definition orphan : repo :=
  mkRepo (HEAD staged1) ∅ (objects staged1) (staging staged1) (written staged1).

(** [committed1] after [checkout main], the same edit and a [stage]. *)
Definition onMain1 : repo := snd (checkoutBranch "main" committed1).
Definition onMain2 : repo := snd (stageWorkingTree work2 onMain1).

(** ** Further operations of the ref manager *)

(** [checkoutCommit]: declared in the source, called from nowhere. *)
Definition checkoutCommit (commitHash : string) : M unit :=
  updateHeadToCommit commitHash.

(** [s.replace(pattern, '')] for a string pattern: the first occurrence
    is removed. *)
Fixpoint replace (pattern s : string) : string :=
  match s with
  | EmptyString => EmptyString
  | String c r =>
      if startsWith pattern s then slice_from (String.length pattern) s
      else String c (replace pattern r)
  end.

(** [getCurrentBranch]: [None] is [null]; [replace] on an undefined ref
    is a [TypeError]. *)
Definition getCurrentBranch : M (option string) :=
  let! head := getHeadReference in
  match head with
  | HeadBranch (Some ref) => ret (Some (replace "refs/heads/" ref))
  | HeadBranch None => throw TypeError
  | HeadCommit _ => ret None
  end.

(** [listBranches]: the lines it prints, as the flag of the current
    branch and the name. The directory [refs/heads] exists in every
    [repo] and holds the branch files only; the names come in the order
    of the map, where [readdirSync] gives its own. *)
Definition listBranches : M (list (bool * string)) :=
  let! r := get in
  let branches := (map_to_list (heads r)).*1 in
  let! currentBranch := getCurrentBranch in
  ret ((fun branch => (bool_decide (Some branch = currentBranch), branch))
         <$> branches).

(** ** Further vocabulary *)

Fixpoint all_solid (s : string) : bool :=
  match s with
  | EmptyString => true
  | String c r => solid c && all_solid r
  end.

(** The commands that change a repository. *)
Inductive command : Type :=
| CmdStage (cwd : list (string * node))
| CmdCommit (cwd : list (string * node)) (msg : string)
| CmdBranch (name : string)
| CmdCheckout (name : string).

Definition exec (c : command) (r : repo) : repo :=
  match c with
  | CmdStage cwd => snd (stageWorkingTree cwd r)
  | CmdCommit cwd msg => snd (commitStagedFiles cwd msg r)
  | CmdBranch name => snd (createBranch name r)
  | CmdCheckout name => snd (checkoutBranch name r)
  end.

Definition run (cmds : list command) (r : repo) : repo :=
  fold_left (fun r c => exec c r) cmds r.

(** No [NUL] and no space: a string that the two splits of the tree
    readers leave whole. *)
Definition plain (s : string) : bool :=
  negb (has_char "000"%char s) && negb (has_char " "%char s).

Definition plain_entry (e : string * string * string) : bool :=
  let '(mode, name, h) := e in plain mode && plain name && plain h.

(** What the tree readers see of a Tree body: for every entry its name,
    and in front of it the mode with the hash of the entry before. *)
Fixpoint parsed (pre : string) (es : list (string * string * string))
  : list (option string * string) :=
  match es with
  | [] => []
  | (mode, name, h) :: es' => (Some name, pre +:+ mode) :: parsed h es'
  end.

Definition entry_name (e : string * string * string) : string := snd (fst e).

(** Nothing is lost from [r] to [r']: every hash with an object in the
    permanent partition still has one, and every branch file is there
    with the content it had. *)
Definition keeps (r r' : repo) : Prop :=
  (forall h, is_Some (lookup_object (objects r) h)
             -> is_Some (lookup_object (objects r') h))
  /\ (forall name content, heads r !! name = Some content
                           -> heads r' !! name = Some content).

(** A ref file that holds the hash of an object of the permanent
    partition, followed by a line feed. *)
Definition names_object (r : repo) (content : string) : Prop :=
  exists h, content = h +:+ LF /\ all_hex h = true
            /\ is_Some (lookup_object (objects r) h).

(** Every branch file names a stored object, and so does [HEAD] unless
    it holds a symbolic reference to a branch. *)
Definition closed_refs (r : repo) : Prop :=
  (forall name content, heads r !! name = Some content -> names_object r content)
  /\ exists content,
       HEAD r = Some content
       /\ ((exists b, content = "ref: refs/heads/" +:+ b +:+ LF)
           \/ names_object r content).

(** The pieces into which the split on [NUL] cuts a Tree body that
    follows [pre]: every piece but the last ends with a name, every
    piece but the first starts with the hash of the entry before. *)
Fixpoint pieces (pre : string) (es : list (string * string * string))
  : list string :=
  match es with
  | [] => [pre]
  | (mode, name, h) :: es' => (pre +:+ mode +:+ " " +:+ name) :: pieces h es'
  end.

(** The commands whose branch name is a single path segment. *)
Definition named (c : command) : bool :=
  match c with
  | CmdBranch name | CmdCheckout name => segment name
  | _ => true
  end.

(** The body of the loop of [compareTreeObjects] over all names. *)
Definition diff_line (tree1 tree2 : list (option string * string))
    (file : option string) : list (status * option string) :=
  if negb (map_has file tree1) then [(added, file)]
  else if negb (map_has file tree2) then [(deleted, file)]
  else if negb (bool_decide (map_get file tree1 = map_get file tree2))
  then [(modified, file)]
  else [].

(** The same without the last piece. *)
Fixpoint fields (pre : string) (es : list (string * string * string))
  : list string :=
  match es with
  | [] => []
  | (mode, name, h) :: es' => (pre +:+ mode +:+ " " +:+ name) :: fields h es'
  end.

(** [orderAB] after an edit of the file [a], and the repository after
    a [stage] before and after the edit. *)
Definition editedAB : list (string * node) :=
  [("a", File 33188 "z"); ("b", File 33188 "y")].

Definition stagedAB : repo :=
  snd (stageWorkingTree editedAB (snd (stageWorkingTree orderAB fresh))).

(** * Properties *)

(** ** Strings *)

Lemma append_nil_r (s : string) : s +:+ "" = s.
Proof. induction s; simpl; congruence. Qed.

Lemma length_append (a b : string) :
  String.length (a +:+ b) = String.length a + String.length b.
Proof. induction a as [|c a IH]; [reflexivity|]. cbn. now rewrite IH. Qed.

Lemma append_assoc (a b c : string) : (a +:+ b) +:+ c = a +:+ b +:+ c.
Proof. induction a; simpl; congruence. Qed.

Lemma slice_to_from (n : nat) (s : string) : slice_to n s +:+ slice_from n s = s.
Proof.
  revert s; induction n as [|n IH]; intros [|c r]; simpl; try reflexivity.
  now rewrite IH.
Qed.

Lemma rev_append_spec (s acc : string) : rev_append s acc = reverse s +:+ acc.
Proof.
  unfold reverse. revert acc.
  induction s as [|c r IH]; intros acc; simpl; [reflexivity|].
  rewrite IH, (IH (String c "")), append_assoc. reflexivity.
Qed.

Lemma reverse_cons (c : ascii) (s : string) :
  reverse (String c s) = reverse s +:+ String c "".
Proof. unfold reverse at 1. simpl. apply rev_append_spec. Qed.

Lemma reverse_app (a b : string) : reverse (a +:+ b) = reverse b +:+ reverse a.
Proof.
  induction a as [|c r IH]; simpl.
  - now rewrite append_nil_r.
  - now rewrite !reverse_cons, IH, append_assoc.
Qed.

Lemma reverse_involutive (s : string) : reverse (reverse s) = s.
Proof.
  induction s as [|c r IH]; [reflexivity|].
  now rewrite reverse_cons, reverse_app, IH.
Qed.

Lemma has_char_app (c : ascii) (a b : string) :
  has_char c (a +:+ b) = has_char c a || has_char c b.
Proof. induction a as [|x r IH]; simpl; [reflexivity|]. now rewrite IH, orb_assoc. Qed.

Lemma all_hex_app (a b : string) : all_hex (a +:+ b) = all_hex a && all_hex b.
Proof. induction a as [|x r IH]; simpl; [reflexivity|]. now rewrite IH, andb_assoc. Qed.

Lemma ascii_only_app (a b : string) :
  ascii_only (a +:+ b) = ascii_only a && ascii_only b.
Proof. induction a as [|x r IH]; simpl; [reflexivity|]. now rewrite IH, andb_assoc. Qed.

Lemma append_cancel_l (c x y : string) : c +:+ x = c +:+ y -> x = y.
Proof.
  induction c as [|a c IH]; simpl String.append; [auto|].
  intros [= H]. auto.
Qed.

Lemma append_cancel_r (a b c : string) : a +:+ c = b +:+ c -> a = b.
Proof.
  intros H. apply (f_equal reverse) in H. rewrite !reverse_app in H.
  apply append_cancel_l in H.
  now rewrite <- (reverse_involutive a), <- (reverse_involutive b), H.
Qed.

Lemma has_char_rev_append (c : ascii) (s acc : string) :
  has_char c (rev_append s acc) = has_char c s || has_char c acc.
Proof.
  revert acc. induction s as [|a s IH]; intros acc; [reflexivity|].
  cbn [rev_append has_char]. rewrite IH. cbn [has_char].
  now destruct (Ascii.eqb c a), (has_char c s), (has_char c acc).
Qed.

Lemma has_char_reverse (c : ascii) (s : string) :
  has_char c (reverse s) = has_char c s.
Proof. unfold reverse. rewrite has_char_rev_append. apply orb_false_r. Qed.

Lemma js_length_ascii (s : string) : ascii_only s = true -> js_length s = String.length s.
Proof.
  induction s as [|c r IH]; simpl; [reflexivity|].
  intros [Hc Hr]%andb_true_iff. rewrite Hc, IH by assumption. reflexivity.
Qed.

Lemma is_hex_ascii (c : ascii) : is_hex c = true -> (N_of_ascii c <? 128)%N = true.
Proof.
  unfold is_hex. intros H. apply N.ltb_lt.
  apply orb_true_iff in H as [H|H]; apply andb_true_iff in H as [_ H];
    apply N.leb_le in H; lia.
Qed.

Lemma all_hex_ascii (s : string) : all_hex s = true -> ascii_only s = true.
Proof.
  induction s as [|c r IH]; simpl; [reflexivity|].
  intros [Hc Hr]%andb_true_iff. now rewrite (is_hex_ascii _ Hc), IH.
Qed.

Lemma solid_spec (c : ascii) :
  solid c = true ->
  ws1 c = false /\ (forall x, ws2 c x = false /\ ws2 x c = false)
  /\ (forall x y, ws3 c x y = false /\ ws3 x y c = false /\ ws3 x c y = false).
Proof.
  unfold solid. intros [Hlt Hws]%andb_true_iff.
  apply N.ltb_lt in Hlt. apply negb_true_iff in Hws.
  assert (Hne : forall k, (128 <= k)%N -> (N_of_ascii c =? k)%N = false)
    by (intros k Hk; apply N.eqb_neq; lia).
  assert (Hge : forall k, (128 <= k)%N -> (k <=? N_of_ascii c)%N = false)
    by (intros k Hk; apply N.leb_gt; lia).
  split; [assumption|split].
  - intros x. unfold ws2. rewrite !Hne by lia. now rewrite andb_false_r.
  - intros x y. unfold ws3. rewrite !Hne, !Hge by lia. simpl.
    rewrite ?andb_false_r, ?andb_false_l, ?orb_false_r. simpl.
    rewrite ?andb_false_r. auto.
Qed.

Lemma is_hex_solid (c : ascii) : is_hex c = true -> solid c = true.
Proof.
  intros H. unfold solid. rewrite (is_hex_ascii _ H). simpl.
  apply negb_true_iff. unfold ws1. unfold is_hex in H.
  assert (48 <= N_of_ascii c)%N.
  { apply orb_true_iff in H as [H|H]; apply andb_true_iff in H as [H1 H2];
      apply N.leb_le in H1, H2; lia. }
  apply orb_false_iff; split;
    [apply andb_false_iff; right; apply N.leb_gt; lia | apply N.eqb_neq; lia].
Qed.

Lemma strip_eq (back : bool) (s : string) :
  strip back s =
  match s with
  | EmptyString => s
  | String c0 r0 =>
      if ws1 c0 then strip back r0
      else match r0 with
           | String c1 r1 =>
               if (if back then ws2 c1 c0 else ws2 c0 c1) then strip back r1
               else match r1 with
                    | String c2 r2 =>
                        if (if back then ws3 c2 c1 c0 else ws3 c0 c1 c2)
                        then strip back r2 else s
                    | EmptyString => s
                    end
           | EmptyString => s
           end
  end.
Proof. destruct s; reflexivity. Qed.

(** White space is only trimmed up to the first solid character. *)
Lemma strip_solid_head (back : bool) (c : ascii) (r : string) :
  solid c = true -> strip back (String c r) = String c r.
Proof.
  intros (H1 & H2 & H3)%solid_spec. rewrite strip_eq, H1.
  destruct r as [|c1 r1]; [reflexivity|].
  destruct (H2 c1) as [-> ->].
  destruct r1 as [|c2 r2]; [now destruct back|].
  destruct (H3 c1 c2) as (-> & _ & _). destruct (H3 c2 c1) as (_ & -> & _).
  now destruct back.
Qed.

Lemma strip_keeps_solid (back : bool) (c : ascii) (y : string) :
  solid c = true ->
  forall n x, String.length x <= n ->
    exists x', strip back (x +:+ String c y) = x' +:+ String c y.
Proof.
  intros Hc. pose proof (solid_spec _ Hc) as (H1 & H2 & H3).
  induction n as [n IH] using lt_wf_ind. intros x Hn.
  destruct x as [|a x1].
  { exists EmptyString. simpl. now apply strip_solid_head. }
  simpl in Hn. rewrite strip_eq. simpl String.append. cbv iota.
  destruct (ws1 a).
  { apply (IH (String.length x1)); lia. }
  destruct x1 as [|a1 x2]; simpl String.append; cbv iota.
  { destruct (H2 a) as [-> ->].
    exists (String a EmptyString).
    destruct y as [|c2 r2]; [now destruct back|].
    destruct (H3 a c2) as (_ & _ & ->). destruct (H3 c2 a) as (_ & _ & ->).
    now destruct back. }
  simpl in Hn.
  destruct (if back then ws2 a1 a else ws2 a a1).
  { apply (IH (String.length x2)); lia. }
  destruct x2 as [|a2 x3]; simpl String.append; cbv iota.
  { destruct (H3 a a1) as (_ & -> & _). destruct (H3 a1 a) as (-> & _ & _).
    exists (String a (String a1 EmptyString)). now destruct back. }
  simpl in Hn.
  destruct (if back then ws3 a2 a1 a else ws3 a a1 a2).
  { apply (IH (String.length x3)); lia. }
  now exists (String a (String a1 (String a2 x3))).
Qed.

Lemma all_hex_reverse (s : string) : all_hex (reverse s) = all_hex s.
Proof.
  induction s as [|c r IH]; [reflexivity|].
  rewrite reverse_cons, all_hex_app, IH. simpl.
  now rewrite andb_true_r, andb_comm.
Qed.

Lemma strip_hex (back : bool) (s : string) : all_hex s = true -> strip back s = s.
Proof.
  destruct s as [|c r]; [reflexivity|]. simpl.
  intros [Hc _]%andb_true_iff. apply strip_solid_head. now apply is_hex_solid.
Qed.

(** Reading back a hash from a ref file: [(hash + "\n").trim()]. *)
Lemma trim_hash (h : string) : all_hex h = true -> trim (h +:+ LF) = h.
Proof.
  intros Hh. destruct h as [|c r]; [reflexivity|].
  unfold trim. simpl String.append.
  rewrite strip_solid_head
    by (simpl in Hh; apply andb_true_iff in Hh as [Hc _]; now apply is_hex_solid).
  change (String c (r +:+ LF)) with (String c r +:+ LF).
  rewrite reverse_app. change (reverse LF) with LF. unfold LF at 1.
  simpl String.append. rewrite strip_eq. change (ws1 "010") with true. cbv iota.
  rewrite strip_hex by now rewrite all_hex_reverse.
  apply reverse_involutive.
Qed.

Lemma startsWith_cons (a b : ascii) (p s : string) :
  startsWith (String a p) (String b s)
  = if ascii_dec a b then startsWith p s else false.
Proof. reflexivity. Qed.

Lemma startsWith_ref_hex (h : string) : all_hex h = true -> startsWith "ref:" h = false.
Proof.
  destruct h as [|c r]; [reflexivity|]. cbn [all_hex].
  intros [Hc _]%andb_true_iff. rewrite startsWith_cons.
  destruct (ascii_dec "r" c) as [<-|]; [discriminate Hc | reflexivity].
Qed.

(** What is left of a text after stripping is an end of it. *)
Lemma strip_suffix (back : bool) (s : string) : exists pre, s = pre +:+ strip back s.
Proof.
  assert (H : forall n s, String.length s <= n -> exists pre, s = pre +:+ strip back s).
  { clear s. induction n as [n IH] using lt_wf_ind. intros s Hn.
    destruct s as [|a s1]; [now exists EmptyString|].
    rewrite strip_eq. cbn [String.length] in Hn.
    destruct (ws1 a).
    { destruct (IH (String.length s1) ltac:(lia) s1 (le_n _)) as [pre Hp].
      exists (String a pre). cbn. now rewrite <- Hp. }
    destruct s1 as [|a1 s2]; [now exists EmptyString|]. cbn [String.length] in Hn.
    destruct (if back then ws2 a1 a else ws2 a a1).
    { destruct (IH (String.length s2) ltac:(lia) s2 (le_n _)) as [pre Hp].
      exists (String a (String a1 pre)). cbn. now rewrite <- Hp. }
    destruct s2 as [|a2 s3]; [now exists EmptyString|]. cbn [String.length] in Hn.
    destruct (if back then ws3 a2 a1 a else ws3 a a1 a2); [|now exists EmptyString].
    destruct (IH (String.length s3) ltac:(lia) s3 (le_n _)) as [pre Hp].
    exists (String a (String a1 (String a2 pre))). cbn. now rewrite <- Hp. }
  exact (H _ s (le_n _)).
Qed.

(** What [updateHeadToBranch] writes is read back as a symbolic ref. *)
Lemma trim_symbolic (name : string) :
  startsWith "ref:" (trim ("ref: refs/heads/" +:+ name +:+ LF)) = true.
Proof.
  unfold trim. simpl String.append.
  rewrite strip_solid_head by reflexivity.
  change (String "r" (String "e" (String "f" (String ":" (String " "
    (String "r" (String "e" (String "f" (String "s" (String "/"
    (String "h" (String "e" (String "a" (String "d" (String "s"
    (String "/" (name +:+ LF)))))))))))))))))
    with ("ref: refs/heads" +:+ String "/" (name +:+ LF)).
  rewrite reverse_app, reverse_cons, append_assoc.
  destruct (strip_keeps_solid true "/" (reverse "ref: refs/heads") eq_refl
              _ (reverse (name +:+ LF)) (le_n _)) as [x' Hx].
  simpl String.append. simpl String.append in Hx. rewrite Hx.
  rewrite reverse_app, reverse_cons. reflexivity.
Qed.

(** ** Hashes *)

Lemma hexdigit_hex (n : N) : is_hex (SHA1.hexdigit n) = true.
Proof.
  unfold SHA1.hexdigit.
  repeat match goal with
         | |- context [match ?x with _ => _ end] => destruct x
         end; reflexivity.
Qed.

Lemma hex8_hex (w : N) (rest : string) :
  all_hex (SHA1.hex8 w rest) = all_hex rest
  /\ String.length (SHA1.hex8 w rest) = 8 + String.length rest.
Proof.
  unfold SHA1.hex8, SHA1.nibble. cbn [all_hex String.length].
  rewrite !hexdigit_hex. split; reflexivity.
Qed.

(** A hash is forty hexadecimal digits, whatever was hashed. *)
Lemma createShaHash_hex (s : string) :
  all_hex (createShaHash s) = true /\ String.length (createShaHash s) = 40.
Proof.
  unfold createShaHash, SHA1.hexdigest, SHA1.hex.
  destruct (SHA1.digest _) as [[[[h0 h1] h2] h3] h4].
  repeat match goal with
         | |- context [SHA1.hex8 ?w ?r] =>
             let H := fresh in
             destruct (hex8_hex w r) as [-> ->]
         end.
  split; reflexivity.
Qed.

Lemma createShaHash_nonempty (s : string) : createShaHash s <> "".
Proof.
  intros H. pose proof (createShaHash_hex s) as [_ Hl]. now rewrite H in Hl.
Qed.

Opaque createShaHash.

(** ** Object store *)

Lemma lookup_put_eq (h : string) (b : buffer) (m : gmap string (gmap string buffer)) :
  lookup_object (put h b m) h = Some b.
Proof.
  unfold lookup_object, put. rewrite lookup_insert_eq. cbn [mbind option_bind].
  apply lookup_insert_eq.
Qed.

Lemma lookup_put_ne (h h' : string) (b : buffer)
    (m : gmap string (gmap string buffer)) :
  h <> h' -> lookup_object (put h b m) h' = lookup_object m h'.
Proof.
  intros Hne. unfold lookup_object, put.
  destruct (decide (slice_to 2 h = slice_to 2 h')) as [E|E].
  - rewrite E, lookup_insert_eq. cbn [mbind option_bind].
    rewrite lookup_insert_ne.
    + destruct (m !! slice_to 2 h'); [reflexivity|apply lookup_empty].
    + intros E'. apply Hne.
      now rewrite <- (slice_to_from 2 h), <- (slice_to_from 2 h'), E, E'.
  - now rewrite lookup_insert_ne.
Qed.

(** ** The monad *)

Section Hoare.
Context (R : repo -> repo -> Prop).
Hypothesis R_refl : forall r, R r r.
Hypothesis R_trans : forall r1 r2 r3, R r1 r2 -> R r2 r3 -> R r1 r3.

Lemma within_ret {A} (a : A) : within R (ret a).
Proof. intros r o r' [= _ <-]. apply R_refl. Qed.

Lemma within_throw {A} (e : error) : within R (@throw A e).
Proof. intros r o r' [= _ <-]. apply R_refl. Qed.

Lemma within_lift {A} (x : outcome A) : within R (lift x).
Proof. intros r o r' [= _ <-]. apply R_refl. Qed.

Lemma within_get : within R get.
Proof. intros r o r' [= _ <-]. apply R_refl. Qed.

Lemma within_bind {A B} (m : M A) (k : A -> M B) :
  within R m -> (forall a, within R (k a)) -> within R (bind m k).
Proof.
  intros Hm Hk r o r'. unfold bind.
  destruct (m r) as [[a|e] r1] eqn:E; intros H.
  - eapply R_trans; [eapply Hm, E | eapply Hk, H].
  - injection H as _ <-. eapply Hm, E.
Qed.

Lemma within_foldM {A B} (f : B -> A -> M B) (l : list A) :
  Forall (fun x => forall acc, within R (f acc x)) l ->
  forall acc, within R (foldM f acc l).
Proof.
  induction 1 as [|x l Hx _ IH]; intros acc; simpl.
  - apply within_ret.
  - apply within_bind; [apply Hx | intros a; apply IH].
Qed.
End Hoare.

Lemma bind_ok {A B} (m : M A) (k : A -> M B) (r r' : repo) (a : A) :
  m r = (Ok a, r') -> bind m k r = k a r'.
Proof. intros H. unfold bind. now rewrite H. Qed.

Lemma bind_get {A} (k : repo -> M A) (r : repo) : bind get k r = k r r.
Proof. reflexivity. Qed.

Lemma indep_ret {A} (a : A) : indep (ret a).
Proof. intros r1 r2. reflexivity. Qed.

Lemma indep_throw {A} (e : error) : indep (@throw A e).
Proof. intros r1 r2. reflexivity. Qed.

Lemma indep_lift {A} (x : outcome A) : indep (lift x).
Proof. intros r1 r2. reflexivity. Qed.

Lemma indep_bind {A B} (m : M A) (k : A -> M B) :
  indep m -> (forall a, indep (k a)) -> indep (bind m k).
Proof.
  intros Hm Hk r1 r2. unfold bind. specialize (Hm r1 r2).
  destruct (m r1) as [[a1|e1] r1'], (m r2) as [[a2|e2] r2']; simpl in Hm;
    try discriminate; injection Hm as ->; [apply Hk | reflexivity].
Qed.

Lemma indep_foldM {A B} (f : B -> A -> M B) (l : list A) :
  Forall (fun x => forall acc, indep (f acc x)) l ->
  forall acc, indep (foldM f acc l).
Proof.
  induction 1 as [|x l Hx _ IH]; intros acc; simpl.
  - apply indep_ret.
  - apply indep_bind; [apply Hx | intros a; apply IH].
Qed.

Lemma indep_writeObject (h : string) (b : buffer) : indep (writeObject h b).
Proof. intros r1 r2. reflexivity. Qed.

Lemma indep_stageTreeObject (h : string) (b : buffer) : indep (stageTreeObject h b).
Proof. intros r1 r2. reflexivity. Qed.

(** ** The tree builder *)

Lemma node_nested_ind (P : node -> Prop) :
  (forall m d, P (File m d)) ->
  (forall es, Forall (fun e => P (snd e)) es -> P (Dir es)) ->
  P Other ->
  forall n, P n.
Proof.
  intros HF HD HO.
  refine (fix IH (n : node) : P n :=
            match n with
            | File m d => HF m d
            | Dir es =>
                HD es ((fix go (l : list (string * node))
                          : Forall (fun e => P (snd e)) l :=
                          match l with
                          | [] => List.Forall_nil _
                          | (s, x) :: l' =>
                              @List.Forall_cons _ (fun e => P (snd e)) (s, x) l'
                                (IH x) (go l')
                          end) es)
            | Other => HO
            end).
Qed.

Lemma writeTreeObject_Dir cwd directory files :
  writeTreeObject cwd directory (Dir files)
  = (let! treeEntries := foldM (entryStep cwd directory) EmptyString files in
     stageTreeObject (createShaHash (treeText treeEntries))
       (deflateSync (treeText treeEntries))).
Proof. reflexivity. Qed.

Lemma writeTreeObject_indep cwd (n : node) :
  forall directory, indep (writeTreeObject cwd directory n).
Proof.
  induction n as [m d|files IH|] using node_nested_ind; intros directory;
    try apply indep_throw.
  rewrite writeTreeObject_Dir.
  apply indep_bind; [|intros a; apply indep_stageTreeObject].
  apply indep_foldM. eapply Forall_impl; [exact IH|].
  intros [file child] Hc acc. simpl in Hc. unfold entryStep.
  apply indep_bind; [apply indep_lift|]. intros [|]; [apply indep_ret|].
  destruct child as [m d|sub|]; simpl.
  - apply indep_bind; [|intros a; apply indep_ret].
    unfold writeBlobObject.
    apply indep_bind; [apply indep_lift | intros a; apply indep_writeObject].
  - apply indep_bind; [apply Hc | intros a; apply indep_ret].
  - apply indep_ret.
Qed.

Lemma staged_from_trans r1 r2 r3 :
  staged_from r1 r2 -> staged_from r2 r3 -> staged_from r1 r3.
Proof.
  intros H12 H23.
  induction H23; [assumption|now apply sf_blob|now apply sf_tree].
Qed.

Lemma writeBlobObject_within (child : node) : within staged_from (writeBlobObject child).
Proof.
  unfold writeBlobObject. intros r o r'. unfold bind, lift.
  destruct (readFileSync (Some child)) as [fileData|e].
  - intros H. replace r' with (snd (writeObject (createShaHash (blobText fileData))
                                     (deflateSync (blobText fileData)) r))
      by now rewrite H.
    apply sf_blob, sf_refl.
  - intros [= _ <-]. apply sf_refl.
Qed.

Lemma writeTreeObject_within cwd (n : node) :
  forall directory, within staged_from (writeTreeObject cwd directory n).
Proof.
  pose proof sf_refl as Hr. pose proof staged_from_trans as Ht.
  induction n as [m d|files IH|] using node_nested_ind; intros directory;
    try now apply within_throw.
  rewrite writeTreeObject_Dir. apply within_bind; try assumption.
  - apply within_foldM; try assumption.
    eapply Forall_impl; [exact IH|].
    intros [file child] Hc acc. simpl in Hc. unfold entryStep.
    apply within_bind; try assumption; [now apply within_lift|].
    intros [|]; [now apply within_ret|].
    destruct child as [m d|sub|]; simpl.
    + apply within_bind; try assumption;
        [apply writeBlobObject_within | intros a; now apply within_ret].
    + apply within_bind; try assumption;
        [apply Hc | intros a; now apply within_ret].
    + now apply within_ret.
  - intros treeEntries r o r' H.
    replace r' with (snd (stageTreeObject (createShaHash (treeText treeEntries))
                            (deflateSync (treeText treeEntries)) r))
      by now rewrite H.
    apply sf_tree, sf_refl.
Qed.

Lemma entryStep_within cwd directory acc (e : string * node) :
  within staged_from (entryStep cwd directory acc e).
Proof.
  pose proof sf_refl as Hr. pose proof staged_from_trans as Ht.
  destruct e as [file child]. unfold entryStep.
  apply within_bind; try assumption; [now apply within_lift|].
  intros [|]; [now apply within_ret|].
  destruct child as [m d|sub|]; simpl.
  - apply within_bind; try assumption;
      [apply writeBlobObject_within | intros a; now apply within_ret].
  - apply within_bind; try assumption;
      [apply writeTreeObject_within | intros a; now apply within_ret].
  - now apply within_ret.
Qed.

(** A walk writes neither [HEAD] nor a branch. *)
Lemma staged_from_refs r r' :
  staged_from r r' -> HEAD r' = HEAD r /\ heads r' = heads r.
Proof. induction 1; simpl; auto. Qed.

Lemma holds_blob_put r h fileData objs :
  objs = put (createShaHash (blobText fileData)) (deflateSync (blobText fileData))
           (objects r) ->
  holds_blob r h ->
  holds_blob (mkRepo (HEAD r) (heads r) objs (staging r)
                (WriteObject Permanent (createShaHash (blobText fileData))
                   (deflateSync (blobText fileData)) :: written r)) h.
Proof.
  intros -> (d & Hh & Hl). unfold holds_blob. simpl.
  destruct (decide (createShaHash (blobText fileData) = h)) as [E|E].
  - exists fileData. rewrite <- E. split; [reflexivity|apply lookup_put_eq].
  - exists d. split; [assumption|]. now rewrite lookup_put_ne.
Qed.

Lemma holds_tree_put r h treeEntries stg :
  stg = put (createShaHash (treeText treeEntries)) (deflateSync (treeText treeEntries))
          (staging r) ->
  holds_tree r h ->
  holds_tree (mkRepo (HEAD r) (heads r) (objects r) stg
                (WriteObject Staging (createShaHash (treeText treeEntries))
                   (deflateSync (treeText treeEntries)) :: written r)) h.
Proof.
  intros -> (d & Hh & Hl). unfold holds_tree. simpl.
  destruct (decide (createShaHash (treeText treeEntries) = h)) as [E|E].
  - exists treeEntries. rewrite <- E. split; [reflexivity|apply lookup_put_eq].
  - exists d. split; [assumption|]. now rewrite lookup_put_ne.
Qed.

Lemma stage_write_mono r r' e :
  (forall h, holds_blob r h -> holds_blob r' h) ->
  (forall h, holds_tree r h -> holds_tree r' h) ->
  stage_write r e -> stage_write r' e.
Proof.
  intros Hb Ht [(d & -> & H)|(d & -> & H)]; [left|right]; exists d; auto.
Qed.

(** The log of a walk: only Blob writes to the permanent partition and
    Tree writes to the staging partition, each still in place at the end. *)
Lemma staged_from_written r r' :
  staged_from r r' ->
  exists new, written r' = new ++ written r /\ Forall (stage_write r') new.
Proof.
  induction 1 as [|d r' _ (new & Hw & Hnew)|d r' _ (new & Hw & Hnew)].
  - exists []. split; [reflexivity|constructor].
  - eexists (_ :: new). simpl. rewrite Hw. split; [reflexivity|].
    constructor.
    + left. exists d. split; [reflexivity|].
      exists d. split; [reflexivity|apply lookup_put_eq].
    + eapply Forall_impl; [exact Hnew|]. intros e.
      apply stage_write_mono.
      * intros h. now apply (holds_blob_put r' h d _ eq_refl).
      * intros h (x & Hx & Hl). now exists x.
  - eexists (_ :: new). simpl. rewrite Hw. split; [reflexivity|].
    constructor.
    + right. exists d. split; [reflexivity|].
      exists d. split; [reflexivity|apply lookup_put_eq].
    + eapply Forall_impl; [exact Hnew|]. intros e.
      apply stage_write_mono.
      * intros h (x & Hx & Hl). now exists x.
      * intros h. now apply (holds_tree_put r' h d _ eq_refl).
Qed.

(** The partitions after a walk: the permanent one differs only where a
    Blob now lies, the staging one only where a Tree now lies. *)
Lemma staged_from_partitions r r' :
  staged_from r r' ->
  (forall h, lookup_object (objects r') h = lookup_object (objects r) h
             \/ holds_blob r' h)
  /\ (forall h, lookup_object (staging r') h = lookup_object (staging r) h
                \/ holds_tree r' h).
Proof.
  induction 1 as [|d r' _ [IHo IHs]|d r' _ [IHo IHs]].
  - split; intros h; now left.
  - split; intros h; simpl.
    + destruct (decide (createShaHash (blobText d) = h)) as [<-|E].
      * right. exists d. split; [reflexivity|apply lookup_put_eq].
      * destruct (IHo h) as [Ho|Ho].
        -- left. now rewrite lookup_put_ne.
        -- right. now apply (holds_blob_put r' h d _ eq_refl).
    + destruct (IHs h) as [Hs|(x & Hx & Hl)]; [now left|right; now exists x].
  - split; intros h; simpl.
    + destruct (IHo h) as [Ho|(x & Hx & Hl)]; [now left|right; now exists x].
    + destruct (decide (createShaHash (treeText d) = h)) as [<-|E].
      * right. exists d. split; [reflexivity|apply lookup_put_eq].
      * destruct (IHs h) as [Hs|Hs].
        -- left. now rewrite lookup_put_ne.
        -- right. now apply (holds_tree_put r' h d _ eq_refl).
Qed.

Lemma foldM_entries cwd directory files :
  forall acc r,
    fst (foldM (entryStep cwd directory) acc files r)
    = match tree_entries cwd directory files with
      | Ok es => Ok (acc +:+ tree_body es)
      | Err e => Err e
      end.
Proof.
  induction files as [|[file child] rest IH]; intros acc r.
  - simpl. now rewrite append_nil_r.
  - cbn [foldM tree_entries]. unfold bind at 1. unfold entryStep at 1.
    unfold bind at 1, lift.
    destruct (shouldIgnore cwd (pathJoin directory file)) as [[|]|e];
      [apply IH| |reflexivity].
    destruct child as [m d|sub|]; cbn [statSync isDirectory isFile].
    + unfold bind, writeBlobObject, lift. simpl fst.
      cbn [readFileSync object_hash]. unfold bind, writeObject, modify, ret.
      rewrite IH. destruct (tree_entries cwd directory rest); [|reflexivity].
      simpl. now rewrite append_assoc.
    + unfold bind at 1.
      pose proof (writeTreeObject_indep cwd (Dir sub) (pathJoin directory file)
                    r emptyRepo) as Hi.
      unfold object_hash.
      destruct (writeTreeObject cwd (pathJoin directory file) (Dir sub) r)
        as [[h|e] r1]; simpl in Hi; rewrite <- Hi; [|reflexivity].
      unfold ret. rewrite IH.
      destruct (tree_entries cwd directory rest); [|reflexivity].
      simpl. now rewrite append_assoc.
    + apply IH.
Qed.

(** The walk of a directory stages the Tree object of its entries and
    returns its hash. *)
Lemma writeTreeObject_result cwd directory files r :
  match tree_entries cwd directory files with
  | Ok es =>
      exists r1,
        staged_from r r1
        /\ writeTreeObject cwd directory (Dir files) r
           = stageTreeObject (createShaHash (treeText (tree_body es)))
               (deflateSync (treeText (tree_body es))) r1
  | Err e => fst (writeTreeObject cwd directory (Dir files) r) = Err e
  end.
Proof.
  pose proof (foldM_entries cwd directory files EmptyString r) as Hf.
  rewrite writeTreeObject_Dir. unfold bind.
  destruct (foldM (entryStep cwd directory) EmptyString files r)
    as [[body|e] r1] eqn:E; simpl in Hf.
  - destruct (tree_entries cwd directory files) as [es|e]; [|discriminate].
    injection Hf as ->. exists r1. split; [|reflexivity].
    eapply (within_foldM staged_from sf_refl staged_from_trans);
      [apply Forall_forall; intros x _ a; apply entryStep_within | exact E].
  - destruct (tree_entries cwd directory files) as [es|e']; [discriminate|].
    simpl. congruence.
Qed.

(** ** The commit engine *)

Lemma promote_refs r :
  HEAD (promote r) = HEAD r /\ heads (promote r) = heads r
  /\ written (promote r) = written r.
Proof.
  unfold promote.
  apply (map_fold_weak_ind
           (fun acc (_ : gmap string (gmap string buffer)) =>
              HEAD acc = HEAD r /\ heads acc = heads r /\ written acc = written r)).
  - auto.
  - intros shard source m acc _ IH. exact IH.
Qed.

Lemma promote_staging r : staging (promote r) = ∅.
Proof.
  unfold promote.
  assert (H : forall k, staging (map_fold moveDirectory r (staging r)) !! k
                        = match staging r !! k with
                          | Some _ => None
                          | None => staging r !! k
                          end).
  { apply (map_fold_weak_ind
             (fun acc (m : gmap string (gmap string buffer)) =>
                forall k, staging acc !! k
                          = match m !! k with
                            | Some _ => None
                            | None => staging r !! k
                            end)).
    - intros k. now rewrite lookup_empty.
    - intros shard source m acc Hm IH k. simpl.
      destruct (decide (shard = k)) as [->|Hne].
      + now rewrite lookup_delete_eq, lookup_insert_eq.
      + rewrite lookup_delete_ne, lookup_insert_ne by assumption. apply IH. }
  apply map_eq. intros k. rewrite H, lookup_empty.
  now destruct (staging r !! k).
Qed.

Lemma getHeadReference_content r content :
  HEAD r = Some content ->
  getHeadReference r
  = (Ok (if startsWith "ref:" (trim content)
         then HeadBranch (nth_error (split " " (trim content)) 1)
         else HeadCommit (trim content)), r).
Proof.
  intros H. unfold getHeadReference, bind, get. rewrite H.
  now destruct (startsWith "ref:" (trim content)).
Qed.

Lemma commit_run cwd msg r content es :
  size (staging r) <> 0 ->
  HEAD r = Some content ->
  tree_entries cwd EmptyString cwd = Ok es ->
  exists rw,
    staged_from (promote r) rw
    /\ let t := createShaHash (treeText (tree_body es)) in
       let text := commitText t (parent_of content) msg in
       let h := createShaHash text in
       commitStagedFiles cwd msg r
       = (Ok h,
          mkRepo (Some (h +:+ LF)) (heads r)
            (put h (deflateSync text) (objects rw)) ∅
            (WriteHead (h +:+ LF) :: WriteObject Permanent h (deflateSync text)
               :: WriteObject Staging t (deflateSync (treeText (tree_body es)))
               :: written rw)).
Proof.
  intros Hs Hh He.
  pose proof (writeTreeObject_result cwd EmptyString cwd (promote r)) as Hw.
  rewrite He in Hw. destruct Hw as (rw & Hrw & Hw). exists rw. split; [exact Hrw|].
  destruct (staged_from_refs _ _ Hrw) as [HH Hhd].
  destruct (promote_refs r) as (HpH & Hph & _).
  unfold commitStagedFiles. unfold bind at 1, get.
  destruct (decide (size (staging r) = 0)) as [|_]; [contradiction|].
  unfold bind at 1, modify. fold (promote r).
  unfold bind at 1. rewrite (getHeadReference_content _ content) by congruence.
  unfold bind at 1. rewrite Hw.
  assert (Hp : match (if startsWith "ref:" (trim content)
                      then HeadBranch (nth_error (split " " (trim content)) 1)
                      else HeadCommit (trim content)) with
               | HeadBranch _ => None
               | HeadCommit hash => Some hash
               end = parent_of content).
  { unfold parent_of. now destruct (startsWith "ref:" (trim content)). }
  rewrite Hp.
  unfold stageTreeObject, writeCommitObject, updateHeadToCommit, writeHead,
    writeObject, bind, modify, ret.
  cbn [HEAD heads objects staging written]. now rewrite Hhd, Hph.
Qed.

Lemma commit_inv cwd msg r h r' :
  commitStagedFiles cwd msg r = (Ok h, r') ->
  size (staging r) <> 0
  /\ exists content es,
       HEAD r = Some content /\ tree_entries cwd EmptyString cwd = Ok es.
Proof.
  unfold commitStagedFiles. unfold bind at 1, get.
  destruct (decide (size (staging r) = 0)) as [|Hs]; [discriminate|].
  intros H. split; [exact Hs|].
  unfold bind at 1, modify in H. fold (promote r) in H.
  unfold bind at 1 in H. destruct (promote_refs r) as (HpH & _ & _).
  destruct (HEAD r) as [content|] eqn:Hh.
  - exists content.
    pose proof (writeTreeObject_result cwd EmptyString cwd (promote r)) as Hw.
    destruct (tree_entries cwd EmptyString cwd) as [es|e]; [now exists es|].
    exfalso. rewrite (getHeadReference_content _ content) in H by congruence.
    unfold bind at 1 in H.
    destruct (writeTreeObject cwd EmptyString (Dir cwd) (promote r)) as [[t|e'] r1];
      simpl in Hw; [discriminate|discriminate].
  - exfalso. unfold getHeadReference, bind, get in H. rewrite HpH in H.
    discriminate.
Qed.

(** ** Commit on an empty staging partition *)

(** C7. With an empty staging partition [commitStagedFiles] stops with
    [NothingToCommit] and leaves the repository as it was: no object, no
    branch file and no [HEAD] is written, nothing is logged, and the
    staging partition is still empty. *)
Theorem commit_empty_staging cwd msg r :
  staging r = ∅ -> commitStagedFiles cwd msg r = (Err NothingToCommit, r).
Proof.
  intros H. unfold commitStagedFiles, bind, get.
  destruct (decide (size (staging r) = 0)) as [_|Hne]; [reflexivity|].
  exfalso. apply Hne. rewrite H. apply map_size_empty.
Qed.

Lemma commit_empty_staging_witness :
  staging fresh = ∅
  /\ commitStagedFiles work1 "first" fresh = (Err NothingToCommit, fresh).
Proof.
  split; [vm_compute; reflexivity|].
  apply (commit_empty_staging work1 "first" fresh). vm_compute. reflexivity.
Defined.

(** ** Branches *)

Lemma segment_inv (name : string) :
  segment name = true ->
  String.eqb name "" = false /\ String.eqb name "." = false
  /\ String.eqb name ".." = false /\ has_char "/" name = false.
Proof. unfold segment. rewrite !andb_true_iff, !negb_true_iff. tauto. Qed.

Lemma split_whole (sep : ascii) (s : string) :
  has_char sep s = false -> split sep s = [s].
Proof.
  induction s as [|c r IH]; [reflexivity|]. cbn [has_char split].
  intros [Hc Hr]%orb_false_iff. rewrite Ascii.eqb_sym, Hc, (IH Hr). reflexivity.
Qed.

Lemma endsWithSlash_none (p : string) :
  has_char "/" p = false -> endsWithSlash p = false.
Proof.
  induction p as [|c r IH]; [reflexivity|]. cbn [has_char].
  intros [Hc Hr]%orb_false_iff. cbn [endsWithSlash].
  destruct r; [now rewrite Ascii.eqb_sym|now apply IH].
Qed.

(** The path of a branch whose name is a single segment is the place of
    its file, and so is the ref [updateHeadToBranch] writes for it. *)
Lemma resolve_branch (name : string) :
  segment name = true -> resolve ["refs"; "heads"; name] = GitFile (BranchFile name).
Proof.
  intros (H0 & H1 & H2 & Hs)%segment_inv. unfold resolve.
  cbn [flat_map List.last app].
  change (split "/" "refs") with ["refs"]. change (split "/" "heads") with ["heads"].
  rewrite (split_whole _ _ Hs), (endsWithSlash_none _ Hs).
  cbn [app normalize]. change (String.eqb "refs" "") with false.
  change (String.eqb "refs" ".") with false. change (String.eqb "refs" "..") with false.
  change (String.eqb "heads" "") with false. change (String.eqb "heads" ".") with false.
  change (String.eqb "heads" "..") with false. cbn [orb].
  rewrite H0, H1, H2. reflexivity.
Qed.

Lemma split_ref (y : string) :
  split "/" ("refs/heads/" +:+ y) = "refs" :: "heads" :: split "/" y.
Proof.
  cbn [String.append split Ascii.eqb Bool.eqb].
  destruct (split "/" y) eqn:E; reflexivity.
Qed.


(** A ref below [refs/heads] without a further separator leads to the
    branch file of that name, or to a directory. *)
Lemma resolve_ref_flat (y : string) (f : gitFile) :
  has_char "/" y = false ->
  resolve ["refs/heads/" +:+ y] = GitFile f -> f = BranchFile y.
Proof.
  intros Hs. destruct y as [|c y']; [vm_compute; discriminate|].
  unfold resolve. cbn [flat_map List.last app]. rewrite app_nil_r, split_ref.
  rewrite (split_whole _ _ Hs).
  assert (endsWithSlash ("refs/heads/" +:+ String c y') = false) as ->
    by (now rewrite <- (endsWithSlash_none _ Hs)).
  cbn [normalize]. change (String.eqb "refs" "") with false.
  change (String.eqb "refs" ".") with false. change (String.eqb "refs" "..") with false.
  change (String.eqb "heads" "") with false. change (String.eqb "heads" ".") with false.
  change (String.eqb "heads" "..") with false. cbn [orb].
  destruct (String.eqb (String c y') "" || String.eqb (String c y') ".");
    [vm_compute; discriminate|].
  destruct (String.eqb (String c y') ".."); [vm_compute; discriminate|].
  vm_compute. now intros [= <-].
Qed.

(** How [createBranch] follows a ref to a file of [.customGit]. *)
Lemma follow_ref (f : gitFile) (r : repo) :
  (let! found := existsSync (GitFile f) in
   if found : bool
   then let! content := readFileGit (GitFile f) in ret (trim content)
   else throw UnresolvableHead) r
  = match readGitFile f r with
    | Some content => (Ok (trim content), r)
    | None => (Err UnresolvableHead, r)
    end.
Proof.
  unfold existsSync, readFileGit, get, bind.
  destruct (readGitFile f r) as [content|] eqn:E; cbn [ret]; [|reflexivity].
  now rewrite E.
Qed.

Lemma existsSync_state (p : place) (r : repo) (o : outcome bool) (r' : repo) :
  existsSync p r = (o, r') -> r' = r.
Proof.
  unfold existsSync. rewrite bind_get.
  destruct p as [|f|f depth| |]; try (now intros [= _ <-]).
Qed.

Lemma readFileGit_state (p : place) (r : repo) (o : outcome string) (r' : repo) :
  readFileGit p r = (o, r') -> r' = r.
Proof.
  unfold readFileGit. rewrite bind_get.
  destruct p as [|f|f depth| |]; try (now intros [= _ <-]);
    destruct (readGitFile f r); now intros [= _ <-].
Qed.

Lemma split_nonempty (sep : ascii) (s : string) : split sep s <> [].
Proof.
  destruct s as [|c r]; [discriminate|]. cbn [split].
  destruct (Ascii.eqb c sep); [discriminate|].
  destruct (split sep r); discriminate.
Qed.

Lemma heads_fresh :
  heads fresh = <["main" := "b69690aa846299e334dc4233bcaf5896e6d76e39" +:+ LF]> ∅.
Proof. vm_compute. reflexivity. Qed.






(** For a name that is a single segment the two operations look at the
    branch file of that name. *)
Lemma createBranch_segment (name : string) (r : repo) :
  segment name = true ->
  createBranch name r
  = match heads r !! name with
    | Some _ => (Err BranchExists, r)
    | None =>
        (let! head := getHeadReference in
         let! commitHash :=
           match head with
           | HeadCommit hash => ret hash
           | HeadBranch None => throw TypeError
           | HeadBranch (Some ref) =>
               let! found := existsSync (resolve [ref]) in
               if found : bool
               then let! content := readFileGit (resolve [ref]) in ret (trim content)
               else throw UnresolvableHead
           end in
         writeBranch name (commitHash +:+ LF) >>
         ret commitHash) r
    end.
Proof.
  intros Hseg. unfold createBranch. rewrite (resolve_branch name Hseg).
  unfold bind at 1, existsSync at 1. rewrite bind_get. cbn [readGitFile].
  destruct (heads r !! name); [reflexivity|]. cbn [ret].
  unfold bind, writeNewFile, get.
  destruct (getHeadReference r) as [[[[ref|]|hash]|e] r0]; cbn [ret throw];
    try reflexivity; [|now rewrite String.eqb_refl].
  destruct (existsSync (resolve [ref]) r0) as [[[|]|e] r1]; try reflexivity.
  destruct (readFileGit (resolve [ref]) r1) as [[content|e] r2]; [|reflexivity].
  now rewrite String.eqb_refl.
Qed.

Lemma checkoutBranch_segment (name : string) (r : repo) :
  segment name = true ->
  checkoutBranch name r
  = match heads r !! name with
    | None => (Err BranchNotFound, r)
    | Some _ =>
        (Ok tt,
         mkRepo (Some ("ref: refs/heads/" +:+ name +:+ LF)) (heads r)
           (objects r) (staging r)
           (WriteHead ("ref: refs/heads/" +:+ name +:+ LF) :: written r))
    end.
Proof.
  intros Hseg. unfold checkoutBranch. rewrite (resolve_branch name Hseg).
  unfold bind at 1, existsSync at 1. rewrite bind_get. cbn [readGitFile].
  destruct (heads r !! name) eqn:E; [|reflexivity]. cbn [ret negb].
  unfold updateHeadToBranch, writeHead, modify, readFileGit, get, bind.
  cbn [readGitFile heads]. now rewrite E.
Qed.







(** ** Commits and refs *)

Lemma stage_write_object r e : stage_write r e -> object_write e.
Proof. intros [(d & -> & _)|(d & -> & _)]; red; eauto. Qed.

(** C2, as the code has it. A successful commit writes the new commit
    hash into [HEAD] itself, whether [HEAD] was a symbolic pointer or a
    commit hash; no branch file changes, and apart from [HEAD] the commit
    only writes objects. *)
Theorem commit_overwrites_head cwd msg r h r' :
  commitStagedFiles cwd msg r = (Ok h, r') ->
  HEAD r' = Some (h +:+ LF)
  /\ heads r' = heads r
  /\ exists new,
       written r' = WriteHead (h +:+ LF) :: new ++ written r
       /\ Forall object_write new.
Proof.
  intros H. destruct (commit_inv _ _ _ _ _ H) as (Hs & content & es & Hh & He).
  destruct (commit_run cwd msg r content es Hs Hh He) as (rw & Hrw & Hrun).
  cbv zeta in Hrun. rewrite Hrun in H. injection H as <- <-.
  cbn [HEAD heads written]. split; [reflexivity|split; [reflexivity|]].
  destruct (staged_from_written _ _ Hrw) as (new & Hw & Hnew).
  destruct (promote_refs r) as (_ & _ & Hpw).
  eexists (_ :: _ :: new). rewrite Hw, Hpw. split; [reflexivity|].
  repeat constructor; try (red; eauto; fail).
  eapply Forall_impl; [exact Hnew|]. intros e. apply stage_write_object.
Qed.

Lemma commit_first :
  commitStagedFiles work1 "first" staged1
  = (Ok "356f50901c72c23c4b84c2b420d8f859d8d31992", snd (commitStagedFiles work1 "first" staged1)).
Proof. vm_compute. reflexivity. Qed.

Lemma commit_overwrites_head_witness :
  let r' := snd (commitStagedFiles work1 "first" staged1) in
  HEAD r' = Some ("356f50901c72c23c4b84c2b420d8f859d8d31992" +:+ LF)
  /\ heads r' = heads staged1
  /\ exists new,
       written r' = WriteHead ("356f50901c72c23c4b84c2b420d8f859d8d31992" +:+ LF) :: new ++ written staged1
       /\ Forall object_write new.
Proof. exact (commit_overwrites_head _ _ _ _ _ commit_first). Defined.

(** C2, as stated, fails on a fresh repository: [HEAD] names the branch
    [main], and after the commit the file of [main] still holds the
    initial commit while [HEAD] holds the new hash. *)
Lemma ref_advance_counterexample :
  let r' := snd (commitStagedFiles work1 "first" staged1) in
  fst (getHeadReference staged1) = Ok (HeadBranch (Some "refs/heads/main"))
  /\ fst (commitStagedFiles work1 "first" staged1)
     = Ok "356f50901c72c23c4b84c2b420d8f859d8d31992"
  /\ heads r' !! "main" = Some ("b69690aa846299e334dc4233bcaf5896e6d76e39" +:+ LF)
  /\ heads r' !! "main" <> Some ("356f50901c72c23c4b84c2b420d8f859d8d31992" +:+ LF)
  /\ HEAD r' = Some ("356f50901c72c23c4b84c2b420d8f859d8d31992" +:+ LF)
  /\ HEAD r' <> HEAD staged1.
Proof.
  intros r'.
  assert (Hm : heads r' !! "main"
               = Some ("b69690aa846299e334dc4233bcaf5896e6d76e39" +:+ LF))
    by (vm_compute; reflexivity).
  assert (Hh : HEAD r' = Some ("356f50901c72c23c4b84c2b420d8f859d8d31992" +:+ LF))
    by (vm_compute; reflexivity).
  assert (Hs : HEAD staged1 = Some ("ref: refs/heads/main" +:+ LF))
    by (vm_compute; reflexivity).
  repeat split; try assumption; try (vm_compute; reflexivity).
  - rewrite Hm. discriminate.
  - rewrite Hh, Hs. discriminate.
Qed.

Lemma parent_of_hash (h : string) :
  all_hex h = true -> h <> "" -> parent_of (h +:+ LF) = Some h.
Proof.
  intros Hh Hne. unfold parent_of.
  now rewrite (trim_hash h Hh), (startsWith_ref_hex h Hh).
Qed.

Lemma commitText_parent t h msg :
  h <> "" ->
  commitText t (Some h) msg
  = "tree " +:+ t +:+ LF +:+ "parent " +:+ h +:+ LF +:+ LF +:+ msg +:+ LF.
Proof.
  intros Hne. unfold commitText, truthy.
  destruct (String.eqb_spec h ""); [contradiction|].
  cbn [negb default]. now rewrite !append_assoc.
Qed.

Lemma commitText_root t msg :
  commitText t None msg = "tree " +:+ t +:+ LF +:+ LF +:+ msg +:+ LF.
Proof. unfold commitText, truthy. now rewrite !append_assoc. Qed.

Lemma stageWorkingTree_within cwd : within staged_from (stageWorkingTree cwd).
Proof.
  pose proof sf_refl as Hr. pose proof staged_from_trans as Ht.
  unfold stageWorkingTree.
  apply within_bind; try assumption; [apply writeTreeObject_within|].
  intros t. apply within_bind; try assumption; [|intros a; now apply within_ret].
  unfold readTreeObject, readObject.
  apply within_bind; try assumption; [|intros a; now apply within_ret].
  apply within_bind; try assumption; [now apply within_get|].
  intros r0. destruct (lookup_object _ _);
    [now apply within_ret|now apply within_throw].
Qed.

Lemma commit_second :
  commitStagedFiles work2 "second" staged2
  = (Ok "5c3f94c16e6d512524d0c0a4ac52114c12bca991",
     snd (commitStagedFiles work2 "second" staged2)).
Proof. vm_compute. reflexivity. Qed.

Lemma commit_stores cwd msg r h r' :
  commitStagedFiles cwd msg r = (Ok h, r') ->
  exists content t,
    HEAD r = Some content
    /\ h = createShaHash (commitText t (parent_of content) msg)
    /\ lookup_object (objects r') h
       = Some (deflateSync (commitText t (parent_of content) msg)).
Proof.
  intros H. destruct (commit_inv _ _ _ _ _ H) as (Hs & content & es & Hh & He).
  destruct (commit_run cwd msg r content es Hs Hh He) as (rw & Hrw & Hrun).
  cbv zeta in Hrun. rewrite Hrun in H. injection H as <- <-.
  exists content, (createShaHash (treeText (tree_body es))).
  split; [exact Hh|split; [reflexivity|]]. cbn [objects]. apply lookup_put_eq.
Qed.

Lemma commit_head cwd msg r h r' :
  commitStagedFiles cwd msg r = (Ok h, r') ->
  HEAD r' = Some (h +:+ LF) /\ heads r' = heads r /\ staging r' = ∅
  /\ all_hex h = true.
Proof.
  intros H. destruct (commit_inv _ _ _ _ _ H) as (Hs & content & es & Hh & He).
  destruct (commit_run cwd msg r content es Hs Hh He) as (rw & Hrw & Hrun).
  cbv zeta in Hrun. rewrite Hrun in H. injection H as <- <-.
  cbn [HEAD heads staging]. repeat split. apply createShaHash_hex.
Qed.

(** C3, as the code has it. Of two commits in succession, with [HEAD]
    left as the first commit wrote it, the second commit object carries
    the hash of the first in its parent line; a commit made while [HEAD]
    names a branch that has no branch file, so that no commit went
    before, produces a commit object without a parent line. *)
Theorem parent_chaining :
  (forall cwd1 msg1 r h1 r1 r1' cwd2 msg2 h2 r2,
      commitStagedFiles cwd1 msg1 r = (Ok h1, r1) ->
      HEAD r1' = HEAD r1 ->
      commitStagedFiles cwd2 msg2 r1' = (Ok h2, r2) ->
      exists t,
        lookup_object (objects r2) h2
        = Some (deflateSync
                  ("tree " +:+ t +:+ LF +:+ "parent " +:+ h1 +:+ LF
                   +:+ LF +:+ msg2 +:+ LF)))
  /\ (forall r b cwd msg h r',
         HEAD r = Some ("ref: refs/heads/" +:+ b +:+ LF) ->
         heads r !! b = None ->
         commitStagedFiles cwd msg r = (Ok h, r') ->
         exists t,
           lookup_object (objects r') h
           = Some (deflateSync ("tree " +:+ t +:+ LF +:+ LF +:+ msg +:+ LF))).
Proof.
  split.
  - intros cwd1 msg1 r h1 r1 r1' cwd2 msg2 h2 r2 H1 Hhead H2.
    destruct (commit_head _ _ _ _ _ H1) as (HH1 & _ & _ & Hhex).
    destruct (commit_stores _ _ _ _ _ H1) as (c1 & t1 & _ & Hh1 & _).
    destruct (commit_stores _ _ _ _ _ H2) as (c2 & t2 & Hc2 & _ & Hl).
    assert (c2 = h1 +:+ LF) as -> by congruence.
    assert (Hne : h1 <> "") by (rewrite Hh1; apply createShaHash_nonempty).
    rewrite (parent_of_hash h1 Hhex Hne), (commitText_parent _ _ _ Hne) in Hl.
    now exists t2.
  - intros r b cwd msg h r' Hh _ H.
    destruct (commit_stores _ _ _ _ _ H) as (c & t & Hc & _ & Hl).
    assert (c = "ref: refs/heads/" +:+ b +:+ LF) as -> by congruence.
    unfold parent_of in Hl. rewrite trim_symbolic, commitText_root in Hl.
    now exists t.
Qed.

Lemma parent_chaining_witness :
  (exists t,
      lookup_object (objects (snd (commitStagedFiles work2 "second" staged2)))
        "5c3f94c16e6d512524d0c0a4ac52114c12bca991"
      = Some (deflateSync
                ("tree " +:+ t +:+ LF +:+ "parent "
                 +:+ "356f50901c72c23c4b84c2b420d8f859d8d31992" +:+ LF
                 +:+ LF +:+ "second" +:+ LF)))
  /\ (exists t,
         lookup_object (objects (snd (commitStagedFiles work1 "first" orphan)))
           "356f50901c72c23c4b84c2b420d8f859d8d31992"
         = Some (deflateSync ("tree " +:+ t +:+ LF +:+ LF +:+ "first" +:+ LF))).
Proof.
  split.
  - refine (proj1 parent_chaining work1 "first" staged1 _ committed1 staged2
              work2 "second" _ _ commit_first _ commit_second).
    vm_compute. reflexivity.
  - refine (proj2 parent_chaining orphan "main" work1 "first" _
              (snd (commitStagedFiles work1 "first" orphan)) _ _ _);
      vm_compute; reflexivity.
Defined.

(** C3, as stated, fails for two commits on the branch [main]: after the
    commit "first" [main] is checked out again, the file is edited and
    staged, and "second" is committed. [HEAD] names [main] before both
    commits, and the commit object of the second has no parent line: the
    hash of the first is nowhere in it. *)
Lemma parent_chaining_counterexample :
  fst (getHeadReference staged1) = Ok (HeadBranch (Some "refs/heads/main"))
  /\ fst (commitStagedFiles work1 "first" staged1)
     = Ok "356f50901c72c23c4b84c2b420d8f859d8d31992"
  /\ fst (checkoutBranch "main" committed1) = Ok tt
  /\ fst (getHeadReference onMain2) = Ok (HeadBranch (Some "refs/heads/main"))
  /\ fst (commitStagedFiles work2 "second" onMain2)
     = Ok "e7d14dc8c7c7d92a49642a33e0ff79d8948ba0e8"
  /\ lookup_object (objects (snd (commitStagedFiles work2 "second" onMain2)))
       "e7d14dc8c7c7d92a49642a33e0ff79d8948ba0e8"
     = Some (deflateSync
               ("tree 8fb0e33e69bc3b519573c3965c30b61bd19d4b77" +:+ LF
                +:+ LF +:+ "second" +:+ LF))
  /\ forall t,
       lookup_object (objects (snd (commitStagedFiles work2 "second" onMain2)))
         "e7d14dc8c7c7d92a49642a33e0ff79d8948ba0e8"
       <> Some (deflateSync
                  ("tree " +:+ t +:+ LF +:+ "parent "
                   +:+ "356f50901c72c23c4b84c2b420d8f859d8d31992" +:+ LF
                   +:+ LF +:+ "second" +:+ LF)).
Proof.
  assert (Hl : lookup_object
                 (objects (snd (commitStagedFiles work2 "second" onMain2)))
                 "e7d14dc8c7c7d92a49642a33e0ff79d8948ba0e8"
               = Some (deflateSync
                         ("tree 8fb0e33e69bc3b519573c3965c30b61bd19d4b77" +:+ LF
                          +:+ LF +:+ "second" +:+ LF)))
    by (vm_compute; reflexivity).
  repeat (split; [vm_compute; reflexivity|]).
  intros t. rewrite Hl. intros [= H]. apply (f_equal String.length) in H.
  rewrite !length_append in H. cbn [String.length LF] in H. lia.
Qed.

(** ** Staging *)

(** [stage] succeeds where the ignore file can be read, and returns the
    hash of the Tree object of the working directory. *)
Lemma stageWorkingTree_run cwd r es :
  tree_entries cwd EmptyString cwd = Ok es ->
  exists rw,
    staged_from r rw
    /\ stageWorkingTree cwd r
       = (Ok (createShaHash (treeText (tree_body es))),
          snd (stageTreeObject (createShaHash (treeText (tree_body es)))
                 (deflateSync (treeText (tree_body es))) rw)).
Proof.
  intros He. pose proof (writeTreeObject_result cwd EmptyString cwd r) as Hw.
  rewrite He in Hw. destruct Hw as (rw & Hrw & Hw). exists rw. split; [exact Hrw|].
  unfold stageWorkingTree, bind at 1. rewrite Hw.
  unfold stageTreeObject at 1, bind at 1, modify, ret.
  unfold bind at 1, readTreeObject, bind at 1, readObject. rewrite bind_get.
  cbn [part staging]. now rewrite lookup_put_eq.
Qed.

Lemma stageWorkingTree_inv cwd r t :
  fst (stageWorkingTree cwd r) = Ok t ->
  exists es, tree_entries cwd EmptyString cwd = Ok es.
Proof.
  pose proof (writeTreeObject_result cwd EmptyString cwd r) as Hw.
  destruct (tree_entries cwd EmptyString cwd) as [es|e]; [now exists es|].
  unfold stageWorkingTree, bind at 1.
  destruct (writeTreeObject cwd EmptyString (Dir cwd) r) as [[t'|e'] r1];
    cbn [fst] in *; discriminate.
Qed.

(** C1, as the code has it. Every object [stage] writes is either a Tree,
    written to the staging partition and found there afterwards, or a
    Blob, written to the permanent partition and found there afterwards.
    The permanent partition is changed only where a Blob now lies, the
    staging partition only where a Tree now lies, and after a successful
    [stage] the Tree of the working directory lies in staging. *)
Theorem stage_partitions cwd r :
  let r' := snd (stageWorkingTree cwd r) in
  (exists new, written r' = new ++ written r /\ Forall (stage_write r') new)
  /\ (forall h, lookup_object (objects r') h = lookup_object (objects r) h
                \/ holds_blob r' h)
  /\ (forall h, lookup_object (staging r') h = lookup_object (staging r) h
                \/ holds_tree r' h)
  /\ (forall t, fst (stageWorkingTree cwd r) = Ok t -> holds_tree r' t).
Proof.
  intros r'.
  pose proof (stageWorkingTree_within cwd r _ _ (surjective_pairing _)) as Hw.
  fold r' in Hw.
  split; [now apply staged_from_written|].
  destruct (staged_from_partitions _ _ Hw) as [Ho Hs].
  split; [exact Ho|split; [exact Hs|]].
  intros t Ht. destruct (stageWorkingTree_inv _ _ _ Ht) as [es He].
  destruct (stageWorkingTree_run cwd r es He) as (rw & _ & Hrun).
  subst r'. rewrite Hrun in Ht |- *. cbn [fst snd] in *. injection Ht as <-.
  exists (tree_body es). split; [reflexivity|]. cbn [staging]. apply lookup_put_eq.
Qed.

(** C1, as stated, fails: [stage] in [work1] writes the Blob of [a.txt]
    straight to the permanent partition, where it was not before and
    where it can be read although no commit has run; it is not in the
    staging partition. *)
Lemma staging_isolation_counterexample :
  written staged1
  = [WriteObject Staging "b51045445088336e2c77fee3437e4d65ab441906"
       (deflateSync
          (treeText
             (entryText "100644" "a.txt"
                "56a6051ca2b02b04ef92d5150c9ef600403cb1de")));
     WriteObject Permanent "56a6051ca2b02b04ef92d5150c9ef600403cb1de"
       (deflateSync (blobText "1"))]
    ++ written fresh
  /\ lookup_object (objects fresh) "56a6051ca2b02b04ef92d5150c9ef600403cb1de" = None
  /\ lookup_object (objects staged1) "56a6051ca2b02b04ef92d5150c9ef600403cb1de"
     = Some (deflateSync (blobText "1"))
  /\ lookup_object (staging staged1) "56a6051ca2b02b04ef92d5150c9ef600403cb1de"
     = None.
Proof. repeat split; vm_compute; reflexivity. Qed.

(** ** The tree a commit records *)

(** C10 fails where the working directory changed between [stage] and
    [commit]: the commit object records the tree of the directory as it is
    now, which the commit wrote to staging only and then removed with the
    staging directory; the tree promoted earlier is the staged one. *)
Lemma commit_tree_missing :
  let r' := snd (commitStagedFiles work2 "second" staged1) in
  fst (stageWorkingTree work1 fresh) = Ok "b51045445088336e2c77fee3437e4d65ab441906"
  /\ fst (commitStagedFiles work2 "second" staged1)
     = Ok "e7d14dc8c7c7d92a49642a33e0ff79d8948ba0e8"
  /\ lookup_object (objects r') "e7d14dc8c7c7d92a49642a33e0ff79d8948ba0e8"
     = Some (deflateSync
               ("tree 8fb0e33e69bc3b519573c3965c30b61bd19d4b77" +:+ LF
                +:+ LF +:+ "second" +:+ LF))
  /\ lookup_object (objects r') "8fb0e33e69bc3b519573c3965c30b61bd19d4b77" = None
  /\ lookup_object (staging r') "8fb0e33e69bc3b519573c3965c30b61bd19d4b77" = None
  /\ is_Some (lookup_object (objects r') "b51045445088336e2c77fee3437e4d65ab441906").
Proof. repeat split; try (vm_compute; reflexivity). vm_compute. eauto. Qed.

Lemma move_files (source destination : gmap string buffer) :
  map_fold (fun file b dst => <[file := b]> dst) destination source
  = source ∪ destination.
Proof.
  apply (map_fold_weak_ind
           (fun acc (m : gmap string buffer) => acc = m ∪ destination)).
  - now rewrite (left_id ∅ (∪)).
  - intros file b m acc _ ->. now rewrite insert_union_l.
Qed.

(** The promotion loop merges every staged shard into the shard of the
    same name, staged files first. *)
Lemma promote_objects r d :
  objects (promote r) !! d
  = match staging r !! d with
    | Some source => Some (source ∪ default ∅ (objects r !! d))
    | None => objects r !! d
    end.
Proof.
  unfold promote. revert d.
  apply (map_fold_weak_ind
           (fun acc (m : gmap string (gmap string buffer)) =>
              forall d, objects acc !! d
                        = match m !! d with
                          | Some source =>
                              Some (source ∪ default ∅ (objects r !! d))
                          | None => objects r !! d
                          end)).
  - intros d. now rewrite lookup_empty.
  - intros shard source m acc Hm IH d. cbn [moveDirectory objects].
    destruct (decide (shard = d)) as [<-|Hne].
    + rewrite !lookup_insert_eq, move_files.
      specialize (IH shard). rewrite Hm in IH. now rewrite IH.
    + rewrite !lookup_insert_ne by assumption. apply IH.
Qed.

Lemma promote_lookup r h b :
  lookup_object (staging r) h = Some b ->
  lookup_object (objects (promote r)) h = Some b.
Proof.
  unfold lookup_object. rewrite promote_objects.
  destruct (staging r !! slice_to 2 h) as [source|]; [|discriminate].
  cbn [mbind option_bind]. intros H. now apply lookup_union_Some_l.
Qed.

(** Where the tree of the working directory is the one that was staged,
    the commit does record a tree of the permanent partition. *)
Lemma commit_tree_present cwd msg r h r' es :
  commitStagedFiles cwd msg r = (Ok h, r') ->
  tree_entries cwd EmptyString cwd = Ok es ->
  is_Some (lookup_object (staging r) (createShaHash (treeText (tree_body es)))) ->
  is_Some (lookup_object (objects r') (createShaHash (treeText (tree_body es)))).
Proof.
  intros H He [b Hb].
  destruct (commit_inv _ _ _ _ _ H) as (Hs & content & es' & Hh & He').
  assert (es' = es) as -> by congruence.
  destruct (commit_run cwd msg r content es Hs Hh He) as (rw & Hrw & Hrun).
  cbv zeta in Hrun. rewrite Hrun in H. injection H as <- <-. cbn [objects].
  set (t := createShaHash (treeText (tree_body es))) in *.
  assert (Hrwt : is_Some (lookup_object (objects rw) t)).
  { destruct (proj1 (staged_from_partitions _ _ Hrw) t) as [E|(d & _ & E)].
    - rewrite E, (promote_lookup r t b Hb). eauto.
    - rewrite E. eauto. }
  destruct (decide (createShaHash (commitText t (parent_of content) msg) = t))
    as [E|E].
  - rewrite E at 1. rewrite lookup_put_eq. eauto.
  - now rewrite lookup_put_ne.
Qed.

(** ** The tree differ *)

(** C4 fails where only a child hash differs: the two trees list [a.txt]
    with the Blobs of "1" and of "2", and [compareTreeObjects] prints
    nothing. The map [parseTreeObject] builds holds for each name the
    field in front of it, the mode; the hash behind the name is left to
    the next piece of the split, and that of the last entry is dropped. *)
Lemma compare_misses_changed_hash :
  lookup_object (staging staged12) "b51045445088336e2c77fee3437e4d65ab441906"
  = Some (deflateSync
            (treeText
               (entryText "100644" "a.txt"
                  "56a6051ca2b02b04ef92d5150c9ef600403cb1de")))
  /\ lookup_object (staging staged12) "8fb0e33e69bc3b519573c3965c30b61bd19d4b77"
     = Some (deflateSync
               (treeText
                  (entryText "100644" "a.txt"
                     "d8263ee9860594d2806b0dfd1bfd17528b0ba2a4")))
  /\ fst (parseTreeObject true "b51045445088336e2c77fee3437e4d65ab441906" staged12)
     = Ok [(Some "a.txt", "100644")]
  /\ fst (parseTreeObject true "8fb0e33e69bc3b519573c3965c30b61bd19d4b77" staged12)
     = Ok [(Some "a.txt", "100644")]
  /\ fst (compareTreeObjects "b51045445088336e2c77fee3437e4d65ab441906"
            "8fb0e33e69bc3b519573c3965c30b61bd19d4b77" true staged12)
     = Ok [].
Proof. repeat split; vm_compute; reflexivity. Qed.

(** ** Content addressing *)

Lemma writeBlobObject_run mode fileData r :
  writeBlobObject (File mode fileData) r
  = (Ok (createShaHash (blobText fileData)),
     mkRepo (HEAD r) (heads r)
       (put (createShaHash (blobText fileData)) (deflateSync (blobText fileData))
          (objects r))
       (staging r)
       (WriteObject Permanent (createShaHash (blobText fileData))
          (deflateSync (blobText fileData)) :: written r)).
Proof. reflexivity. Qed.

Lemma writeTreeObject_hash cwd directory files es r :
  tree_entries cwd directory files = Ok es ->
  fst (writeTreeObject cwd directory (Dir files) r)
  = Ok (createShaHash (treeText (tree_body es)))
  /\ lookup_object (staging (snd (writeTreeObject cwd directory (Dir files) r)))
       (createShaHash (treeText (tree_body es)))
     = Some (deflateSync (treeText (tree_body es))).
Proof.
  intros He. pose proof (writeTreeObject_result cwd directory files r) as Hw.
  rewrite He in Hw. destruct Hw as (rw & _ & ->).
  split; [reflexivity|]. cbn [stageTreeObject]. apply lookup_put_eq.
Qed.

(** C6, as the code has it. Files with the same bytes get the same Blob
    hash, whatever their mode and whatever the repository holds; and two
    directories whose entries that are not ignored have, in the order in
    which they are appended, the same names, modes and child hashes get
    the same Tree hash. *)
Theorem content_addressing :
  (forall mode1 mode2 fileData r1 r2,
      fst (writeBlobObject (File mode1 fileData) r1)
      = fst (writeBlobObject (File mode2 fileData) r2))
  /\ (forall cwd1 cwd2 directory1 directory2 files1 files2 es r1 r2,
         tree_entries cwd1 directory1 files1 = Ok es ->
         tree_entries cwd2 directory2 files2 = Ok es ->
         fst (writeTreeObject cwd1 directory1 (Dir files1) r1)
         = fst (writeTreeObject cwd2 directory2 (Dir files2) r2)).
Proof.
  split.
  - intros. now rewrite !writeBlobObject_run.
  - intros cwd1 cwd2 d1 d2 files1 files2 es r1 r2 H1 H2.
    destruct (writeTreeObject_hash cwd1 d1 files1 es r1 H1) as [-> _].
    destruct (writeTreeObject_hash cwd2 d2 files2 es r2 H2) as [-> _].
    reflexivity.
Qed.

Lemma content_addressing_witness :
  fst (writeTreeObject sameA "" (Dir sameA) emptyRepo)
  = fst (writeTreeObject sameB "" (Dir sameB) fresh).
Proof.
  apply (proj2 content_addressing sameA sameB "" "" sameA sameB
           [("100644", "a", "c1b0730e0133447badcfd47fd144e254807b06e1")]);
    vm_compute; reflexivity.
Defined.

(** C6, as stated, fails: the two directories hold the same entries, with
    the same modes and child hashes, appended in the two orders, and get
    different Tree hashes. *)
Lemma tree_order_counterexample :
  Permutation orderAB orderBA
  /\ tree_entries orderAB "" orderAB
     = Ok [("100644", "a", "c1b0730e0133447badcfd47fd144e254807b06e1");
           ("100644", "b", "e25f1814e51579d5f55c0f1fe0135ddb28a47f4a")]
  /\ tree_entries orderBA "" orderBA
     = Ok [("100644", "b", "e25f1814e51579d5f55c0f1fe0135ddb28a47f4a");
           ("100644", "a", "c1b0730e0133447badcfd47fd144e254807b06e1")]
  /\ fst (writeTreeObject orderAB "" (Dir orderAB) emptyRepo)
     = Ok "4945d676037ade67502235f76f904f3fcd70e128"
  /\ fst (writeTreeObject orderBA "" (Dir orderBA) emptyRepo)
     = Ok "71f4fee6e570fe0b713e6f54bd60d448c139705a"
  /\ fst (writeTreeObject orderAB "" (Dir orderAB) emptyRepo)
     <> fst (writeTreeObject orderBA "" (Dir orderBA) emptyRepo).
Proof.
  assert (HA : fst (writeTreeObject orderAB "" (Dir orderAB) emptyRepo)
               = Ok "4945d676037ade67502235f76f904f3fcd70e128")
    by (vm_compute; reflexivity).
  assert (HB : fst (writeTreeObject orderBA "" (Dir orderBA) emptyRepo)
               = Ok "71f4fee6e570fe0b713e6f54bd60d448c139705a")
    by (vm_compute; reflexivity).
  split; [apply perm_swap|].
  repeat split; try assumption; try (vm_compute; reflexivity).
  rewrite HA, HB. discriminate.
Qed.

(** ** Serialisation *)

Lemma getGitMode_ascii child : ascii_only (getGitMode (statSync child)) = true.
Proof.
  destruct child as [m d|sub|]; try reflexivity.
  unfold getGitMode. cbn [statSync isDirectory isSymbolicLink st_mode].
  now destruct (N.land m 64 =? 0)%N.
Qed.

Lemma object_hash_hex cwd path child h :
  object_hash cwd path child = Ok h -> all_hex h = true.
Proof.
  destruct child as [m d|sub|]; cbn [object_hash].
  - intros [= <-]. apply createShaHash_hex.
  - pose proof (writeTreeObject_result cwd path sub emptyRepo) as Hw.
    destruct (tree_entries cwd path sub) as [es|e].
    + destruct Hw as (rw & _ & ->). intros [= <-]. apply createShaHash_hex.
    + rewrite Hw. discriminate.
  - discriminate.
Qed.

(** Modes and child hashes of a Tree are ASCII. *)
Lemma tree_entries_wf cwd directory files :
  forall es,
    tree_entries cwd directory files = Ok es ->
    Forall (fun e => ascii_only (fst (fst e)) = true /\ all_hex (snd e) = true) es.
Proof.
  induction files as [|[file child] rest IH]; intros es; cbn [tree_entries].
  - intros [= <-]. constructor.
  - destruct (shouldIgnore cwd (pathJoin directory file)) as [[|]|e];
      [apply IH| |discriminate].
    assert (Hgen :
      match object_hash cwd (pathJoin directory file) child with
      | Ok h =>
          match tree_entries cwd directory rest with
          | Ok es0 => Ok ((getGitMode (statSync child), file, h) :: es0)
          | Err e => Err e
          end
      | Err e => Err e
      end = Ok es ->
      Forall (fun e => ascii_only (fst (fst e)) = true /\ all_hex (snd e) = true) es).
    { destruct (object_hash cwd (pathJoin directory file) child) as [h|e] eqn:Eh;
        [|discriminate].
      destruct (tree_entries cwd directory rest) as [es0|e]; [|discriminate].
      intros [= <-]. constructor; [|now apply IH].
      split; [apply getGitMode_ascii|]. cbn [snd].
      eapply object_hash_hex, Eh. }
    destruct child as [m d|sub|]; [exact Hgen|exact Hgen|apply IH].
Qed.

Lemma tree_body_cons mode name h es :
  tree_body ((mode, name, h) :: es) = entryText mode name h +:+ tree_body es.
Proof. reflexivity. Qed.

Lemma tree_body_ascii es :
  Forall (fun e => ascii_only (fst (fst e)) = true /\ all_hex (snd e) = true) es ->
  Forall (fun e => ascii_only (snd (fst e)) = true) es ->
  ascii_only (tree_body es) = true.
Proof.
  induction 1 as [|[[mode name] h] es [Hm Hh] _ IH]; [reflexivity|].
  intros Hn. apply Forall_cons in Hn as [Hn Hrest]. cbn [fst snd] in *.
  rewrite tree_body_cons. unfold entryText.
  rewrite !ascii_only_app, Hm, Hn, (all_hex_ascii _ Hh), (IH Hrest).
  reflexivity.
Qed.

Lemma writeCommitObject_run treeHash parentHash msg r :
  writeCommitObject treeHash parentHash msg r
  = (Ok (createShaHash (commitText treeHash parentHash msg)),
     mkRepo (HEAD r) (heads r)
       (put (createShaHash (commitText treeHash parentHash msg))
          (deflateSync (commitText treeHash parentHash msg)) (objects r))
       (staging r)
       (WriteObject Permanent (createShaHash (commitText treeHash parentHash msg))
          (deflateSync (commitText treeHash parentHash msg)) :: written r)).
Proof. reflexivity. Qed.

Lemma commitText_eq treeHash parentHash msg :
  commitText treeHash parentHash msg
  = "tree " +:+ treeHash +:+ LF
    +:+ match parentHash with
        | Some p => if String.eqb p "" then "" else "parent " +:+ p +:+ LF
        | None => ""
        end
    +:+ LF +:+ msg +:+ LF.
Proof.
  unfold commitText, truthy. rewrite !append_assoc.
  destruct parentHash as [p|]; [|reflexivity].
  now destruct (String.eqb p "").
Qed.

(** Text in well-formed UTF-8 is what [toString] makes of its bytes. *)
Lemma decode_wellFormed (s : string) :
  (wellFormed None s = true -> decode None s = s)
  /\ (forall need lo hi seen,
         wellFormed (Some (need, lo, hi)) s = true ->
         decode (Some (need, lo, hi, seen)) s = seen +:+ s).
Proof.
  induction s as [|c r [IH1 IH2]]; (split; [|intros need lo hi seen]);
    cbn [wellFormed decode]; try discriminate; try reflexivity.
  - destruct (classify (N_of_ascii c)) as [|need lo hi|]; [| |discriminate].
    + intros H. now rewrite (IH1 H).
    + intros H. now rewrite (IH2 _ _ _ _ H).
  - destruct ((lo <=? N_of_ascii c)%N && (N_of_ascii c <=? hi)%N);
      [|discriminate]. cbn [andb].
    destruct need as [|need']; intros H.
    + now rewrite (IH1 H).
    + now rewrite (IH2 _ _ _ _ H), append_assoc.
Qed.

Lemma toString_utf8 (s : string) : utf8 s = true -> toString s = s.
Proof. apply decode_wellFormed. Qed.

(** A file that is not well-formed UTF-8 is not stored byte for byte: the
    one byte [ff] becomes the three bytes of U+FFFD, behind a header that
    still gives the length 1. *)
Example blob_ill_formed :
  blobText (String "255" "")
  = "blob 1" +:+ NUL +:+ String "239" (String "191" (String "189" "")).
Proof. reflexivity. Qed.

(** C5, as the code has it. The Blob of a file that holds well-formed
    UTF-8 is stored as ["blob <n>\0<bytes>"] with [n] the byte length of
    the file; a Tree as ["tree <n>\0<body>"] with [n] the [length] of the
    body as a JavaScript string, which is its byte length where the
    names are ASCII, and with the body the concatenation of the entries
    ["<mode> <name>\0<hash>"] in the order in which the program appends
    them; a Commit as ["tree <hash>\n[parent <hash>\n]\n<message>\n"]
    with no header. Each is stored under the SHA-1 digest of exactly
    that text. *)
Theorem serialization :
  (forall mode fileData r,
      utf8 fileData = true ->
      let s := "blob " +:+ dec (String.length fileData) +:+ NUL +:+ fileData in
      fst (writeBlobObject (File mode fileData) r) = Ok (createShaHash s)
      /\ lookup_object (objects (snd (writeBlobObject (File mode fileData) r)))
           (createShaHash s)
         = Some (deflateSync s))
  /\ (forall cwd directory files es r,
         tree_entries cwd directory files = Ok es ->
         let body := tree_body es in
         let s := "tree " +:+ dec (js_length body) +:+ NUL +:+ body in
         fst (writeTreeObject cwd directory (Dir files) r) = Ok (createShaHash s)
         /\ lookup_object
              (staging (snd (writeTreeObject cwd directory (Dir files) r)))
              (createShaHash s)
            = Some (deflateSync s)
         /\ (Forall (fun e => ascii_only (snd (fst e)) = true) es ->
             js_length body = String.length body))
  /\ (tree_body [] = ""
      /\ forall mode name h es,
           tree_body ((mode, name, h) :: es)
           = mode +:+ " " +:+ name +:+ NUL +:+ h +:+ tree_body es)
  /\ (forall treeHash parentHash msg r,
         let s := "tree " +:+ treeHash +:+ LF
                  +:+ match parentHash with
                      | Some p =>
                          if String.eqb p "" then "" else "parent " +:+ p +:+ LF
                      | None => ""
                      end
                  +:+ LF +:+ msg +:+ LF in
         fst (writeCommitObject treeHash parentHash msg r) = Ok (createShaHash s)
         /\ lookup_object
              (objects (snd (writeCommitObject treeHash parentHash msg r)))
              (createShaHash s)
            = Some (deflateSync s)).
Proof.
  split; [|split; [|split]].
  - intros mode fileData r Hu s. rewrite writeBlobObject_run.
    cbn [fst snd objects]. unfold blobText. rewrite (toString_utf8 _ Hu).
    split; [reflexivity|apply lookup_put_eq].
  - intros cwd directory files es r He body s.
    destruct (writeTreeObject_hash cwd directory files es r He) as [H1 H2].
    split; [exact H1|split; [exact H2|]].
    intros Hn. apply js_length_ascii, tree_body_ascii; [|exact Hn].
    eapply tree_entries_wf, He.
  - split; [reflexivity|]. intros mode name h es.
    rewrite tree_body_cons. unfold entryText. now rewrite !append_assoc.
  - intros treeHash parentHash msg r s. rewrite writeCommitObject_run.
    cbn [fst snd objects]. subst s. rewrite <- commitText_eq.
    split; [reflexivity|apply lookup_put_eq].
Qed.

(** The two objects [init] writes follow the same contract: the empty
    Tree with its header, the initial Commit without one. *)
Lemma initialise_written :
  written fresh
  = [WriteHead ("ref: refs/heads/main" +:+ LF);
     WriteBranch "main"
       (createShaHash
          (commitText (createShaHash (treeText "")) None "Initial commit") +:+ LF);
     WriteObject Permanent
       (createShaHash
          (commitText (createShaHash (treeText "")) None "Initial commit"))
       (deflateSync
          (commitText (createShaHash (treeText "")) None "Initial commit"));
     WriteObject Permanent (createShaHash (treeText ""))
       (deflateSync (treeText ""))].
Proof. vm_compute. reflexivity. Qed.

Lemma serialization_witness :
  let body :=
    tree_body [("100644", "a", "c1b0730e0133447badcfd47fd144e254807b06e1");
               ("100644", "b", "e25f1814e51579d5f55c0f1fe0135ddb28a47f4a")] in
  fst (writeBlobObject (File 33188 "x") emptyRepo)
  = Ok (createShaHash ("blob " +:+ dec 1 +:+ NUL +:+ "x"))
  /\ fst (writeTreeObject orderAB "" (Dir orderAB) emptyRepo)
     = Ok (createShaHash ("tree " +:+ dec (js_length body) +:+ NUL +:+ body))
  /\ js_length body = String.length body.
Proof.
  intros body.
  split; [exact (proj1 (proj1 serialization 33188%N "x" emptyRepo eq_refl))|].
  destruct (proj1 (proj2 serialization) orderAB "" orderAB
              [("100644", "a", "c1b0730e0133447badcfd47fd144e254807b06e1");
               ("100644", "b", "e25f1814e51579d5f55c0f1fe0135ddb28a47f4a")]
              emptyRepo ltac:(vm_compute; reflexivity)) as (H1 & _ & H3).
  split; [exact H1|]. apply H3. repeat constructor.
Defined.

(** C5, as stated, fails for Commit objects: the text stored for the
    commit "first", whose digest is the commit hash, has no header; it
    holds no NUL at all. *)
Lemma commit_header_counterexample :
  let s := "tree b51045445088336e2c77fee3437e4d65ab441906" +:+ LF +:+ LF
           +:+ "first" +:+ LF in
  fst (commitStagedFiles work1 "first" staged1)
  = Ok "356f50901c72c23c4b84c2b420d8f859d8d31992"
  /\ lookup_object (objects committed1) "356f50901c72c23c4b84c2b420d8f859d8d31992"
     = Some (deflateSync s)
  /\ createShaHash s = "356f50901c72c23c4b84c2b420d8f859d8d31992"
  /\ ~ (exists type body,
           s = type +:+ " " +:+ dec (String.length body) +:+ NUL +:+ body).
Proof.
  intros s. repeat split; try (vm_compute; reflexivity).
  intros (type & body & E).
  apply (f_equal (has_char "000")) in E. rewrite !has_char_app in E.
  change (has_char "000" s) with false in E.
  change (has_char "000" NUL) with true in E.
  rewrite orb_true_l, !orb_true_r in E. discriminate E.
Qed.

(** The header of a Tree counts UTF-16 code units: for a name outside
    ASCII it is not the byte length. *)
Example tree_length_non_ascii :
  let name := String "195" (String "169" "") in
  let body := entryText "100644" name "c1b0730e0133447badcfd47fd144e254807b06e1" in
  js_length body = 49 /\ String.length body = 50.
Proof. split; reflexivity. Qed.

(** Test vectors of FIPS 180-4 and the hash of git's empty tree. *)
Example sha1_empty :
  SHA1.hexdigest "" = "da39a3ee5e6b4b0d3255bfef95601890afd80709".
Proof. vm_compute. reflexivity. Qed.

Example sha1_abc :
  SHA1.hexdigest "abc" = "a9993e364706816aba3e25717850c26c9cd0d89d".
Proof. vm_compute. reflexivity. Qed.

Example sha1_two_blocks :
  SHA1.hexdigest "abcdbcdecdefdefgefghfghighijhijkijkljklmklmnlmnomnopnopq"
  = "84983e441c3bd26ebaae4aa1f95129e5e54670f1".
Proof. vm_compute. reflexivity. Qed.

Example sha1_empty_tree :
  createShaHash ("tree 0" +:+ NUL) = "4b825dc642cb6eb9a060e54bf8d69288fbee4904".
Proof. vm_compute. reflexivity. Qed.

(** * Further properties *)

(** ** Splitting and trimming *)

Lemma split_at (sep : ascii) (a b : string) :
  has_char sep a = false ->
  split sep (a +:+ String sep b) = a :: split sep b.
Proof.
  induction a as [|c r IH]; simpl String.append; cbn [has_char split].
  - intros _. now rewrite Ascii.eqb_refl.
  - intros [Hc Hr]%orb_false_iff. rewrite Ascii.eqb_sym, Hc, (IH Hr). reflexivity.
Qed.

Lemma all_solid_app (a b : string) :
  all_solid (a +:+ b) = all_solid a && all_solid b.
Proof. induction a as [|c r IH]; [reflexivity|]. simpl. now rewrite IH, andb_assoc. Qed.

Lemma all_solid_reverse (s : string) : all_solid (reverse s) = all_solid s.
Proof.
  induction s as [|c r IH]; [reflexivity|].
  rewrite reverse_cons, all_solid_app, IH. simpl.
  now rewrite andb_true_r, andb_comm.
Qed.

Lemma all_solid_no_space (s : string) :
  all_solid s = true -> has_char " " s = false.
Proof.
  induction s as [|c r IH]; [reflexivity|]. cbn [all_solid has_char].
  intros [Hc Hr]%andb_true_iff. rewrite (IH Hr), orb_false_r.
  destruct (Ascii.eqb_spec " " c) as [<-|]; [discriminate Hc|reflexivity].
Qed.

(** A line that starts and ends on a solid character is what [trim]
    leaves of it and its line feed. *)
Lemma trim_line (s : string) :
  match s with String c _ => solid c = true | EmptyString => False end ->
  match reverse s with String c _ => solid c = true | EmptyString => False end ->
  trim (s +:+ LF) = s.
Proof.
  intros H1 H2. unfold trim. destruct s as [|c r]; [contradiction|].
  simpl String.append. rewrite strip_solid_head by exact H1.
  change (String c (r +:+ LF)) with (String c r +:+ LF).
  rewrite reverse_app. change (reverse LF) with LF. unfold LF at 1.
  simpl String.append. rewrite strip_eq. change (ws1 "010") with true. cbv iota.
  destruct (reverse (String c r)) as [|c' r'] eqn:E; [contradiction|].
  rewrite strip_solid_head by exact H2. rewrite <- E. apply reverse_involutive.
Qed.

Lemma solid_end (a : string) (c : ascii) (b : string) :
  solid c = true -> all_solid b = true ->
  match reverse (a +:+ String c b) with
  | String c' _ => solid c' = true
  | EmptyString => False
  end.
Proof.
  intros Hc Hb. rewrite reverse_app, reverse_cons, append_assoc.
  pose proof (all_solid_reverse b) as Hr. rewrite Hb in Hr.
  destruct (reverse b) as [|c' r']; simpl.
  - exact Hc.
  - simpl in Hr. now apply andb_true_iff in Hr as [? _].
Qed.

(** ** Reading [HEAD] back *)

Lemma head_commit_read (h : string) (r : repo) :
  all_hex h = true ->
  HEAD r = Some (h +:+ LF) ->
  getHeadReference r = (Ok (HeadCommit h), r).
Proof.
  intros Hh HH. rewrite (getHeadReference_content _ _ HH).
  now rewrite (trim_hash h Hh), (startsWith_ref_hex h Hh).
Qed.

Lemma head_branch_read (name : string) (r : repo) :
  all_solid name = true ->
  HEAD r = Some ("ref: refs/heads/" +:+ name +:+ LF) ->
  getHeadReference r = (Ok (HeadBranch (Some ("refs/heads/" +:+ name))), r).
Proof.
  intros Hn Hh. rewrite (getHeadReference_content _ _ Hh).
  assert (Ht : trim ("ref: refs/heads/" +:+ name +:+ LF)
               = "ref: refs/heads/" +:+ name).
  { rewrite <- append_assoc. apply trim_line; [reflexivity|].
    apply (solid_end "ref: refs/heads" "/" name); [reflexivity|exact Hn]. }
  rewrite Ht.
  change ("ref: refs/heads/" +:+ name)
    with ("ref:" +:+ String " " ("refs/heads/" +:+ name)).
  rewrite split_at by reflexivity.
  rewrite split_whole
    by (rewrite has_char_app, (all_solid_no_space _ Hn); reflexivity).
  reflexivity.
Qed.

Lemma head_branch_read_space (a b : string) (r : repo) :
  all_solid a = true -> all_solid b = true -> b <> "" ->
  HEAD r = Some ("ref: refs/heads/" +:+ (a +:+ " " +:+ b) +:+ LF) ->
  getHeadReference r = (Ok (HeadBranch (Some ("refs/heads/" +:+ a))), r).
Proof.
  intros Ha Hb Hne Hh. rewrite (getHeadReference_content _ _ Hh).
  destruct b as [|cb rb]; [contradiction|].
  cbn [all_solid] in Hb. apply andb_true_iff in Hb as [Hcb Hrb].
  assert (Ht : trim ("ref: refs/heads/" +:+ (a +:+ " " +:+ String cb rb) +:+ LF)
               = "ref: refs/heads/" +:+ a +:+ " " +:+ String cb rb).
  { rewrite <- append_assoc. apply trim_line; [reflexivity|].
    rewrite <- !append_assoc.
    apply (solid_end _ cb rb); assumption. }
  rewrite Ht.
  change ("ref: refs/heads/" +:+ a +:+ " " +:+ String cb rb)
    with ("ref:" +:+ String " " (("refs/heads/" +:+ a) +:+ String " " (String cb rb))).
  rewrite split_at by reflexivity.
  rewrite split_at
    by (rewrite has_char_app, (all_solid_no_space _ Ha); reflexivity).
  reflexivity.
Qed.

(** X1. What the two writers of [HEAD] write is read back by
    [getHeadReference] as it was meant: a hash of hexadecimal digits as a
    detached head on that hash, a branch name of solid characters as a
    symbolic head on [refs/heads/<name>]. *)
Theorem head_round_trip :
  (forall h r,
      all_hex h = true ->
      getHeadReference (snd (updateHeadToCommit h r))
      = (Ok (HeadCommit h), snd (updateHeadToCommit h r))
      /\ getHeadReference (snd (checkoutCommit h r))
         = (Ok (HeadCommit h), snd (checkoutCommit h r)))
  /\ (forall name r,
         all_solid name = true ->
         getHeadReference (snd (updateHeadToBranch name r))
         = (Ok (HeadBranch (Some ("refs/heads/" +:+ name))),
            snd (updateHeadToBranch name r))).
Proof.
  split.
  - intros h r Hh. split; now apply head_commit_read.
  - intros name r Hn. now apply head_branch_read.
Qed.

Lemma head_round_trip_witness :
  getHeadReference
    (snd (updateHeadToCommit "356f50901c72c23c4b84c2b420d8f859d8d31992" fresh))
  = (Ok (HeadCommit "356f50901c72c23c4b84c2b420d8f859d8d31992"),
     snd (updateHeadToCommit "356f50901c72c23c4b84c2b420d8f859d8d31992" fresh))
  /\ getHeadReference (snd (updateHeadToBranch "feature" fresh))
     = (Ok (HeadBranch (Some ("refs/heads/" +:+ "feature"))),
        snd (updateHeadToBranch "feature" fresh)).
Proof.
  split.
  - exact (proj1 (proj1 head_round_trip
                      "356f50901c72c23c4b84c2b420d8f859d8d31992" fresh eq_refl)).
  - exact (proj2 head_round_trip "feature" fresh eq_refl).
Defined.

(** X2. A branch name with a space in it is cut at the space when [HEAD]
    is read back: [getHeadReference] takes the second field of the line,
    so after [updateHeadToBranch "a b"] the head is on [refs/heads/a]. *)
Theorem head_cuts_name_at_space (a b : string) (r : repo) :
  all_solid a = true -> all_solid b = true -> b <> "" ->
  getHeadReference (snd (updateHeadToBranch (a +:+ " " +:+ b) r))
  = (Ok (HeadBranch (Some ("refs/heads/" +:+ a))),
     snd (updateHeadToBranch (a +:+ " " +:+ b) r)).
Proof. intros Ha Hb Hne. now apply (head_branch_read_space a b). Qed.

Lemma head_cuts_name_at_space_witness :
  getHeadReference (snd (updateHeadToBranch ("my" +:+ " " +:+ "branch") fresh))
  = (Ok (HeadBranch (Some ("refs/heads/" +:+ "my"))),
     snd (updateHeadToBranch ("my" +:+ " " +:+ "branch") fresh)).
Proof.
  apply (head_cuts_name_at_space "my" "branch" fresh);
    [reflexivity|reflexivity|discriminate].
Defined.

(** ** Operations in sequence *)


Lemma checkoutBranch_inv (b : string) (r r1 : repo) :
  checkoutBranch b r = (Ok tt, r1) ->
  r1 = mkRepo (Some ("ref: refs/heads/" +:+ b +:+ LF)) (heads r) (objects r)
         (staging r) (WriteHead ("ref: refs/heads/" +:+ b +:+ LF) :: written r).
Proof.
  unfold checkoutBranch, bind.
  destruct (existsSync _ r) as [[found|e] r0] eqn:E; [|discriminate].
  apply existsSync_state in E as ->. destruct found; [|discriminate].
  cbn [negb]. unfold updateHeadToBranch, writeHead, modify.
  destruct (readFileGit _ _) as [[c|e] r2] eqn:R; [|discriminate].
  apply readFileGit_state in R as ->. now intros [= <-].
Qed.

Lemma createBranch_detached (name : string) (r : repo) (hash : string) :
  segment name = true ->
  heads r !! name = None ->
  getHeadReference r = (Ok (HeadCommit hash), r) ->
  createBranch name r
  = (Ok hash,
     mkRepo (HEAD r) (<[name := hash +:+ LF]> (heads r)) (objects r)
       (staging r) (WriteBranch name (hash +:+ LF) :: written r)).
Proof.
  intros Hseg Hn Hh. rewrite (createBranch_segment name r Hseg), Hn.
  now rewrite (bind_ok _ _ _ _ _ Hh).
Qed.




(** X4. A branch created right after a successful commit points at the
    new commit: [HEAD] holds the commit hash, which [createBranch] writes
    to the new branch file. *)
Theorem branch_after_commit cwd msg (r : repo) (h : string) (r' : repo)
    (name : string) :
  commitStagedFiles cwd msg r = (Ok h, r') ->
  segment name = true ->
  heads r !! name = None ->
  createBranch name r'
  = (Ok h,
     mkRepo (Some (h +:+ LF)) (<[name := h +:+ LF]> (heads r)) (objects r') ∅
       (WriteBranch name (h +:+ LF) :: written r')).
Proof.
  intros H Hname Hn. destruct (commit_head _ _ _ _ _ H) as (HH & Hhd & Hst & Hhex).
  rewrite (createBranch_detached name r' h Hname).
  - now rewrite HH, Hhd, Hst.
  - now rewrite Hhd.
  - now apply head_commit_read.
Qed.

Lemma branch_after_commit_witness :
  createBranch "feature" (snd (commitStagedFiles work1 "first" staged1))
  = (Ok "356f50901c72c23c4b84c2b420d8f859d8d31992",
     mkRepo (Some ("356f50901c72c23c4b84c2b420d8f859d8d31992" +:+ LF))
       (<["feature" := "356f50901c72c23c4b84c2b420d8f859d8d31992" +:+ LF]>
          (heads staged1))
       (objects (snd (commitStagedFiles work1 "first" staged1))) ∅
       (WriteBranch "feature" ("356f50901c72c23c4b84c2b420d8f859d8d31992" +:+ LF)
          :: written (snd (commitStagedFiles work1 "first" staged1)))).
Proof.
  apply (branch_after_commit work1 "first" staged1 _ _ "feature" commit_first);
    [reflexivity|vm_compute; reflexivity].
Defined.

(** X5. A checkout cuts the history: the commit that follows the
    checkout of a branch, with [HEAD] left as the checkout wrote it, has
    no parent line, whatever commit the branch file names. *)
Theorem commit_after_checkout_has_no_parent (b : string) (r r1 r1' : repo)
    cwd msg (h : string) (r' : repo) :
  checkoutBranch b r = (Ok tt, r1) ->
  HEAD r1' = HEAD r1 ->
  commitStagedFiles cwd msg r1' = (Ok h, r') ->
  exists t,
    lookup_object (objects r') h
    = Some (deflateSync ("tree " +:+ t +:+ LF +:+ LF +:+ msg +:+ LF)).
Proof.
  intros ->%checkoutBranch_inv HH H. cbn [HEAD] in HH.
  destruct (commit_stores _ _ _ _ _ H) as (c & t & Hc & _ & Hl).
  assert (c = "ref: refs/heads/" +:+ b +:+ LF) as -> by congruence.
  unfold parent_of in Hl. rewrite trim_symbolic, commitText_root in Hl.
  now exists t.
Qed.

Lemma checkout_main_fresh :
  checkoutBranch "main" fresh = (Ok tt, snd (checkoutBranch "main" fresh)).
Proof. vm_compute. reflexivity. Qed.

Lemma commit_after_checkout_has_no_parent_witness :
  exists t,
    lookup_object (objects (snd (commitStagedFiles work1 "first" staged1)))
      "356f50901c72c23c4b84c2b420d8f859d8d31992"
    = Some (deflateSync ("tree " +:+ t +:+ LF +:+ LF +:+ "first" +:+ LF)).
Proof.
  apply (commit_after_checkout_has_no_parent "main" fresh _ staged1 work1 "first"
           _ _ checkout_main_fresh);
    [vm_compute; reflexivity|exact commit_first].
Defined.

(** ** The list of branches *)

Lemma replace_prefix (b : string) : replace "refs/heads/" ("refs/heads/" +:+ b) = b.
Proof.
  assert (H : startsWith "refs/heads/" ("refs/heads/" +:+ b) = true).
  { unfold startsWith. apply prefix_correct. cbn [String.length String.append].
    simpl substring. now destruct b. }
  simpl String.append in *. cbn [replace]. now rewrite H.
Qed.

Lemma listBranches_run (r : repo) (cur : option string) :
  getCurrentBranch r = (Ok cur, r) ->
  listBranches r
  = (Ok ((fun branch => (bool_decide (Some branch = cur), branch))
           <$> (map_to_list (heads r)).*1), r).
Proof.
  intros H. unfold listBranches. rewrite bind_get.
  now rewrite (bind_ok _ _ _ _ _ H).
Qed.

Lemma listed (cur : option string) (m : gmap string string) (flag : bool)
    (n : string) :
  (flag, n) ∈ ((fun branch => (bool_decide (Some branch = cur), branch))
                 <$> (map_to_list m).*1)
  <-> is_Some (m !! n) /\ flag = bool_decide (Some n = cur).
Proof.
  rewrite list_elem_of_fmap. split.
  - intros (x & [= -> ->] & Hx).
    apply list_elem_of_fmap in Hx as ([k v] & -> & Hkv).
    apply elem_of_map_to_list in Hkv. cbn [fst]. eauto.
  - intros ([v Hv] & ->). exists n. split; [reflexivity|].
    apply list_elem_of_fmap. exists (n, v). split; [reflexivity|].
    now apply elem_of_map_to_list.
Qed.

Lemma listed_once (cur : option string) (m : gmap string string) :
  NoDup (((fun branch => (bool_decide (Some branch = cur), branch))
            <$> (map_to_list m).*1).*2).
Proof.
  assert (H : forall l : list string,
             ((fun branch => (bool_decide (Some branch = cur), branch)) <$> l).*2 = l).
  { induction l as [|x l IH]; [reflexivity|].
    rewrite !fmap_cons. cbn [snd]. now rewrite IH. }
  rewrite H. apply NoDup_fst_map_to_list.
Qed.

(** X6. In a repository whose branch files lie directly in [refs/heads],
    [listBranches] prints every branch file once. After the checkout of
    a branch whose name is a single path segment of solid characters the
    line of that branch is printed and marked as the current one, and
    no other line is marked; after a successful commit no line is
    marked, as [HEAD] then holds a hash. *)
Theorem listBranches_current :
  (forall b r r1,
      segment b = true ->
      all_solid b = true ->
      checkoutBranch b r = (Ok tt, r1) ->
      exists lines,
        listBranches r1 = (Ok lines, r1)
        /\ NoDup lines.*2
        /\ (true, b) ∈ lines
        /\ forall flag n,
             (flag, n) ∈ lines <-> is_Some (heads r !! n) /\ flag = bool_decide (n = b))
  /\ (forall cwd msg r h r',
         commitStagedFiles cwd msg r = (Ok h, r') ->
         exists lines,
           listBranches r' = (Ok lines, r')
           /\ NoDup lines.*2
           /\ forall flag n,
                (flag, n) ∈ lines <-> is_Some (heads r !! n) /\ flag = false).
Proof.
  split.
  - intros b r r1 Hb Hsolid H.
    pose proof (checkoutBranch_inv _ _ _ H) as Hr1.
    assert (Hthere : is_Some (heads r !! b)).
    { rewrite (checkoutBranch_segment b r Hb) in H.
      destruct (heads r !! b); [eauto|discriminate]. }
    assert (Hcur : getCurrentBranch r1 = (Ok (Some b), r1)).
    { unfold getCurrentBranch.
      rewrite (bind_ok _ _ _ _ _ (head_branch_read b r1 Hsolid ltac:(now subst r1))).
      now rewrite replace_prefix. }
    assert (Hall : forall flag n,
               (flag, n) ∈ (λ branch, (bool_decide (Some branch = Some b), branch))
                            <$> (map_to_list (heads r1)).*1
               <-> is_Some (heads r !! n) /\ flag = bool_decide (n = b)).
    { intros flag n. rewrite listed.
      replace (heads r1) with (heads r) by now subst r1.
      replace (bool_decide (Some n = Some b)) with (bool_decide (n = b));
        [reflexivity|].
      apply bool_decide_ext. split; [now intros ->|now intros [= ->]]. }
    eexists. split; [apply (listBranches_run _ _ Hcur)|].
    split; [apply listed_once|]. split; [|exact Hall].
    apply Hall. split; [exact Hthere|]. symmetry. now apply bool_decide_eq_true.
  - intros cwd msg r h r' H.
    destruct (commit_head _ _ _ _ _ H) as (HH & Hhd & _ & Hhex).
    assert (Hcur : getCurrentBranch r' = (Ok None, r')).
    { unfold getCurrentBranch.
      now rewrite (bind_ok _ _ _ _ _ (head_commit_read h r' Hhex HH)). }
    eexists. split; [apply (listBranches_run _ _ Hcur)|].
    split; [apply listed_once|]. intros flag n. rewrite listed, Hhd.
    replace (bool_decide (Some n = None)) with false; [reflexivity|].
    symmetry. now apply bool_decide_eq_false.
Qed.

Lemma listBranches_current_witness :
  (exists lines,
      listBranches (snd (checkoutBranch "main" fresh))
      = (Ok lines, snd (checkoutBranch "main" fresh))
      /\ NoDup lines.*2
      /\ (true, "main") ∈ lines
      /\ forall flag n,
           (flag, n) ∈ lines
           <-> is_Some (heads fresh !! n) /\ flag = bool_decide (n = "main"))
  /\ (exists lines,
         listBranches (snd (commitStagedFiles work1 "first" staged1))
         = (Ok lines, snd (commitStagedFiles work1 "first" staged1))
         /\ NoDup lines.*2
         /\ forall flag n,
              (flag, n) ∈ lines <-> is_Some (heads staged1 !! n) /\ flag = false).
Proof.
  split.
  - exact (proj1 listBranches_current "main" fresh _ eq_refl eq_refl
             checkout_main_fresh).
  - exact (proj2 listBranches_current work1 "first" staged1 _ _ commit_first).
Defined.

(** ** The differ after a commit *)

Lemma readObject_missing (p : partition) (h : string) (r : repo) :
  lookup_object (part p r) h = None -> readObject p h r = (Err ENOENT, r).
Proof. intros H. unfold readObject. rewrite bind_get, H. reflexivity. Qed.

Lemma lookup_object_empty (h : string) : lookup_object ∅ h = None.
Proof. unfold lookup_object. now rewrite lookup_empty. Qed.

(** X7. A successful commit removes the staging directory: right after
    it the comparison of a hash (forty hexadecimal digits) with anything
    as staged trees, which is how the [diff] command calls
    [compareTreeObjects], and the listing of a staged tree under such a
    hash stop with [ENOENT]. *)
Theorem diff_after_commit cwd msg (r : repo) (h : string) (r' : repo) :
  commitStagedFiles cwd msg r = (Ok h, r') ->
  forall hash1 hash2,
    all_hex hash1 = true ->
    String.length hash1 = 40 ->
    compareTreeObjects hash1 hash2 true r' = (Err ENOENT, r')
    /\ readTreeObject hash1 true r' = (Err ENOENT, r').
Proof.
  intros H hash1 hash2 _ _. destruct (commit_head _ _ _ _ _ H) as (_ & _ & Hst & _).
  assert (Hr : readObject Staging hash1 r' = (Err ENOENT, r')).
  { apply readObject_missing. cbn [part]. rewrite Hst. apply lookup_object_empty. }
  unfold compareTreeObjects, parseTreeObject, readTreeObject, bind.
  now rewrite Hr.
Qed.

Lemma diff_after_commit_witness :
  compareTreeObjects "b51045445088336e2c77fee3437e4d65ab441906"
    "8fb0e33e69bc3b519573c3965c30b61bd19d4b77" true
    (snd (commitStagedFiles work1 "first" staged1))
  = (Err ENOENT, snd (commitStagedFiles work1 "first" staged1))
  /\ readTreeObject "b51045445088336e2c77fee3437e4d65ab441906" true
       (snd (commitStagedFiles work1 "first" staged1))
     = (Err ENOENT, snd (commitStagedFiles work1 "first" staged1)).
Proof.
  exact (diff_after_commit work1 "first" staged1 _ _ commit_first
           "b51045445088336e2c77fee3437e4d65ab441906" _ eq_refl eq_refl).
Defined.

(** ** The promotion loop *)

Lemma promote_spec (r : repo) (h : string) :
  lookup_object (objects (promote r)) h
  = match lookup_object (staging r) h with
    | Some b => Some b
    | None => lookup_object (objects r) h
    end.
Proof.
  unfold lookup_object. rewrite promote_objects.
  destruct (staging r !! slice_to 2 h) as [source|];
    cbn [mbind option_bind]; [|reflexivity].
  destruct (source !! slice_from 2 h) as [b|] eqn:E.
  - now apply lookup_union_Some_l.
  - rewrite lookup_union_r by exact E.
    destruct (objects r !! slice_to 2 h); [reflexivity|apply lookup_empty].
Qed.

(** X9. The promotion loop of [commitStagedFiles] moves every staged
    object to the permanent partition, over the object that was there
    under the same hash; the other objects stay, the staging directory
    ends up without a shard, and no ref is touched. *)
Theorem promotion (r : repo) :
  (forall h,
      lookup_object (objects (promote r)) h
      = match lookup_object (staging r) h with
        | Some b => Some b
        | None => lookup_object (objects r) h
        end)
  /\ staging (promote r) = ∅
  /\ HEAD (promote r) = HEAD r
  /\ heads (promote r) = heads r
  /\ written (promote r) = written r.
Proof.
  split; [apply promote_spec|]. split; [apply promote_staging|].
  apply promote_refs.
Qed.

(** ** Where the walk fails *)

Lemma shouldIgnore_ok cwd ps (path : string) :
  getIgnoredPatterns cwd = Ok ps -> exists b, shouldIgnore cwd path = Ok b.
Proof. intros H. unfold shouldIgnore. rewrite H. eauto. Qed.

Lemma walk_total cwd ps (n : node) :
  getIgnoredPatterns cwd = Ok ps ->
  forall directory,
    match n with
    | Dir files => exists es, tree_entries cwd directory files = Ok es
    | _ => True
    end.
Proof.
  intros Hp. induction n as [m d|files IH|] using node_nested_ind;
    intros directory; [exact I| |exact I].
  induction IH as [|[file child] rest Hc _ IHrest]; [now exists []|].
  cbn [tree_entries snd] in *.
  destruct (shouldIgnore_ok cwd ps (pathJoin directory file) Hp) as [b ->].
  destruct IHrest as [es Hes]. destruct b; [now exists es|].
  destruct child as [m d|sub|]; cbn [object_hash].
  - rewrite Hes. eauto.
  - destruct (Hc (pathJoin directory file)) as [es' Hes'].
    destruct (writeTreeObject_hash cwd (pathJoin directory file) sub es' emptyRepo
                Hes') as [-> _].
    rewrite Hes. eauto.
  - now exists es.
Qed.

Lemma walk_fails cwd e directory files r :
  getIgnoredPatterns cwd = Err e -> files <> [] ->
  writeTreeObject cwd directory (Dir files) r = (Err e, r).
Proof.
  intros Hp Hne. destruct files as [|[file child] rest]; [contradiction|].
  rewrite writeTreeObject_Dir. cbn [foldM]. unfold bind, entryStep, lift, shouldIgnore.
  now rewrite Hp.
Qed.

Lemma ignore_error cwd e :
  getIgnoredPatterns cwd = Err e -> cwd <> [] /\ e <> NothingToCommit.
Proof.
  unfold getIgnoredPatterns. destruct cwd as [|x l]; [discriminate|].
  intros H. split; [discriminate|].
  destruct (entry ".customIgnore" (x :: l)) as [[m d|sub|]|];
    cbn [readFileSync] in H; try discriminate; injection H as <-; discriminate.
Qed.

(** The three ways [commitStagedFiles] can go. *)
Lemma commit_cases cwd msg r :
  (size (staging r) = 0
   /\ commitStagedFiles cwd msg r = (Err NothingToCommit, r))
  \/ (size (staging r) <> 0
      /\ exists e, e <> NothingToCommit
                   /\ commitStagedFiles cwd msg r = (Err e, promote r))
  \/ (size (staging r) <> 0
      /\ exists h r', commitStagedFiles cwd msg r = (Ok h, r')).
Proof.
  destruct (decide (size (staging r) = 0)) as [Hs|Hs].
  { left. split; [exact Hs|]. unfold commitStagedFiles. rewrite bind_get.
    destruct (decide (size (staging r) = 0)); [reflexivity|contradiction]. }
  right. destruct (promote_refs r) as (HpH & _ & _).
  destruct (HEAD r) as [content|] eqn:Hh.
  - destruct (getIgnoredPatterns cwd) as [ps|e] eqn:Hp.
    + right. split; [exact Hs|].
      destruct (walk_total cwd ps (Dir cwd) Hp EmptyString) as [es He].
      destruct (commit_run cwd msg r content es Hs Hh He) as (rw & _ & Hrun).
      cbv zeta in Hrun. eauto.
    + left. split; [exact Hs|]. destruct (ignore_error cwd e Hp) as [Hne He].
      exists e. split; [exact He|].
      unfold commitStagedFiles. rewrite bind_get.
      destruct (decide (size (staging r) = 0)); [contradiction|].
      unfold bind at 1, modify. fold (promote r).
      rewrite (bind_ok _ _ _ _ _ (getHeadReference_content (promote r) content HpH)).
      unfold bind at 1. now rewrite (walk_fails cwd e EmptyString cwd _ Hp Hne).
  - left. split; [exact Hs|]. exists ENOENT. split; [discriminate|].
    unfold commitStagedFiles. rewrite bind_get.
    destruct (decide (size (staging r) = 0)); [contradiction|].
    unfold bind at 1, modify. fold (promote r).
    unfold bind at 1, getHeadReference. rewrite bind_get, HpH. reflexivity.
Qed.

(** X10. An ignore file that cannot be read stops [stage] before
    anything is written: where [.customIgnore] is in the working
    directory and cannot be read as a file, [stage] stops with the error
    of the read and leaves the repository as it was. *)
Theorem stage_unreadable_ignore cwd r e :
  getIgnoredPatterns cwd = Err e -> stageWorkingTree cwd r = (Err e, r).
Proof.
  intros Hp. destruct (ignore_error cwd e Hp) as [Hne _].
  unfold stageWorkingTree, bind.
  now rewrite (walk_fails cwd e EmptyString cwd r Hp Hne).
Qed.

Lemma stage_unreadable_ignore_witness :
  stageWorkingTree [(".customIgnore", Dir []); ("a.txt", File 33188 "1")] fresh
  = (Err EISDIR, fresh).
Proof.
  apply (stage_unreadable_ignore
           [(".customIgnore", Dir []); ("a.txt", File 33188 "1")] fresh EISDIR).
  reflexivity.
Defined.

(** X11. What a successful commit records. The commit object lies
    under the hash that is returned and names the tree [t] that the walk
    of the commit returned, with the parent read from [HEAD]. Where an
    object was staged under [t] when the commit started, as after a
    [stage] whose walk built the same Tree, [t] has an object in the
    permanent partition afterwards. Nothing is left in staging. *)
Theorem commit_records_tree cwd msg r h r' :
  commitStagedFiles cwd msg r = (Ok h, r') ->
  exists content t,
    HEAD r = Some content
    /\ fst (writeTreeObject cwd EmptyString (Dir cwd) (promote r)) = Ok t
    /\ h = createShaHash (commitText t (parent_of content) msg)
    /\ lookup_object (objects r') h
       = Some (deflateSync (commitText t (parent_of content) msg))
    /\ (is_Some (lookup_object (staging r) t)
        -> is_Some (lookup_object (objects r') t))
    /\ staging r' = ∅.
Proof.
  intros H. destruct (commit_inv _ _ _ _ _ H) as (Hs & content & es & Hh & He).
  destruct (commit_run cwd msg r content es Hs Hh He) as (rw & Hrw & Hrun).
  cbv zeta in Hrun.
  exists content, (createShaHash (treeText (tree_body es))).
  split; [exact Hh|].
  split; [exact (proj1 (writeTreeObject_hash cwd EmptyString cwd es _ He))|].
  split; [congruence|].
  split; [|split].
  - rewrite Hrun in H. injection H as <- <-. cbn [objects]. apply lookup_put_eq.
  - exact (commit_tree_present cwd msg r h r' es H He).
  - rewrite Hrun in H. now injection H as <- <-.
Qed.

Lemma commit_records_tree_witness :
  exists content t,
    HEAD staged1 = Some content
    /\ fst (writeTreeObject work1 EmptyString (Dir work1) (promote staged1)) = Ok t
    /\ "356f50901c72c23c4b84c2b420d8f859d8d31992"
       = createShaHash (commitText t (parent_of content) "first")
    /\ lookup_object (objects (snd (commitStagedFiles work1 "first" staged1)))
         "356f50901c72c23c4b84c2b420d8f859d8d31992"
       = Some (deflateSync (commitText t (parent_of content) "first"))
    /\ (is_Some (lookup_object (staging staged1) t)
        -> is_Some (lookup_object
                      (objects (snd (commitStagedFiles work1 "first" staged1))) t))
    /\ staging (snd (commitStagedFiles work1 "first" staged1)) = ∅.
Proof. exact (commit_records_tree work1 "first" staged1 _ _ commit_first). Defined.

(** X12. A commit is not undone when it fails behind the promotion
    loop. Once the staging directory is found non-empty the loop runs
    before [HEAD] and the working directory are read: where [HEAD] is
    missing, or where [.customIgnore] is there and cannot be read as a
    file, the commit stops with the error of that read and leaves the
    repository with all staged objects promoted and the staging
    directory empty, so that the next commit stops with
    [NothingToCommit]. *)
Theorem commit_failure_promotes cwd msg r :
  size (staging r) <> 0 ->
  (HEAD r = None -> commitStagedFiles cwd msg r = (Err ENOENT, promote r))
  /\ (forall content e,
         HEAD r = Some content ->
         getIgnoredPatterns cwd = Err e ->
         commitStagedFiles cwd msg r = (Err e, promote r))
  /\ commitStagedFiles cwd msg (promote r) = (Err NothingToCommit, promote r).
Proof.
  intros Hs. destruct (promote_refs r) as (HpH & _ & _).
  assert (Hrun : commitStagedFiles cwd msg r
                 = (let! head := getHeadReference in
                    let! treeHash := writeTreeObject cwd EmptyString (Dir cwd) in
                    modify (fun r => mkRepo (HEAD r) (heads r) (objects r) ∅
                                       (written r)) >>
                    let! commitHash :=
                      writeCommitObject treeHash
                        (match head with
                         | HeadCommit hash => Some hash
                         | HeadBranch _ => None
                         end) msg in
                    updateHeadToCommit commitHash >> ret commitHash) (promote r)).
  { unfold commitStagedFiles. rewrite bind_get.
    destruct (decide (size (staging r) = 0)); [contradiction|reflexivity]. }
  split; [|split].
  - intros Hh. rewrite Hrun. unfold bind at 1, getHeadReference.
    now rewrite bind_get, HpH, Hh.
  - intros content e Hh Hp. destruct (ignore_error cwd e Hp) as [Hne _].
    rewrite Hrun.
    rewrite (bind_ok _ _ _ _ _ (getHeadReference_content (promote r) content
                                  ltac:(congruence))).
    unfold bind at 1. now rewrite (walk_fails cwd e EmptyString cwd _ Hp Hne).
  - destruct (commit_cases cwd msg (promote r)) as [[_ H]|[[Hs' _]|[Hs' _]]];
      [exact H| |]; exfalso; apply Hs';
      rewrite promote_staging; apply map_size_empty.
Qed.

Lemma commit_failure_promotes_witness :
  commitStagedFiles [(".customIgnore", Dir [])] "first" staged1
  = (Err EISDIR, promote staged1)
  /\ commitStagedFiles [(".customIgnore", Dir [])] "first" (promote staged1)
     = (Err NothingToCommit, promote staged1).
Proof.
  assert (Hs : size (staging staged1) <> 0) by (vm_compute; discriminate).
  destruct (commit_failure_promotes [(".customIgnore", Dir [])] "first" staged1 Hs)
    as (_ & H2 & H3).
  split; [|exact H3].
  apply (H2 ("ref: refs/heads/main" +:+ LF) EISDIR); [vm_compute|]; reflexivity.
Defined.

(** ** What no command takes away *)

Lemma keeps_refl (r : repo) : keeps r r.
Proof. split; auto. Qed.

Lemma keeps_trans (r1 r2 r3 : repo) : keeps r1 r2 -> keeps r2 r3 -> keeps r1 r3.
Proof. intros [H1 H2] [H3 H4]. split; auto. Qed.

Lemma staged_from_keeps (r r' : repo) : staged_from r r' -> keeps r r'.
Proof.
  intros H. destruct (staged_from_partitions _ _ H) as [Ho _].
  destruct (staged_from_refs _ _ H) as [_ Hh]. split.
  - intros h Hs. destruct (Ho h) as [->|(d & _ & ->)]; eauto.
  - intros name content. now rewrite Hh.
Qed.

Lemma promote_keeps (r : repo) : keeps r (promote r).
Proof.
  destruct (promote_refs r) as (_ & Hh & _). split.
  - intros h Hs. rewrite promote_spec.
    destruct (lookup_object (staging r) h); eauto.
  - intros name content. now rewrite Hh.
Qed.

Lemma put_keeps (k h : string) (b : buffer) (m : gmap string (gmap string buffer)) :
  is_Some (lookup_object m h) -> is_Some (lookup_object (put k b m) h).
Proof.
  intros H. destruct (decide (k = h)) as [->|Hne].
  - rewrite lookup_put_eq. eauto.
  - now rewrite lookup_put_ne.
Qed.

Lemma commit_keeps cwd msg (r : repo) : keeps r (snd (commitStagedFiles cwd msg r)).
Proof.
  destruct (commit_cases cwd msg r) as [[_ H]|[(_ & e & _ & H)|(_ & h & r' & H)]].
  - rewrite H. apply keeps_refl.
  - rewrite H. apply promote_keeps.
  - destruct (commit_inv _ _ _ _ _ H) as (Hs & content & es & Hh & He).
    destruct (commit_run cwd msg r content es Hs Hh He) as (rw & Hrw & ->).
    cbn [snd]. apply (keeps_trans _ (promote r)); [apply promote_keeps|].
    destruct (staged_from_keeps _ _ Hrw) as [Ho Hhd].
    destruct (promote_refs r) as (_ & Hph & _). split; cbn [objects heads].
    + intros h0 H0. now apply put_keeps, Ho.
    + intros name c. now rewrite Hph.
Qed.

Lemma stage_refs cwd (r : repo) :
  HEAD (snd (stageWorkingTree cwd r)) = HEAD r
  /\ heads (snd (stageWorkingTree cwd r)) = heads r.
Proof.
  apply staged_from_refs.
  exact (stageWorkingTree_within cwd r _ _ (surjective_pairing _)).
Qed.

Lemma stage_keeps cwd (r : repo) : keeps r (snd (stageWorkingTree cwd r)).
Proof.
  apply staged_from_keeps.
  exact (stageWorkingTree_within cwd r _ _ (surjective_pairing _)).
Qed.

Lemma getHeadReference_state (r : repo) (o : outcome head) (r0 : repo) :
  getHeadReference r = (o, r0) -> r0 = r.
Proof.
  unfold getHeadReference. rewrite bind_get.
  destruct (HEAD r); [|now intros [= _ <-]].
  destruct (startsWith _ _); now intros [= _ <-].
Qed.

(** The commit a [HEAD] that was read stands for, as [createBranch]
    finds it. *)
Lemma resolve_head_cases (hd : head) (r : repo) (o : outcome string) (r1 : repo) :
  match hd with
  | HeadCommit hash => ret hash
  | HeadBranch None => throw TypeError
  | HeadBranch (Some ref) =>
      let! found := existsSync (resolve [ref]) in
      if found : bool
      then let! content := readFileGit (resolve [ref]) in ret (trim content)
      else throw UnresolvableHead
  end r = (o, r1) ->
  r1 = r
  /\ ((exists e, o = Err e)
      \/ exists hash,
           o = Ok hash
           /\ (hd = HeadCommit hash
               \/ exists ref f content,
                    hd = HeadBranch (Some ref)
                    /\ resolve [ref] = GitFile f
                    /\ readGitFile f r = Some content
                    /\ hash = trim content)).
Proof.
  destruct hd as [[ref|]|hash].
  - destruct (resolve [ref]) as [|f|f depth| |] eqn:P;
      try (intros [= <- <-]; split; [reflexivity|left; eauto]).
    rewrite (follow_ref f r). destruct (readGitFile f r) as [content|] eqn:R;
      intros [= <- <-]; (split; [reflexivity|]); [right|left; eauto].
    exists (trim content). split; [reflexivity|]. right. eauto 10.
  - intros [= <- <-]. split; [reflexivity|left; eauto].
  - intros [= <- <-]. split; [reflexivity|right]. eauto.
Qed.

(** What [createBranch] does to the repository: nothing, or one new
    branch file with the hash it found. *)
Lemma createBranch_cases (name : string) (r : repo) (o : outcome string) (r' : repo) :
  createBranch name r = (o, r') ->
  (r' = r /\ exists e, o = Err e)
  \/ heads r !! name = None
     /\ resolve ["refs"; "heads"; name] = GitFile (BranchFile name)
     /\ exists hash,
          o = Ok hash
          /\ r' = mkRepo (HEAD r) (<[name := hash +:+ LF]> (heads r)) (objects r)
                 (staging r) (WriteBranch name (hash +:+ LF) :: written r)
          /\ (getHeadReference r = (Ok (HeadCommit hash), r)
              \/ exists ref f content,
                   getHeadReference r = (Ok (HeadBranch (Some ref)), r)
                   /\ resolve [ref] = GitFile f
                   /\ readGitFile f r = Some content
                   /\ hash = trim content).
Proof.
  unfold createBranch. unfold bind at 1.
  destruct (existsSync _ r) as [[found|e] r0] eqn:E;
    pose proof (existsSync_state _ _ _ _ E) as ->;
    [|intros [= <- <-]; left; eauto].
  destruct found; [intros [= <- <-]; left; eauto|].
  unfold bind at 1.
  destruct (getHeadReference r) as [[hd|e] r0] eqn:Hh;
    pose proof (getHeadReference_state _ _ _ Hh) as ->;
    [|intros [= <- <-]; left; eauto].
  unfold bind at 1.
  match goal with
  | |- context [match ?m r with _ => _ end] => destruct (m r) as [oh r1] eqn:Hr
  end.
  destruct (resolve_head_cases _ _ _ _ Hr) as [-> [[e ->]|(hash & -> & Hhash)]];
    [intros [= <- <-]; left; eauto|].
  unfold writeNewFile, get, bind.
  destruct (resolve ["refs"; "heads"; name]) as [|[|n]|f depth| |] eqn:P;
    try (intros [= <- <-]; left; eauto; fail).
  - exfalso. unfold existsSync in E. rewrite bind_get in E. cbn [readGitFile] in E.
    unfold getHeadReference in Hh. rewrite bind_get in Hh.
    destruct (HEAD r); discriminate.
  - destruct (String.eqb_spec n name) as [->|Hne];
      [|intros [= <- <-]; left; eauto].
    intros [= <- <-]. right.
    unfold existsSync in E. rewrite bind_get in E. cbn [readGitFile] in E.
    split; [destruct (heads r !! name); [discriminate|reflexivity]|].
    split; [reflexivity|]. exists hash.
    split; [reflexivity|split; [reflexivity|]].
    destruct Hhash as [->|(ref & f & content & -> & Hf & Hc & ->)];
      [now left|right; eauto 10].
  - destruct (readGitFile f r); intros [= <- <-]; left; eauto.
Qed.

Lemma createBranch_inv (name : string) (r : repo) (h : string) (r' : repo) :
  createBranch name r = (Ok h, r') ->
  resolve ["refs"; "heads"; name] = GitFile (BranchFile name)
  /\ heads r !! name = None
  /\ r' = mkRepo (HEAD r) (<[name := h +:+ LF]> (heads r)) (objects r)
            (staging r) (WriteBranch name (h +:+ LF) :: written r).
Proof.
  intros [[_ [e [=]]]|(Hn & Hp & hash & [= <-] & -> & _)]%createBranch_cases.
  auto.
Qed.

Lemma createBranch_keeps (name : string) (r : repo) :
  keeps r (snd (createBranch name r)).
Proof.
  destruct (createBranch_cases name r _ _ (surjective_pairing _))
    as [[-> _]|(Hn & _ & hash & _ & -> & _)]; [apply keeps_refl|].
  split; cbn [objects heads]; [auto|].
  intros n c Hc. rewrite lookup_insert_ne; [exact Hc|congruence].
Qed.

Lemma checkoutBranch_cases (b : string) (r : repo) :
  snd (checkoutBranch b r) = r
  \/ snd (checkoutBranch b r)
     = mkRepo (Some ("ref: refs/heads/" +:+ b +:+ LF)) (heads r) (objects r)
         (staging r) (WriteHead ("ref: refs/heads/" +:+ b +:+ LF) :: written r).
Proof.
  unfold checkoutBranch, bind.
  destruct (existsSync _ r) as [[found|e] r0] eqn:E;
    pose proof (existsSync_state _ _ _ _ E) as ->; [|now left].
  destruct found; cbn [negb]; [|now left].
  unfold updateHeadToBranch, writeHead, modify.
  destruct (readFileGit _ _) as [[c|e] r2] eqn:R;
    pose proof (readFileGit_state _ _ _ _ R) as ->; now right.
Qed.

Lemma exec_keeps (c : command) (r : repo) : keeps r (exec c r).
Proof.
  destruct c as [cwd|cwd msg|name|name]; cbn [exec].
  - apply stage_keeps.
  - apply commit_keeps.
  - apply createBranch_keeps.
  - destruct (checkoutBranch_cases name r) as [->| ->];
      [apply keeps_refl|split; auto].
Qed.

Lemma run_keeps (cmds : list command) : forall r, keeps r (run cmds r).
Proof.
  induction cmds as [|c cmds IH]; intros r; [apply keeps_refl|].
  cbn [run fold_left]. eapply keeps_trans; [apply exec_keeps|apply IH].
Qed.

(** X13. No run of [stage], [commit], [branch] and [checkout], failed or
    not, with branch names that are single path segments, deletes an
    object from the permanent partition or deletes or rewrites a branch
    file: every hash that had an object still has one, and every branch
    file holds what it held. *)
Theorem nothing_is_lost (cmds : list command) (r : repo) :
  forallb named cmds = true ->
  (forall h, is_Some (lookup_object (objects r) h)
             -> is_Some (lookup_object (objects (run cmds r)) h))
  /\ (forall name content,
         heads r !! name = Some content ->
         heads (run cmds r) !! name = Some content).
Proof. intros _. apply run_keeps. Qed.

Lemma nothing_is_lost_witness :
  heads (run [CmdStage work1; CmdCommit work1 "first"; CmdBranch "feature"] fresh)
    !! "main"
  = Some ("b69690aa846299e334dc4233bcaf5896e6d76e39" +:+ LF).
Proof.
  apply (proj2 (nothing_is_lost
                  [CmdStage work1; CmdCommit work1 "first"; CmdBranch "feature"]
                  fresh eq_refl)).
  vm_compute. reflexivity.
Defined.

(** ** Refs name stored objects *)

Lemma names_object_keeps (r r' : repo) (content : string) :
  keeps r r' -> names_object r content -> names_object r' content.
Proof. intros [Ho _] (h & -> & Hh & Hs). exists h. auto. Qed.

Lemma split_head_chars (sep : ascii) (s w : string) (ws : list string) (c : ascii) :
  split sep s = w :: ws -> has_char c s = false -> has_char c w = false.
Proof.
  revert w ws. induction s as [|a s IH]; intros w ws; cbn [split].
  - now intros [= <- <-].
  - destruct (Ascii.eqb a sep); [now intros [= <- <-]|].
    cbn [has_char]. destruct (split sep s) as [|w' ws'] eqn:E;
      intros [= <- <-] [Ha Hs]%orb_false_iff; cbn [has_char]; rewrite Ha;
      [reflexivity|]. cbn [orb]. now apply (IH w' ws').
Qed.

Lemma split_prefix (sep : ascii) (p s : string) :
  has_char sep p = false ->
  exists y rest,
    split sep (p +:+ s) = (p +:+ y) :: rest
    /\ forall c, has_char c s = false -> has_char c y = false.
Proof.
  induction p as [|c p IH]; simpl String.append; cbn [has_char].
  - intros _. destruct (split sep s) as [|w ws] eqn:E.
    + now apply split_nonempty in E.
    + exists w, ws. split; [reflexivity|].
      intros c. now apply (split_head_chars sep s w ws).
  - intros [Hc Hp]%orb_false_iff. destruct (IH Hp) as (y & rest & E & Hy).
    cbn [split]. rewrite Ascii.eqb_sym, Hc, E. now exists y, rest.
Qed.

Lemma trim_symbolic_shape (name : string) :
  exists x,
    trim ("ref: refs/heads/" +:+ name +:+ LF) = "ref: refs/heads/" +:+ x
    /\ (has_char "/" name = false -> has_char "/" x = false).
Proof.
  unfold trim. simpl String.append.
  rewrite strip_solid_head by reflexivity.
  change (String "r" (String "e" (String "f" (String ":" (String " "
    (String "r" (String "e" (String "f" (String "s" (String "/"
    (String "h" (String "e" (String "a" (String "d" (String "s"
    (String "/" (name +:+ LF)))))))))))))))))
    with ("ref: refs/heads" +:+ String "/" (name +:+ LF)).
  rewrite reverse_app, reverse_cons, append_assoc.
  destruct (strip_keeps_solid true "/" (reverse "ref: refs/heads") eq_refl
              _ (reverse (name +:+ LF)) (le_n _)) as [x' Hx].
  destruct (strip_suffix true
              (reverse (name +:+ LF) +:+ String "/" (reverse "ref: refs/heads")))
    as [pre Hpre].
  rewrite Hx, <- append_assoc in Hpre. apply append_cancel_r in Hpre.
  simpl String.append. simpl String.append in Hx. rewrite Hx.
  rewrite reverse_app, reverse_cons. exists (reverse x'). split; [reflexivity|].
  intros Hn. rewrite has_char_reverse.
  apply (f_equal (has_char "/")) in Hpre.
  rewrite has_char_reverse, !has_char_app, Hn in Hpre. cbn in Hpre.
  symmetry in Hpre. now apply orb_false_iff in Hpre.
Qed.

(** A symbolic [HEAD] is read as a ref below [refs/heads]. *)
Lemma head_symbolic_read (b : string) (r : repo) :
  HEAD r = Some ("ref: refs/heads/" +:+ b +:+ LF) ->
  exists y,
    getHeadReference r = (Ok (HeadBranch (Some ("refs/heads/" +:+ y))), r)
    /\ (has_char "/" b = false -> has_char "/" y = false).
Proof.
  intros Hh. rewrite (getHeadReference_content _ _ Hh), trim_symbolic.
  destruct (trim_symbolic_shape b) as (x & -> & Hx).
  change ("ref: refs/heads/" +:+ x)
    with ("ref:" +:+ String " " ("refs/heads/" +:+ x)).
  rewrite split_at by reflexivity.
  destruct (split_prefix " " "refs/heads/" x eq_refl) as (y & rest & -> & Hy).
  exists y. split; [reflexivity|]. intros Hb. apply Hy, Hx, Hb.
Qed.

(** A symbolic [HEAD] does not hold a hash. *)
Lemma symbolic_not_hash (b h : string) :
  all_hex h = true -> h +:+ LF <> "ref: refs/heads/" +:+ b +:+ LF.
Proof.
  intros Hh E. destruct h as [|c h]; [discriminate E|].
  simpl String.append in E. injection E as -> _. discriminate Hh.
Qed.

Lemma symbolic_inj (a b : string) :
  Some ("ref: refs/heads/" +:+ a +:+ LF) = Some ("ref: refs/heads/" +:+ b +:+ LF) ->
  a = b.
Proof.
  simpl String.append. intros [= H]. now apply append_cancel_r in H.
Qed.

(** Closed refs are kept by every command with a name of one segment,
    together with this: a symbolic [HEAD] names a place directly below
    [refs/heads]. *)
Lemma closed_refs_exec (c : command) (r : repo) :
  named c = true ->
  closed_refs r ->
  (forall b, HEAD r = Some ("ref: refs/heads/" +:+ b +:+ LF) ->
             has_char "/" b = false) ->
  closed_refs (exec c r)
  /\ (forall b, HEAD (exec c r) = Some ("ref: refs/heads/" +:+ b +:+ LF) ->
                has_char "/" b = false).
Proof.
  intros Hnamed [Hb (content & Hh & Hc)] Hflat.
  assert (Hgen : forall r', keeps r r' -> heads r' = heads r -> HEAD r' = HEAD r ->
                            closed_refs r'
                            /\ (forall b, HEAD r' = Some ("ref: refs/heads/" +:+ b +:+ LF) ->
                                          has_char "/" b = false)).
  { intros r' Hk Hhd HH. split; [split|].
    - intros n c0. rewrite Hhd. intros Hn.
      eapply names_object_keeps; [exact Hk|eauto].
    - exists content. split; [congruence|].
      destruct Hc as [Hc|Hc]; [now left|right].
      eapply names_object_keeps; eauto.
    - intros b. rewrite HH. apply Hflat. }
  destruct c as [cwd|cwd msg|name|name]; cbn [exec].
  - destruct (stage_refs cwd r) as [HH Hhd].
    apply Hgen; [apply stage_keeps|exact Hhd|exact HH].
  - pose proof (commit_keeps cwd msg r) as Hk.
    destruct (commit_cases cwd msg r) as [[_ H]|[(_ & e & _ & H)|(_ & h & r' & H)]];
      rewrite H in Hk |- *; cbn [snd] in *.
    + apply Hgen; [apply keeps_refl|reflexivity|reflexivity].
    + destruct (promote_refs r) as (HpH & Hph & _). now apply Hgen.
    + destruct (commit_head _ _ _ _ _ H) as (HH & Hhd & _ & Hhex).
      destruct (commit_stores _ _ _ _ _ H) as (c0 & t & _ & _ & Hl).
      split; [split|].
      * intros n c1. rewrite Hhd. intros Hn.
        eapply names_object_keeps; [exact Hk|eauto].
      * exists (h +:+ LF). split; [exact HH|]. right.
        exists h. rewrite Hl. eauto.
      * intros b. rewrite HH. intros [= E].
        now apply (symbolic_not_hash b h Hhex) in E.
  - destruct (createBranch_cases name r _ _ (surjective_pairing _))
      as [[-> _]|(Hn & _ & hash & _ & -> & Hhash)];
      [apply Hgen; [apply keeps_refl|reflexivity|reflexivity]|].
    assert (Hk : keeps r (mkRepo (HEAD r) (<[name := hash +:+ LF]> (heads r))
                            (objects r) (staging r)
                            (WriteBranch name (hash +:+ LF) :: written r))).
    { split; cbn [objects heads]; [auto|].
      intros n c Hc'. rewrite lookup_insert_ne; [exact Hc'|congruence]. }
    assert (Hnew : names_object r (hash +:+ LF)).
    { destruct Hhash as [Hd|(ref & f & c1 & Hs & Hg & Hr & ->)].
      - destruct Hc as [[b ->]|(h & -> & Hhex & Hs)].
        + destruct (head_symbolic_read b r Hh) as (y & Hy & _). congruence.
        + rewrite (head_commit_read h r Hhex Hh) in Hd. injection Hd as <-.
          now exists h.
      - destruct Hc as [[b ->]|(h & -> & Hhex & Hs')].
        + destruct (head_symbolic_read b r Hh) as (y & Hy & Hys).
          assert (ref = "refs/heads/" +:+ y) as -> by congruence.
          rewrite (resolve_ref_flat y f (Hys (Hflat b Hh)) Hg) in Hr.
          cbn [readGitFile] in Hr.
          destruct (Hb _ _ Hr) as (h & -> & Hhex & Hs').
          rewrite (trim_hash h Hhex). now exists h.
        + rewrite (head_commit_read h r Hhex Hh) in Hs. discriminate. }
    split; [split|]; cbn [heads HEAD].
    + intros n c1. destruct (decide (name = n)) as [<-|Hne].
      * rewrite lookup_insert_eq. intros [= <-].
        eapply names_object_keeps; [exact Hk|exact Hnew].
      * rewrite lookup_insert_ne by exact Hne. intros Hn'.
        eapply names_object_keeps; [exact Hk|eauto].
    + exists content. split; [exact Hh|].
      destruct Hc as [Hc|Hc]; [now left|right].
      eapply names_object_keeps; eauto.
    + exact Hflat.
  - destruct (checkoutBranch_cases name r) as [->| ->];
      [apply Hgen; [apply keeps_refl|reflexivity|reflexivity]|].
    split; [split|]; cbn [heads HEAD].
    + intros n c1 Hn. destruct (Hb _ _ Hn) as (h & -> & Hhex & Hs). now exists h.
    + eexists. split; [reflexivity|]. left. eauto.
    + intros b <-%symbolic_inj. cbn [named] in Hnamed.
      now destruct (segment_inv name Hnamed) as (_ & _ & _ & ?).
Qed.

Lemma closed_refs_fresh : closed_refs fresh.
Proof.
  split.
  - intros n c. rewrite heads_fresh.
    destruct (decide ("main" = n)) as [<-|Hne].
    + rewrite lookup_insert_eq. intros [= <-].
      exists "b69690aa846299e334dc4233bcaf5896e6d76e39".
      split; [reflexivity|split; [reflexivity|]].
      assert (H : lookup_object (objects fresh)
                    "b69690aa846299e334dc4233bcaf5896e6d76e39"
                  = Some (deflateSync
                            ("tree 4b825dc642cb6eb9a060e54bf8d69288fbee4904" +:+ LF
                             +:+ LF +:+ "Initial commit" +:+ LF)))
        by (vm_compute; reflexivity).
      rewrite H. eauto.
    + rewrite lookup_insert_ne by exact Hne. now rewrite lookup_empty.
  - exists ("ref: refs/heads/" +:+ "main" +:+ LF). split; [reflexivity|].
    left. now exists "main".
Qed.

(** X14. Refs stay closed. In the repository [init] creates, and after
    any run of [stage], [commit], [branch] and [checkout] from there,
    failed or not, with branch names that are single path segments,
    every branch file holds a hash and a line feed, and that hash has an
    object in the permanent partition; [HEAD] holds either such a hash
    or a symbolic reference to a branch. *)
Theorem refs_stay_closed (cmds : list command) :
  forallb named cmds = true -> closed_refs (run cmds fresh).
Proof.
  assert (H : forall r,
             forallb named cmds = true ->
             closed_refs r ->
             (forall b, HEAD r = Some ("ref: refs/heads/" +:+ b +:+ LF) ->
                        has_char "/" b = false) ->
             closed_refs (run cmds r)).
  { induction cmds as [|c cmds IH]; intros r Hn Hr Hf; [exact Hr|].
    cbn [forallb] in Hn. apply andb_true_iff in Hn as [Hc Hn].
    cbn [run fold_left].
    destruct (closed_refs_exec c r Hc Hr Hf) as [Hr' Hf']. now apply IH. }
  intros Hn. apply H; [exact Hn|apply closed_refs_fresh|].
  assert (Hh : HEAD fresh = Some ("ref: refs/heads/" +:+ "main" +:+ LF))
    by (vm_compute; reflexivity).
  intros b. rewrite Hh. now intros <-%symbolic_inj.
Qed.

Lemma refs_stay_closed_witness :
  closed_refs
    (run [CmdStage work1; CmdCommit work1 "first"; CmdBranch "feature";
          CmdCheckout "feature"] fresh).
Proof.
  exact (refs_stay_closed
           [CmdStage work1; CmdCommit work1 "first"; CmdBranch "feature";
            CmdCheckout "feature"] eq_refl).
Defined.

(** ** Initialisation *)

(** X15. [init] refuses to touch an existing repository. On a disk
    without one it writes the empty Tree under the hash git gives it,
    the initial commit on that tree, the branch [main] on that commit,
    and a [HEAD] that is read as a reference to [main]; the staging
    directory is empty. *)
Theorem init_repository :
  (forall r, initRepository (Some r) = (Err RepositoryAlreadyExists, Some r))
  /\ initRepository None = (Ok tt, Some fresh)
  /\ getHeadReference fresh = (Ok (HeadBranch (Some "refs/heads/main")), fresh)
  /\ heads fresh = <["main" := "b69690aa846299e334dc4233bcaf5896e6d76e39" +:+ LF]> ∅
  /\ lookup_object (objects fresh) "b69690aa846299e334dc4233bcaf5896e6d76e39"
     = Some (deflateSync
               ("tree 4b825dc642cb6eb9a060e54bf8d69288fbee4904" +:+ LF
                +:+ LF +:+ "Initial commit" +:+ LF))
  /\ lookup_object (objects fresh) "4b825dc642cb6eb9a060e54bf8d69288fbee4904"
     = Some (deflateSync ("tree 0" +:+ NUL))
  /\ staging fresh = ∅.
Proof.
  split; [reflexivity|]. split; [reflexivity|].
  split; [apply (head_branch_read "main" fresh); reflexivity|].
  split; [exact heads_fresh|].
  repeat split; vm_compute; reflexivity.
Qed.

(** ** The tree readers *)

Lemma uint_no_nul (d : Decimal.uint) :
  has_char "000" (NilEmpty.string_of_uint d) = false.
Proof. induction d; simpl; auto. Qed.

Lemma dec_no_nul (n : nat) : has_char "000" (dec n) = false.
Proof.
  unfold dec, NilZero.string_of_uint.
  destruct (Nat.to_uint n) eqn:E; try reflexivity; apply uint_no_nul.
Qed.

Lemma plain_spec (s : string) :
  plain s = true -> has_char "000" s = false /\ has_char " " s = false.
Proof.
  unfold plain. intros [H1 H2]%andb_true_iff.
  now apply negb_true_iff in H1, H2.
Qed.

Lemma plain_entry_spec mode name h :
  plain_entry (mode, name, h) = true ->
  plain mode = true /\ plain name = true /\ plain h = true.
Proof.
  cbn [plain_entry]. intros [[H1 H2]%andb_true_iff H3]%andb_true_iff. auto.
Qed.

Lemma split_body (es : list (string * string * string)) :
  forallb plain_entry es = true ->
  forall pre, has_char "000" pre = false ->
    split "000" (pre +:+ tree_body es) = pieces pre es.
Proof.
  induction es as [|[[mode name] h] es IH]; intros Hwf pre Hpre.
  - cbn [tree_body fold_right pieces]. rewrite append_nil_r. now apply split_whole.
  - cbn [forallb] in Hwf. apply andb_true_iff in Hwf as [He Hes].
    destruct (plain_entry_spec _ _ _ He)
      as ((Hm & _)%plain_spec & (Hn & _)%plain_spec & (Hh & _)%plain_spec).
    rewrite tree_body_cons. cbn [pieces].
    replace (pre +:+ entryText mode name h +:+ tree_body es)
      with ((pre +:+ mode +:+ " " +:+ name) +:+ String "000" (h +:+ tree_body es))
      by (unfold entryText, NUL; rewrite !append_assoc; reflexivity).
    rewrite split_at.
    + f_equal. now apply IH.
    + rewrite !has_char_app, Hpre, Hm, Hn. reflexivity.
Qed.

Lemma split_treeText (es : list (string * string * string)) :
  forallb plain_entry es = true ->
  pop (shift (split "000" (treeText (tree_body es)))) = fields "" es.
Proof.
  intros Hwf. unfold treeText.
  replace ("tree " +:+ dec (js_length (tree_body es)) +:+ NUL +:+ tree_body es)
    with (("tree " +:+ dec (js_length (tree_body es)))
          +:+ String "000" ("" +:+ tree_body es))
    by (unfold NUL; rewrite !append_assoc; reflexivity).
  rewrite split_at by (rewrite has_char_app, dec_no_nul; reflexivity).
  rewrite (split_body es Hwf "" eq_refl). cbn [shift tl].
  clear Hwf. generalize EmptyString.
  induction es as [|[[mode name] h] es IH]; intros pre; [reflexivity|].
  cbn [pieces fields]. rewrite <- IH. unfold pop. cbn [removelast].
  destruct (pieces h es) eqn:E; [|reflexivity].
  destruct es as [|[[? ?] ?] ?]; discriminate.
Qed.

Lemma split_field (pre mode name : string) :
  has_char " " pre = false -> has_char " " mode = false ->
  has_char " " name = false ->
  split " " (pre +:+ mode +:+ " " +:+ name) = [pre +:+ mode; name].
Proof.
  intros Hp Hm Hn.
  replace (pre +:+ mode +:+ " " +:+ name)
    with ((pre +:+ mode) +:+ String " " name)
    by (rewrite !append_assoc; reflexivity).
  rewrite split_at by (rewrite has_char_app, Hp, Hm; reflexivity).
  now rewrite split_whole.
Qed.

Lemma names_of_fields (es : list (string * string * string)) :
  forallb plain_entry es = true ->
  forall pre, has_char " " pre = false ->
    map (fun e => nth_error (split " " e) 1) (fields pre es)
    = map (fun e => Some (entry_name e)) es.
Proof.
  induction es as [|[[mode name] h] es IH]; intros Hwf pre Hpre; [reflexivity|].
  cbn [forallb] in Hwf. apply andb_true_iff in Hwf as [He Hes].
  destruct (plain_entry_spec _ _ _ He)
    as ((_ & Hm)%plain_spec & (_ & Hn)%plain_spec & (_ & Hh)%plain_spec).
  cbn [fields map]. rewrite (split_field pre mode name Hpre Hm Hn).
  cbn [nth_error entry_name fst snd]. f_equal. now apply IH.
Qed.

Lemma readObject_found (p : partition) (h : string) (r : repo) (b : buffer) :
  lookup_object (part p r) h = Some b -> readObject p h r = (Ok b, r).
Proof. intros H. unfold readObject. rewrite bind_get, H. reflexivity. Qed.

(** X16. Reading a Tree back: for a Tree whose modes, names and hashes
    hold neither a space nor a [NUL], [readTreeObject] prints the names
    of its entries, in the order of the body; for the empty Tree it
    prints nothing. *)
Theorem readTreeObject_names (staged : bool) (h : string) (r : repo)
    (es : list (string * string * string)) :
  lookup_object (part (if staged then Staging else Permanent) r) h
  = Some (deflateSync (treeText (tree_body es))) ->
  forallb plain_entry es = true ->
  readTreeObject h staged r = (Ok (map (fun e => Some (entry_name e)) es), r).
Proof.
  intros Hl Hwf. unfold readTreeObject.
  rewrite (bind_ok _ _ _ _ _ (readObject_found _ _ _ _ Hl)).
  cbn [inflateSync deflateSync]. rewrite (split_treeText es Hwf).
  now rewrite (names_of_fields es Hwf "" eq_refl).
Qed.

Lemma staged1_tree :
  lookup_object (part Staging staged1) "b51045445088336e2c77fee3437e4d65ab441906"
  = Some (deflateSync
            (treeText
               (tree_body
                  [("100644", "a.txt", "56a6051ca2b02b04ef92d5150c9ef600403cb1de")]))).
Proof. vm_compute. reflexivity. Qed.

Lemma readTreeObject_names_witness :
  readTreeObject "b51045445088336e2c77fee3437e4d65ab441906" true staged1
  = (Ok (map (fun e => Some (entry_name e))
           [("100644", "a.txt", "56a6051ca2b02b04ef92d5150c9ef600403cb1de")]),
     staged1).
Proof.
  apply (readTreeObject_names true _ staged1 _ staged1_tree). reflexivity.
Defined.

Lemma map_set_new (k : option string) (v : string)
    (m : list (option string * string)) :
  k ∉ keys m -> map_set k v m = m ++ [(k, v)].
Proof.
  induction m as [|[k' v'] m IH]; [reflexivity|]. cbn [keys map fst map_set].
  intros [Hne Hm]%not_elem_of_cons.
  destruct (decide (k = k')); [contradiction|]. cbn [app]. f_equal. now apply IH.
Qed.

Lemma map_of_fields (es : list (string * string * string)) :
  forallb plain_entry es = true ->
  NoDup (map entry_name es) ->
  forall pre acc,
    has_char " " pre = false ->
    (forall e, e ∈ es -> Some (entry_name e) ∉ keys acc) ->
    fold_left
      (fun fileMap e =>
         map_set (nth_error (split " " e) 1) (nth 0 (split " " e) EmptyString)
           fileMap)
      (fields pre es) acc
    = acc ++ parsed pre es.
Proof.
  induction es as [|[[mode name] h] es IH]; intros Hwf Hnd pre acc Hpre Hacc.
  - cbn. now rewrite app_nil_r.
  - cbn [forallb] in Hwf. apply andb_true_iff in Hwf as [He Hes].
    destruct (plain_entry_spec _ _ _ He)
      as ((_ & Hm)%plain_spec & (_ & Hn)%plain_spec & (_ & Hh)%plain_spec).
    cbn [map entry_name fst snd] in Hnd. apply NoDup_cons in Hnd as [Hnew Hnd].
    cbn [fields fold_left parsed].
    rewrite (split_field pre mode name Hpre Hm Hn). cbn [nth_error nth].
    rewrite map_set_new by (apply (Hacc (mode, name, h)), list_elem_of_here).
    rewrite (IH Hes Hnd h _ Hh).
    + now rewrite <- app_assoc.
    + intros e He'. unfold keys. rewrite map_app. cbn [map fst].
      rewrite elem_of_app, list_elem_of_singleton. intros [H|[= H]].
      * apply (Hacc e); [now apply list_elem_of_further|exact H].
      * apply Hnew. rewrite <- H. apply list_elem_of_In, in_map, list_elem_of_In, He'.
Qed.

Lemma parse_run (staged : bool) (h : string) (r : repo)
    (es : list (string * string * string)) :
  lookup_object (part (if staged then Staging else Permanent) r) h
  = Some (deflateSync (treeText (tree_body es))) ->
  forallb plain_entry es = true ->
  NoDup (map entry_name es) ->
  parseTreeObject staged h r = (Ok (parsed "" es), r).
Proof.
  intros Hl Hwf Hnd. unfold parseTreeObject.
  rewrite (bind_ok _ _ _ _ _ (readObject_found _ _ _ _ Hl)).
  cbn [inflateSync deflateSync]. cbv zeta. rewrite (split_treeText es Hwf).
  rewrite (map_of_fields es Hwf Hnd "" [] eq_refl); [reflexivity|].
  intros e _. apply not_elem_of_nil.
Qed.

(** X17. What the differ sees of a Tree, for a Tree whose modes, names
    and hashes hold neither a space nor a [NUL] and whose names differ:
    [parseTreeObject] maps every name to its mode with the hash of the
    entry before in front; the hash behind the last name is in no value
    of the map. *)
Theorem parseTreeObject_parsed (staged : bool) (h : string) (r : repo)
    (es : list (string * string * string)) :
  lookup_object (part (if staged then Staging else Permanent) r) h
  = Some (deflateSync (treeText (tree_body es))) ->
  forallb plain_entry es = true ->
  NoDup (map entry_name es) ->
  parseTreeObject staged h r = (Ok (parsed "" es), r).
Proof. apply parse_run. Qed.

Lemma parseTreeObject_parsed_witness :
  parseTreeObject true "b51045445088336e2c77fee3437e4d65ab441906" staged1
  = (Ok (parsed ""
           [("100644", "a.txt", "56a6051ca2b02b04ef92d5150c9ef600403cb1de")]),
     staged1).
Proof.
  apply (parseTreeObject_parsed true _ staged1 _ staged1_tree); [reflexivity|].
  apply NoDup_singleton.
Defined.

(** ** The differ on its maps *)

Lemma new_Set_acc (l s : list (option string)) :
  NoDup s ->
  NoDup (fold_left (fun s x => if decide (x ∈ s) then s else s ++ [x]) l s)
  /\ forall x,
       x ∈ fold_left (fun s x => if decide (x ∈ s) then s else s ++ [x]) l s
       <-> x ∈ s \/ x ∈ l.
Proof.
  revert s. induction l as [|a l IH]; intros s Hs; cbn [fold_left].
  - split; [exact Hs|]. intros x. rewrite elem_of_nil. tauto.
  - destruct (decide (a ∈ s)) as [Ha|Ha].
    + destruct (IH s Hs) as [H1 H2]. split; [exact H1|].
      intros x. rewrite H2, elem_of_cons. split; [tauto|].
      intros [?|[->|?]]; auto.
    + assert (Hs' : NoDup (s ++ [a])).
      { apply NoDup_app. repeat split; [exact Hs| |apply NoDup_singleton].
        intros x Hx ->%list_elem_of_singleton. contradiction. }
      destruct (IH _ Hs') as [H1 H2]. split; [exact H1|].
      intros x. rewrite H2, elem_of_app, list_elem_of_singleton, elem_of_cons.
      tauto.
Qed.

Lemma new_Set_spec (l : list (option string)) :
  NoDup (new_Set l) /\ forall x, x ∈ new_Set l <-> x ∈ l.
Proof.
  destruct (new_Set_acc l [] NoDup_nil_2) as [H1 H2]. split; [exact H1|].
  intros x. unfold new_Set. rewrite H2, elem_of_nil. tauto.
Qed.

Lemma keys_has (k : option string) (t : list (option string * string)) :
  k ∈ keys t <-> map_has k t = true.
Proof.
  unfold map_has. induction t as [|[k' v] t IH]; cbn [keys map fst map_get].
  - rewrite elem_of_nil. split; [tauto|discriminate].
  - rewrite elem_of_cons. destruct (decide (k = k')) as [->|Hne]; [tauto|].
    fold (keys t). rewrite IH. tauto.
Qed.

Lemma compare_run (staged : bool) (h1 h2 : string) (r : repo)
    (t1 t2 : list (option string * string)) :
  parseTreeObject staged h1 r = (Ok t1, r) ->
  parseTreeObject staged h2 r = (Ok t2, r) ->
  compareTreeObjects h1 h2 staged r
  = (Ok (flat_map (diff_line t1 t2) (new_Set (keys t1 ++ keys t2))), r).
Proof.
  intros H1 H2. unfold compareTreeObjects.
  rewrite (bind_ok _ _ _ _ _ H1). cbv beta.
  rewrite (bind_ok _ _ _ _ _ H2). reflexivity.
Qed.

Lemma diff_line_elem (t1 t2 : list (option string * string))
    (x : option string) (s : status) (k : option string) :
  (s, k) ∈ diff_line t1 t2 x
  <-> k = x
      /\ match s with
         | added => map_has x t1 = false
         | deleted => map_has x t1 = true /\ map_has x t2 = false
         | modified =>
             map_has x t1 = true /\ map_has x t2 = true
             /\ map_get x t1 <> map_get x t2
         end.
Proof.
  unfold diff_line.
  destruct (map_has x t1), (map_has x t2); cbn [negb];
    try destruct (bool_decide_reflect (map_get x t1 = map_get x t2));
    cbn [negb]; rewrite ?list_elem_of_singleton, ?elem_of_nil;
    destruct s; split;
    try (intros [= <-]); try (intros [-> H]); try discriminate;
    intuition (try congruence; try discriminate).
Qed.

Lemma diff_line_snd (t1 t2 : list (option string * string)) (x : option string) :
  map snd (diff_line t1 t2 x) = [x] \/ map snd (diff_line t1 t2 x) = [].
Proof.
  unfold diff_line.
  destruct (negb (map_has x t1)); [now left|].
  destruct (negb (map_has x t2)); [now left|].
  destruct (negb _); [now left|now right].
Qed.

Lemma diff_lines_once (t1 t2 : list (option string * string))
    (l : list (option string)) :
  NoDup l -> NoDup (map snd (flat_map (diff_line t1 t2) l)).
Proof.
  intros Hl. apply (sublist_NoDup _ l); [exact Hl|]. clear Hl.
  induction l as [|x l IH]; [constructor|].
  cbn [flat_map]. rewrite map_app.
  destruct (diff_line_snd t1 t2 x) as [-> | ->]; cbn [app];
    [now apply sublist_skip|now apply sublist_cons].
Qed.

(** X18. The comparison loop on the two maps of the parser: it prints
    [added] exactly for the keys of the second map that the first has
    not, [deleted] exactly for the keys of the first that the second
    has not, [modified] exactly for the keys of both whose values
    differ, and no key twice. *)
Theorem compare_classifies (staged : bool) (h1 h2 : string) (r : repo)
    (t1 t2 : list (option string * string)) :
  parseTreeObject staged h1 r = (Ok t1, r) ->
  parseTreeObject staged h2 r = (Ok t2, r) ->
  exists out,
    compareTreeObjects h1 h2 staged r = (Ok out, r)
    /\ NoDup (map snd out)
    /\ forall k,
         ((added, k) ∈ out <-> map_has k t1 = false /\ map_has k t2 = true)
         /\ ((deleted, k) ∈ out <-> map_has k t1 = true /\ map_has k t2 = false)
         /\ ((modified, k) ∈ out
             <-> map_has k t1 = true /\ map_has k t2 = true
                 /\ map_get k t1 <> map_get k t2).
Proof.
  intros H1 H2. eexists. split; [apply (compare_run _ _ _ _ _ _ H1 H2)|].
  destruct (new_Set_spec (keys t1 ++ keys t2)) as [Hnd Hin].
  split; [now apply diff_lines_once|].
  assert (Hmem : forall s k,
             (s, k) ∈ flat_map (diff_line t1 t2) (new_Set (keys t1 ++ keys t2))
             <-> (map_has k t1 = true \/ map_has k t2 = true)
                 /\ (s, k) ∈ diff_line t1 t2 k).
  { intros s k. rewrite list_elem_of_In, in_flat_map. split.
    - intros (x & Hx & Hs). apply list_elem_of_In in Hx, Hs.
      pose proof (proj1 (diff_line_elem _ _ _ _ _) Hs) as [-> _].
      apply Hin in Hx. rewrite elem_of_app, !keys_has in Hx. now split.
    - intros [Hk Hs]. exists k. rewrite <- !list_elem_of_In. split; [|exact Hs].
      apply Hin. rewrite elem_of_app, !keys_has. exact Hk. }
  intros k. rewrite !Hmem, !diff_line_elem.
  destruct (map_has k t1), (map_has k t2); intuition (try congruence; try discriminate).
Qed.

Lemma diff_same (t : list (option string * string)) :
  flat_map (diff_line t t) (new_Set (keys t ++ keys t)) = [].
Proof.
  destruct (new_Set_spec (keys t ++ keys t)) as [_ Hin].
  assert (H : forall l, (forall x, x ∈ l -> map_has x t = true) ->
                        flat_map (diff_line t t) l = []).
  { induction l as [|x l IH]; intros Hl; [reflexivity|].
    cbn [flat_map]. rewrite IH by (intros y Hy; apply Hl; now right).
    unfold diff_line. rewrite (Hl x) by now left. cbn [negb].
    now rewrite bool_decide_eq_true_2. }
  apply H. intros x Hx%Hin. rewrite elem_of_app, !keys_has in Hx. tauto.
Qed.

(** X19. The comparison of a hash with itself prints nothing, whatever
    the object under it holds. *)
Theorem compare_same (staged : bool) (h : string) (r : repo) :
  is_Some (lookup_object (part (if staged then Staging else Permanent) r) h) ->
  compareTreeObjects h h staged r = (Ok [], r).
Proof.
  intros [b Hb].
  assert (H : exists t, parseTreeObject staged h r = (Ok t, r)).
  { unfold parseTreeObject.
    rewrite (bind_ok _ _ _ _ _ (readObject_found _ _ _ _ Hb)). eauto. }
  destruct H as [t H]. rewrite (compare_run _ _ _ _ _ _ H H).
  now rewrite diff_same.
Qed.

Lemma compare_same_witness :
  compareTreeObjects "b51045445088336e2c77fee3437e4d65ab441906"
    "b51045445088336e2c77fee3437e4d65ab441906" true staged1
  = (Ok [], staged1).
Proof.
  apply (compare_same true _ staged1). rewrite staged1_tree. eauto.
Defined.

Lemma fields_last (es : list (string * string * string))
    (mode name c1 c2 : string) :
  forall pre,
    fields pre (es ++ [(mode, name, c1)]) = fields pre (es ++ [(mode, name, c2)]).
Proof.
  induction es as [|[[m n] h] es IH]; intros pre; [reflexivity|].
  cbn [app fields]. f_equal. apply IH.
Qed.

Lemma forallb_plain_last (es : list (string * string * string))
    (mode name c1 c2 : string) :
  forallb plain_entry (es ++ [(mode, name, c1)]) = true ->
  plain c2 = true ->
  forallb plain_entry (es ++ [(mode, name, c2)]) = true.
Proof.
  rewrite !forallb_app. cbn [forallb plain_entry].
  intros [-> [[[-> ->]%andb_true_iff _]%andb_true_iff _]%andb_true_iff]%andb_true_iff ->.
  reflexivity.
Qed.

(** X20. The differ does not see the hash of the last entry: two Trees
    that differ only there, whatever the two hashes, are compared
    without a line of output. *)
Theorem compare_ignores_last_hash (staged : bool) (h1 h2 : string) (r : repo)
    (es : list (string * string * string)) (mode name c1 c2 : string) :
  lookup_object (part (if staged then Staging else Permanent) r) h1
  = Some (deflateSync (treeText (tree_body (es ++ [(mode, name, c1)])))) ->
  lookup_object (part (if staged then Staging else Permanent) r) h2
  = Some (deflateSync (treeText (tree_body (es ++ [(mode, name, c2)])))) ->
  forallb plain_entry (es ++ [(mode, name, c1)]) = true ->
  plain c2 = true ->
  compareTreeObjects h1 h2 staged r = (Ok [], r).
Proof.
  intros H1 H2 Hwf1 Hc2.
  pose proof (forallb_plain_last es mode name c1 c2 Hwf1 Hc2) as Hwf2.
  assert (P1 : exists t, parseTreeObject staged h1 r = (Ok t, r)
                         /\ parseTreeObject staged h2 r = (Ok t, r)).
  { unfold parseTreeObject.
    rewrite (bind_ok _ _ _ _ _ (readObject_found _ _ _ _ H1)).
    rewrite (bind_ok _ _ _ _ _ (readObject_found _ _ _ _ H2)).
    cbn [inflateSync deflateSync]. cbv zeta.
    rewrite (split_treeText _ Hwf1), (split_treeText _ Hwf2).
    rewrite (fields_last es mode name c1 c2). eauto. }
  destruct P1 as (t & P1 & P2). rewrite (compare_run _ _ _ _ _ _ P1 P2).
  now rewrite diff_same.
Qed.

Lemma staged12_trees :
  lookup_object (part Staging staged12) "b51045445088336e2c77fee3437e4d65ab441906"
  = Some (deflateSync
            (treeText
               (tree_body
                  ([] ++ [("100644", "a.txt",
                           "56a6051ca2b02b04ef92d5150c9ef600403cb1de")]))))
  /\ lookup_object (part Staging staged12) "8fb0e33e69bc3b519573c3965c30b61bd19d4b77"
     = Some (deflateSync
               (treeText
                  (tree_body
                     ([] ++ [("100644", "a.txt",
                              "d8263ee9860594d2806b0dfd1bfd17528b0ba2a4")])))).
Proof. split; vm_compute; reflexivity. Qed.

Lemma compare_ignores_last_hash_witness :
  compareTreeObjects "b51045445088336e2c77fee3437e4d65ab441906"
    "8fb0e33e69bc3b519573c3965c30b61bd19d4b77" true staged12
  = (Ok [], staged12).
Proof.
  apply (compare_ignores_last_hash true _ _ staged12 [] "100644" "a.txt"
           "56a6051ca2b02b04ef92d5150c9ef600403cb1de"
           "d8263ee9860594d2806b0dfd1bfd17528b0ba2a4"
           (proj1 staged12_trees) (proj2 staged12_trees));
    reflexivity.
Defined.

(** X21. A changed file is reported under the name of the entry behind
    it: where two Trees of two entries differ in the hash of the first
    entry only, the differ prints [modified] for the second name and
    nothing for the first. *)
Theorem compare_blames_next_entry (staged : bool) (h1 h2 : string) (r : repo)
    (m1 a c1 c2 m2 b g : string) :
  lookup_object (part (if staged then Staging else Permanent) r) h1
  = Some (deflateSync (treeText (tree_body [(m1, a, c1); (m2, b, g)]))) ->
  lookup_object (part (if staged then Staging else Permanent) r) h2
  = Some (deflateSync (treeText (tree_body [(m1, a, c2); (m2, b, g)]))) ->
  forallb plain_entry [(m1, a, c1); (m2, b, g)] = true ->
  plain c2 = true ->
  a <> b ->
  c1 <> c2 ->
  compareTreeObjects h1 h2 staged r = (Ok [(modified, Some b)], r).
Proof.
  intros H1 H2 Hwf1 Hc2 Hab Hc.
  assert (Hwf2 : forallb plain_entry [(m1, a, c2); (m2, b, g)] = true).
  { revert Hwf1. cbn [forallb plain_entry]. rewrite Hc2.
    intros [[[-> ->]%andb_true_iff _]%andb_true_iff ->]%andb_true_iff.
    reflexivity. }
  assert (Hnd : NoDup (map entry_name [(m1, a, c1); (m2, b, g)])).
  { cbn. apply NoDup_cons. split; [|apply NoDup_singleton].
    rewrite list_elem_of_singleton. exact Hab. }
  rewrite (compare_run _ _ _ _ _ _
             (parse_run _ _ _ _ H1 Hwf1 Hnd) (parse_run _ _ _ _ H2 Hwf2 Hnd)).
  cbn [parsed keys map fst app]. unfold new_Set. cbn [fold_left].
  rewrite (decide_False (P := Some a ∈ [])) by apply not_elem_of_nil.
  cbn [app].
  rewrite (decide_False (P := Some b ∈ [Some a]))
    by (rewrite list_elem_of_singleton; congruence).
  cbn [app].
  rewrite (decide_True (P := Some a ∈ [Some a; Some b])) by apply list_elem_of_here.
  rewrite (decide_True (P := Some b ∈ [Some a; Some b]))
    by apply list_elem_of_further, list_elem_of_here.
  cbn [flat_map]. unfold diff_line, map_has. cbn [map_get].
  rewrite !(decide_True (P := Some a = Some a)) by reflexivity.
  rewrite !(decide_False (P := Some b = Some a)) by congruence.
  rewrite !(decide_True (P := Some b = Some b)) by reflexivity.
  cbn [negb]. rewrite bool_decide_eq_true_2 by reflexivity.
  rewrite bool_decide_eq_false_2; [reflexivity|].
  intros [= E]. now apply append_cancel_r in E.
Qed.

Lemma stagedAB_trees :
  lookup_object (part Staging stagedAB) "4945d676037ade67502235f76f904f3fcd70e128"
  = Some (deflateSync
            (treeText
               (tree_body
                  [("100644", "a", "c1b0730e0133447badcfd47fd144e254807b06e1");
                   ("100644", "b", "e25f1814e51579d5f55c0f1fe0135ddb28a47f4a")])))
  /\ lookup_object (part Staging stagedAB) "d6e2d483270c3ae6e969b025272b81f6e056d614"
     = Some (deflateSync
               (treeText
                  (tree_body
                     [("100644", "a", "fa7af8bf5fdd704f73beb3adc5612682a98e1af5");
                      ("100644", "b", "e25f1814e51579d5f55c0f1fe0135ddb28a47f4a")]))).
Proof. split; vm_compute; reflexivity. Qed.

Lemma compare_classifies_witness :
  let t1 := parsed ""
              [("100644", "a", "c1b0730e0133447badcfd47fd144e254807b06e1");
               ("100644", "b", "e25f1814e51579d5f55c0f1fe0135ddb28a47f4a")] in
  let t2 := parsed ""
              [("100644", "a", "fa7af8bf5fdd704f73beb3adc5612682a98e1af5");
               ("100644", "b", "e25f1814e51579d5f55c0f1fe0135ddb28a47f4a")] in
  exists out,
    compareTreeObjects "4945d676037ade67502235f76f904f3fcd70e128"
      "d6e2d483270c3ae6e969b025272b81f6e056d614" true stagedAB
    = (Ok out, stagedAB)
    /\ NoDup (map snd out)
    /\ forall k,
         ((added, k) ∈ out <-> map_has k t1 = false /\ map_has k t2 = true)
         /\ ((deleted, k) ∈ out <-> map_has k t1 = true /\ map_has k t2 = false)
         /\ ((modified, k) ∈ out
             <-> map_has k t1 = true /\ map_has k t2 = true
                 /\ map_get k t1 <> map_get k t2).
Proof.
  intros t1 t2.
  assert (Hnd : NoDup ["a"; "b"]).
  { apply NoDup_cons. split; [|apply NoDup_singleton].
    now intros [=]%list_elem_of_singleton. }
  refine (compare_classifies true _ _ stagedAB t1 t2
            (parse_run true _ stagedAB _ (proj1 stagedAB_trees) eq_refl Hnd)
            (parse_run true _ stagedAB _ (proj2 stagedAB_trees) eq_refl Hnd)).
Defined.

Lemma compare_blames_next_entry_witness :
  compareTreeObjects "4945d676037ade67502235f76f904f3fcd70e128"
    "d6e2d483270c3ae6e969b025272b81f6e056d614" true stagedAB
  = (Ok [(modified, Some "b")], stagedAB).
Proof.
  apply (compare_blames_next_entry true _ _ stagedAB "100644" "a"
           "c1b0730e0133447badcfd47fd144e254807b06e1"
           "fa7af8bf5fdd704f73beb3adc5612682a98e1af5"
           "100644" "b" "e25f1814e51579d5f55c0f1fe0135ddb28a47f4a"
           (proj1 stagedAB_trees) (proj2 stagedAB_trees));
    try reflexivity; discriminate.
Defined.

(** ** What the walk leaves out *)

Lemma foldM_app {A B} (f : B -> A -> M B) (l1 l2 : list A) :
  forall acc r,
    foldM f acc (l1 ++ l2) r
    = bind (foldM f acc l1) (fun acc' => foldM f acc' l2) r.
Proof.
  induction l1 as [|x l1 IH]; intros acc r; [reflexivity|].
  cbn [app foldM]. unfold bind in *.
  destruct (f acc x r) as [[a|e] r1]; [apply IH|reflexivity].
Qed.

Lemma entryStep_skip cwd directory acc file child r :
  shouldIgnore cwd (pathJoin directory file) = Ok true
  \/ (shouldIgnore cwd (pathJoin directory file) = Ok false /\ child = Other) ->
  entryStep cwd directory acc (file, child) r = (Ok acc, r).
Proof.
  unfold entryStep, bind, lift. intros [-> |[-> ->]]; reflexivity.
Qed.

(** X22. An entry that matches an ignore pattern, whatever lies below
    it, and an entry that is neither a file nor a directory leave no
    trace in a walk: the hash returned and the repository afterwards are
    those of the directory without the entry. *)
Theorem skipped_entry_leaves_no_trace cwd directory
    (l1 l2 : list (string * node)) (file : string) (child : node) (r : repo) :
  shouldIgnore cwd (pathJoin directory file) = Ok true
  \/ (shouldIgnore cwd (pathJoin directory file) = Ok false /\ child = Other) ->
  writeTreeObject cwd directory (Dir (l1 ++ (file, child) :: l2)) r
  = writeTreeObject cwd directory (Dir (l1 ++ l2)) r.
Proof.
  intros Hskip. rewrite !writeTreeObject_Dir. unfold bind.
  rewrite !foldM_app. unfold bind.
  destruct (foldM (entryStep cwd directory) EmptyString l1 r) as [[acc|e] r1];
    [|reflexivity].
  cbn [foldM]. unfold bind.
  now rewrite (entryStep_skip cwd directory acc file child r1 Hskip).
Qed.

Lemma skipped_entry_leaves_no_trace_witness :
  writeTreeObject sameB "" (Dir ([] ++ (".git", Dir []) :: [("a", File 33060 "x")]))
    fresh
  = writeTreeObject sameB "" (Dir ([] ++ [("a", File 33060 "x")])) fresh.
Proof.
  apply (skipped_entry_leaves_no_trace sameB "" [] [("a", File 33060 "x")]
           ".git" (Dir []) fresh).
  left. reflexivity.
Defined.

(** ** The entries of a Tree *)

Lemma object_hash_length cwd path child h :
  object_hash cwd path child = Ok h -> String.length h = 40.
Proof.
  destruct child as [m d|sub|]; cbn [object_hash].
  - intros [= <-]. apply createShaHash_hex.
  - pose proof (writeTreeObject_result cwd path sub emptyRepo) as Hw.
    destruct (tree_entries cwd path sub) as [es|e].
    + destruct Hw as (rw & _ & ->). intros [= <-]. apply createShaHash_hex.
    + rewrite Hw. discriminate.
  - discriminate.
Qed.

Lemma getGitMode_cases (child : node) :
  match child with
  | Dir _ => getGitMode (statSync child) = "40000"
  | File m _ =>
      getGitMode (statSync child)
      = if (N.land m 64 =? 0)%N then "100644" else "100755"
  | Other => True
  end.
Proof. destruct child; reflexivity || exact I. Qed.

Lemma tree_entries_cons cwd directory file child rest es :
  tree_entries cwd directory ((file, child) :: rest) = Ok es ->
  tree_entries cwd directory rest = Ok es
  \/ exists h es0,
       es = (getGitMode (statSync child), file, h) :: es0
       /\ child <> Other
       /\ object_hash cwd (pathJoin directory file) child = Ok h
       /\ tree_entries cwd directory rest = Ok es0.
Proof.
  cbn [tree_entries].
  destruct (shouldIgnore cwd (pathJoin directory file)) as [[|]|e];
    [now left| |discriminate].
  destruct child as [m d|sub|]; [| |now left];
    (destruct (object_hash cwd (pathJoin directory file) _) as [h|e] eqn:Eh;
       [|discriminate];
     destruct (tree_entries cwd directory rest) as [es0|e] eqn:Er; [|discriminate];
     intros [= <-]; right; exists h, es0; repeat split; discriminate).
Qed.

(** X23. The entries of the Tree a directory gets: every entry carries
    the name of an entry of the listing that is a file or a directory;
    a directory has mode [40000], a file [100755] where its owner may
    execute it and [100644] otherwise, and no other mode occurs; every
    child hash is forty hexadecimal digits. *)
Theorem tree_entries_shape cwd directory (files : list (string * node))
    (es : list (string * string * string)) :
  tree_entries cwd directory files = Ok es ->
  Forall (fun e =>
            (exists child,
                (entry_name e, child) ∈ files
                /\ match child with
                   | Dir _ => fst (fst e) = "40000"
                   | File m _ =>
                       fst (fst e)
                       = if (N.land m 64 =? 0)%N then "100644" else "100755"
                   | Other => False
                   end)
            /\ all_hex (snd e) = true /\ String.length (snd e) = 40) es.
Proof.
  revert es. induction files as [|[file child] rest IH]; intros es.
  - intros [= <-]. constructor.
  - intros [Hr|(h & es0 & -> & Hc & Hh & Hr)]%tree_entries_cons;
      pose proof (IH _ Hr) as Hf.
    + eapply Forall_impl; [exact Hf|]. intros e ((c & Hin & Hm) & Hx).
      split; [|exact Hx]. exists c. split; [now right|exact Hm].
    + constructor.
      * cbn [fst snd entry_name]. split.
        -- exists child. split; [now left|].
           pose proof (getGitMode_cases child) as Hm.
           destruct child; [exact Hm|exact Hm|contradiction].
        -- split; [eapply object_hash_hex, Hh|eapply object_hash_length, Hh].
      * eapply Forall_impl; [exact Hf|]. intros e ((c & Hin & Hm) & Hx).
        split; [|exact Hx]. exists c. split; [now right|exact Hm].
Qed.

Lemma tree_entries_shape_witness :
  Forall (fun e =>
            (exists child,
                (entry_name e, child) ∈ orderAB
                /\ match child with
                   | Dir _ => fst (fst e) = "40000"
                   | File m _ =>
                       fst (fst e)
                       = if (N.land m 64 =? 0)%N then "100644" else "100755"
                   | Other => False
                   end)
            /\ all_hex (snd e) = true /\ String.length (snd e) = 40)
    [("100644", "a", "c1b0730e0133447badcfd47fd144e254807b06e1");
     ("100644", "b", "e25f1814e51579d5f55c0f1fe0135ddb28a47f4a")].
Proof.
  apply (tree_entries_shape orderAB "" orderAB). vm_compute. reflexivity.
Defined.

(** ** Further sequences *)

(** X25. A second commit right after a successful one finds the staging
    directory gone: it stops with [NothingToCommit] and changes
    nothing, whatever the working directory holds by then. *)
Theorem commit_twice cwd msg (r : repo) (h : string) (r' : repo) cwd' msg' :
  commitStagedFiles cwd msg r = (Ok h, r') ->
  commitStagedFiles cwd' msg' r' = (Err NothingToCommit, r').
Proof.
  intros (_ & _ & Hst & _)%commit_head.
  destruct (commit_cases cwd' msg' r') as [[_ H]|[[Hs _]|[Hs _]]];
    [exact H| |]; exfalso; apply Hs; rewrite Hst; apply map_size_empty.
Qed.

Lemma commit_twice_witness :
  commitStagedFiles work2 "second" (snd (commitStagedFiles work1 "first" staged1))
  = (Err NothingToCommit, snd (commitStagedFiles work1 "first" staged1)).
Proof. exact (commit_twice work1 "first" staged1 _ _ work2 "second" commit_first). Defined.

(** X26. A branch that [createBranch] has made is there: a second
    [createBranch] of the name stops with [BranchExists], and a
    checkout of it succeeds and leaves a [HEAD] that is read as a
    reference to the branch, whose file holds the hash that was
    returned. *)
Theorem branch_then_checkout (name : string) (r : repo) (h : string) (r' : repo) :
  createBranch name r = (Ok h, r') ->
  all_solid name = true ->
  createBranch name r' = (Err BranchExists, r')
  /\ exists r2,
       checkoutBranch name r' = (Ok tt, r2)
       /\ getHeadReference r2
          = (Ok (HeadBranch (Some ("refs/heads/" +:+ name))), r2)
       /\ heads r2 !! name = Some (h +:+ LF).
Proof.
  intros (Hp & Hn & ->)%createBranch_inv Hsolid.
  set (r' := mkRepo _ _ _ _ _).
  assert (Hl : heads r' !! name = Some (h +:+ LF)) by apply lookup_insert_eq.
  assert (He : existsSync (GitFile (BranchFile name)) r' = (Ok true, r')).
  { unfold existsSync. rewrite bind_get. cbn [readGitFile]. now rewrite Hl. }
  split.
  - unfold createBranch. rewrite Hp. now rewrite (bind_ok _ _ _ _ _ He).
  - unfold checkoutBranch. rewrite Hp, (bind_ok _ _ _ _ _ He). cbn [negb].
    unfold updateHeadToBranch, writeHead, modify, readFileGit, get, bind.
    cbn [readGitFile heads]. rewrite Hl. eexists. split; [reflexivity|].
    split; [now apply head_branch_read|exact Hl].
Qed.

Lemma branch_then_checkout_witness :
  createBranch "feature" (snd (createBranch "feature" fresh))
  = (Err BranchExists, snd (createBranch "feature" fresh))
  /\ exists r2,
       checkoutBranch "feature" (snd (createBranch "feature" fresh)) = (Ok tt, r2)
       /\ getHeadReference r2
          = (Ok (HeadBranch (Some ("refs/heads/" +:+ "feature"))), r2)
       /\ heads r2 !! "feature"
          = Some ("b69690aa846299e334dc4233bcaf5896e6d76e39" +:+ LF).
Proof.
  apply (branch_then_checkout "feature" fresh
           "b69690aa846299e334dc4233bcaf5896e6d76e39");
    [vm_compute; reflexivity|reflexivity].
Defined.

Lemma slice_lengths (n : nat) (s : string) :
  n <= String.length s ->
  String.length (slice_to n s) = n
  /\ String.length (slice_from n s) = String.length s - n.
Proof.
  revert s. induction n as [|n IH]; intros s Hn.
  - split; [now destruct s|]. cbn [slice_from]. destruct s; simpl; lia.
  - destruct s as [|c s]; [simpl in Hn; lia|]. simpl in Hn.
    destruct (IH s ltac:(lia)) as [H1 H2]. cbn [slice_to slice_from String.length].
    split; lia.
Qed.

(** X27. The place of an object: whatever is hashed, the object is
    filed in a directory named by two hexadecimal digits under a file
    name of thirty-eight, which together are its hash. *)
Theorem object_path_shape (s : string) :
  String.length (slice_to 2 (createShaHash s)) = 2
  /\ String.length (slice_from 2 (createShaHash s)) = 38
  /\ all_hex (slice_to 2 (createShaHash s)) = true
  /\ all_hex (slice_from 2 (createShaHash s)) = true
  /\ slice_to 2 (createShaHash s) +:+ slice_from 2 (createShaHash s)
     = createShaHash s.
Proof.
  destruct (createShaHash_hex s) as [Hhex Hlen].
  destruct (slice_lengths 2 (createShaHash s) ltac:(lia)) as [H1 H2].
  rewrite Hlen in H2.
  pose proof (slice_to_from 2 (createShaHash s)) as Hs.
  rewrite <- Hs, all_hex_app in Hhex. apply andb_true_iff in Hhex as [Ha Hb].
  repeat split; assumption.
Qed.

Lemma staged_from_keeps_staging (r r' : repo) (h : string) :
  staged_from r r' ->
  is_Some (lookup_object (staging r) h) -> is_Some (lookup_object (staging r') h).
Proof.
  intros H Hs. destruct (proj2 (staged_from_partitions _ _ H) h)
    as [->|(d & _ & ->)]; eauto.
Qed.

Lemma parse_total (staged : bool) (h : string) (r : repo) :
  is_Some (lookup_object (part (if staged then Staging else Permanent) r) h) ->
  exists t, parseTreeObject staged h r = (Ok t, r).
Proof.
  intros [b Hb]. unfold parseTreeObject.
  rewrite (bind_ok _ _ _ _ _ (readObject_found _ _ _ _ Hb)). eauto.
Qed.

(** X28. [stage] keeps the trees staged before: after two runs of
    [stage], on two states of the working directory whose ignore file
    can be read, both trees are in staging and the differ compares
    them without an error. *)
Theorem diff_of_two_stages cwd1 cwd2 (r : repo) ps1 ps2 :
  getIgnoredPatterns cwd1 = Ok ps1 ->
  getIgnoredPatterns cwd2 = Ok ps2 ->
  exists t1 r1 t2 r2 out,
    stageWorkingTree cwd1 r = (Ok t1, r1)
    /\ stageWorkingTree cwd2 r1 = (Ok t2, r2)
    /\ is_Some (lookup_object (staging r2) t1)
    /\ is_Some (lookup_object (staging r2) t2)
    /\ compareTreeObjects t1 t2 true r2 = (Ok out, r2).
Proof.
  intros Hp1 Hp2.
  destruct (walk_total cwd1 ps1 (Dir cwd1) Hp1 EmptyString) as [es1 He1].
  destruct (walk_total cwd2 ps2 (Dir cwd2) Hp2 EmptyString) as [es2 He2].
  destruct (stageWorkingTree_run cwd1 r es1 He1) as (rw1 & _ & Hrun1).
  set (t1 := createShaHash (treeText (tree_body es1))) in *.
  set (r1 := snd (stageTreeObject t1 (deflateSync (treeText (tree_body es1))) rw1))
    in *.
  destruct (stageWorkingTree_run cwd2 r1 es2 He2) as (rw2 & Hrw2 & Hrun2).
  set (t2 := createShaHash (treeText (tree_body es2))) in *.
  set (r2 := snd (stageTreeObject t2 (deflateSync (treeText (tree_body es2))) rw2))
    in *.
  assert (H2 : is_Some (lookup_object (staging r2) t2)).
  { subst r2. cbn. rewrite lookup_put_eq. eauto. }
  assert (H1 : is_Some (lookup_object (staging r2) t1)).
  { subst r2. cbn. apply put_keeps.
    apply (staged_from_keeps_staging r1 rw2 t1 Hrw2).
    subst r1. cbn. rewrite lookup_put_eq. eauto. }
  destruct (parse_total true t1 r2 H1) as [m1 P1].
  destruct (parse_total true t2 r2 H2) as [m2 P2].
  exists t1, r1, t2, r2. eexists. split; [exact Hrun1|]. split; [exact Hrun2|].
  split; [exact H1|]. split; [exact H2|].
  apply (compare_run _ _ _ _ _ _ P1 P2).
Qed.

Lemma diff_of_two_stages_witness :
  exists t1 r1 t2 r2 out,
    stageWorkingTree work1 fresh = (Ok t1, r1)
    /\ stageWorkingTree work2 r1 = (Ok t2, r2)
    /\ is_Some (lookup_object (staging r2) t1)
    /\ is_Some (lookup_object (staging r2) t2)
    /\ compareTreeObjects t1 t2 true r2 = (Ok out, r2).
Proof.
  apply (diff_of_two_stages work1 work2 fresh [".customGit"; ".git"]
           [".customGit"; ".git"]); reflexivity.
Defined.
